(** * CV analysis engine: a shallow embedding of [cv_analysis.py]

    The engine of the CHI-CVAnalysis repository reads a CHI660E text export,
    cuts the voltage/current series into cycles, integrates the hysteresis
    loop of every cycle and aggregates the per-cycle capacitances.

    Conventions of the embedding.
    - Python floats are idealised as exact rationals ([Q]).  Comparison is
      numerical ([Qeq_bool], [Qle_bool]); a division whose divisor compares
      equal to zero raises [ZeroDivisionError], as Python's [/] does.
    - Exceptions are explicit: a computation of type [py A] either returns
      or raises.  A method returning [None] returns [Ret None].
    - The analyzer object is the record [CVAnalyzer]; methods take [self]. *)

From Stdlib Require Import String Ascii DecimalString.
From Stdlib Require Import ZArith QArith Qabs Qround Bool Lia Lqa List.
From Stdlib Require Import Permutation Sorted.
Import ListNotations.

(** ** Python numbers and exceptions *)

Module PyNum.

Inductive exn : Type :=
| ZeroDivisionError
| StatisticsError
| ValueError.

Inductive py (A : Type) : Type :=
| Ret (a : A)
| Raise (e : exn).

Arguments Ret {A} a.
Arguments Raise {A} e.

Definition bind {A B : Type} (m : py A) (k : A -> py B) : py B :=
  match m with
  | Ret a => k a
  | Raise e => Raise e
  end.

(** [a < b] and [a > b] on floats. *)
Definition Qltb (a b : Q) : bool := negb (Qle_bool b a).
Definition Qgtb (a b : Q) : bool := Qltb b a.

(** [a / b] *)
Definition py_div (a b : Q) : py Q :=
  if Qeq_bool b 0 then Raise ZeroDivisionError else Ret (a / b)%Q.

(** [round(v, 6)]: the nearest multiple of 1e-6, halves to the even
    neighbour. *)
Definition py_round6 (v : Q) : Q :=
  let x := (v * 1000000)%Q in
  let f := Qfloor x in
  let frac := (x - inject_Z f)%Q in
  let r :=
    match (frac ?= 1 # 2)%Q with
    | Lt => f
    | Gt => (f + 1)%Z
    | Eq => if Z.even f then f else (f + 1)%Z
    end in
  Qmake r 1000000.

(** [max(l)] and [min(l)] of a list known to start with [x]: the first
    extremal element is kept. *)
Definition py_max (x : Q) (l : list Q) : Q :=
  fold_left (fun m y => if Qgtb y m then y else m) l x.

Definition py_min (x : Q) (l : list Q) : Q :=
  fold_left (fun m y => if Qltb y m then y else m) l x.

(** [sum(l)] from the left, starting at 0. *)
Definition py_sum (l : list Q) : Q :=
  fold_left Qplus l 0%Q.

End PyNum.

Import PyNum.

Notation "x <- m ;; k" := (bind m (fun x => k))
  (at level 61, m at next level, right associativity).
Notation "' pat <- m ;; k" :=
  (bind m (fun x => match x with pat => k end))
  (at level 61, pat pattern, m at next level, right associativity).

(** ** Data model *)

(** One row of the data block: [(voltage, current)]. *)
Abbreviation Sample := (Q * Q)%type (only parsing).

(** [self.metadata]: a dict that holds a key only when the export had it. *)
Record Metadata : Type := mkMetadata {
  init_e : option Q;
  high_e : option Q;
  low_e : option Q;
  scan_rate : option Q;
  segment : option nat;
  sample_interval : option Q;
  sensitivity : option Q
}.

Definition empty_metadata : Metadata :=
  mkMetadata None None None None None None None.

(** [dict.get(key, default)] *)
Definition get {A : Type} (field : option A) (default : A) : A :=
  match field with
  | Some a => a
  | None => default
  end.

(** The dict returned by [_calculate_cycle_capacitance]. *)
Record CycleResult : Type := mkCycleResult {
  cycle_num : nat;
  area : Q;
  capacitance : Q;
  is_outlier : bool;
  outlier_reason : option string;
  warning : option string
}.

(** The instance fields of [CVAnalyzer] ([file_path] is of the I/O layer
    only and is left out). *)
Record CVAnalyzer : Type := mkCVAnalyzer {
  sensitivity_threshold_factor : Z;
  outlier_count : Z;
  metadata : Metadata;
  voltage_current_data : list Sample;
  is_cv : bool
}.

(** [CVAnalyzer(sensitivity_threshold_factor, outlier_count)] *)
Definition __init__ (factor count : Z) : CVAnalyzer :=
  mkCVAnalyzer factor count empty_metadata [] false.

(** [CVAnalyzer()]: the defaults of the two keyword arguments. *)
Definition default_analyzer : CVAnalyzer := __init__ 10 1.

(** Assignments to single fields of [self]. *)
Definition set_metadata (md : Metadata) (self : CVAnalyzer) : CVAnalyzer :=
  mkCVAnalyzer (sensitivity_threshold_factor self) (outlier_count self) md
    (voltage_current_data self) (is_cv self).

Definition set_data (data : list Sample) (self : CVAnalyzer) : CVAnalyzer :=
  mkCVAnalyzer (sensitivity_threshold_factor self) (outlier_count self)
    (metadata self) data (is_cv self).

Definition set_is_cv (b : bool) (self : CVAnalyzer) : CVAnalyzer :=
  mkCVAnalyzer (sensitivity_threshold_factor self) (outlier_count self)
    (metadata self) (voltage_current_data self) b.

(** [self.metadata['scan_rate'] = r] *)
Definition set_scan_rate (r : Q) (md : Metadata) : Metadata :=
  mkMetadata (init_e md) (high_e md) (low_e md) (Some r) (segment md)
    (sample_interval md) (sensitivity md).

(** ** Per-cycle capacitance *)

(** Python slices [l[:n]] and [l[n:]] for [0 <= n]. *)
Definition slice_to {A : Type} (n : nat) (l : list A) : list A := firstn n l.
Definition slice_from {A : Type} (n : nat) (l : list A) : list A := skipn n l.

(** The loop of [_split_forward_reverse] that looks for the largest
    voltage: [i] is the running index, [(max_idx, max_voltage)] the state. *)
Fixpoint max_voltage_loop (i : nat) (max_idx : nat) (max_voltage : Q)
    (rest : list Sample) : nat :=
  match rest with
  | [] => max_idx
  | (v, _) :: rest' =>
      if Qgtb v max_voltage
      then max_voltage_loop (S i) i v rest'
      else max_voltage_loop (S i) max_idx max_voltage rest'
  end.

Definition _split_forward_reverse (cycle_data : list Sample)
    : list Sample * list Sample :=
  if (length cycle_data <? 2)%nat then ([], [])
  else
    match cycle_data with
    | [] => ([], [])
    | (v0, _) :: _ =>
        let max_idx := max_voltage_loop 0 0 v0 cycle_data in
        (slice_to (max_idx + 1) cycle_data, slice_from max_idx cycle_data)
    end.

(** The dict [reverse_dict]: keys are compared as floats are, a later
    assignment to a key replaces the value and keeps the key's place. *)
Abbreviation PyDict := (list (Q * Q)) (only parsing).

Fixpoint dict_set (k v : Q) (d : PyDict) : PyDict :=
  match d with
  | [] => [(k, v)]
  | (k', v') :: d' =>
      if Qeq_bool k' k then (k', v) :: d' else (k', v') :: dict_set k v d'
  end.

Fixpoint dict_get (k : Q) (d : PyDict) : option Q :=
  match d with
  | [] => None
  | (k', v') :: d' => if Qeq_bool k' k then Some v' else dict_get k d'
  end.

(** [{round(v, 6): i for v, i in reverse_scan}] *)
Definition reverse_dict_of (reverse_scan : list Sample) : PyDict :=
  fold_left (fun d s => dict_set (py_round6 (fst s)) (snd s) d) reverse_scan [].

(** The body of the loop of [_calculate_area] over [range(len(forward_scan) - 1)]:
    the list is walked by consecutive pairs, [area] is the accumulator. *)
Fixpoint area_loop (reverse_dict : PyDict) (forward_scan : list Sample)
    (area : Q) : Q :=
  match forward_scan with
  | (v1, i1) :: (((v2, i2) :: _) as rest) =>
      let v1_rounded := py_round6 v1 in
      let v2_rounded := py_round6 v2 in
      match dict_get v1_rounded reverse_dict,
            dict_get v2_rounded reverse_dict with
      | Some ir1, Some ir2 =>
          let dV := Qabs (v2 - v1) in
          let delta_i_avg := (((i1 - ir1) + (i2 - ir2)) / 2)%Q in
          area_loop reverse_dict rest (area + delta_i_avg * dV)%Q
      | _, _ => area_loop reverse_dict rest area
      end
  | _ => area
  end.

Definition _calculate_area (forward_scan reverse_scan : list Sample) : Q :=
  let reverse_dict := reverse_dict_of reverse_scan in
  Qabs (area_loop reverse_dict forward_scan 0%Q).

(** The literal ['电流溢出'] ("current overflow"). *)
Definition current_overflow : string := "电流溢出".

(** The f-string of the overflow warning. *)
Definition overflow_warning (factor : Z) : string :=
  ("电流值超出" ++ NilZero.string_of_int (Z.to_int factor)
     ++ "x灵敏度范围，本循环数据被忽略")%string.

(** [any(c > threshold for c in currents)] *)
Definition has_overflow (threshold : Q) (cycle_data : list Sample) : bool :=
  let currents := map (fun s => Qabs (snd s)) cycle_data in
  existsb (fun c => Qgtb c threshold) currents.

(** [threshold = sensitivity * self.sensitivity_threshold_factor] *)
Definition threshold (self : CVAnalyzer) : Q :=
  let sensitivity := get (sensitivity (metadata self)) (1 # 100000) in
  (sensitivity * inject_Z (sensitivity_threshold_factor self))%Q.

(** [max(voltages) - min(voltages) if voltages else 1] *)
Definition voltage_range (forward_scan : list Sample) : Q :=
  let voltages := map fst forward_scan in
  match voltages with
  | [] => 1%Q
  | v :: vs => (py_max v vs - py_min v vs)%Q
  end.

Definition _calculate_cycle_capacitance (self : CVAnalyzer) (cycle_num : nat)
    (cycle_data : list Sample) : py (option CycleResult) :=
  if (length cycle_data <? 2)%nat then Ret None
  else
    if has_overflow (threshold self) cycle_data then
      Ret (Some (mkCycleResult cycle_num 0 0 true (Some current_overflow)
                   (Some (overflow_warning (sensitivity_threshold_factor self)))))
    else
      let '(forward_scan, reverse_scan) := _split_forward_reverse cycle_data in
      match forward_scan, reverse_scan with
      | [], _ | _, [] => Ret None
      | _ :: _, _ :: _ =>
          let area := _calculate_area forward_scan reverse_scan in
          let scan_rate := get (scan_rate (metadata self)) (1 # 100) in
          if Qeq_bool scan_rate 0 then Ret None
          else
            capacitance <-
              py_div area (2 * scan_rate * voltage_range forward_scan)%Q ;;
            Ret (Some (mkCycleResult cycle_num area capacitance false None None))
      end.

(** ** Cycle segmentation *)

(** The first loop of [_split_into_cycles]: the labels appended to
    [direction_changes] for the samples after the first one.  [prev_v] is
    the voltage of the previous sample and [last] is [direction_changes[-1]]. *)
Fixpoint direction_loop (prev_v : Q) (last : Z) (rest : list Sample)
    : list Z :=
  match rest with
  | [] => []
  | (curr_v, _) :: rest' =>
      let d :=
        if Qgtb curr_v prev_v then 1%Z
        else if Qltb curr_v prev_v then (-1)%Z
        else last in
      d :: direction_loop curr_v d rest'
  end.

(** [direction_changes]: it starts as [[0]]. *)
Definition direction_changes (data : list Sample) : list Z :=
  match data with
  | [] => [0%Z]
  | (v0, _) :: rest => 0%Z :: direction_loop v0 0%Z rest
  end.

(** The second loop: the indices [i >= 1] appended to
    [direction_change_indices]; [prev] is [direction_changes[i-1]]. *)
Fixpoint reversal_loop (i : nat) (prev : Z) (rest : list Z) : list nat :=
  match rest with
  | [] => []
  | d :: rest' =>
      if negb (d =? prev)%Z && negb (d =? 0)%Z && negb (prev =? 0)%Z
      then i :: reversal_loop (S i) d rest'
      else reversal_loop (S i) d rest'
  end.

Definition direction_change_indices (dirs : list Z) : list nat :=
  0%nat :: match dirs with
           | [] => []
           | d0 :: rest => reversal_loop 1 d0 rest
           end.

(** [cycle_boundaries]: [[0]], then the reversal indices while fewer than
    [segment] boundaries are held, then [len(data)]. *)
Definition cycle_boundaries (segment : nat) (indices : list nat) (n : nat)
    : list nat :=
  fold_left
    (fun cb idx => if (length cb <? segment)%nat then cb ++ [idx] else cb)
    (tl indices) [0%nat]
  ++ [n].

(** [data[start_idx:end_idx]] *)
Definition slice {A : Type} (start_idx end_idx : nat) (data : list A)
    : list A :=
  firstn (end_idx - start_idx) (skipn start_idx data).

(** The loop over [range(len(cycle_boundaries) - 1)]. *)
Fixpoint slices_loop (data : list Sample) (cb : list nat)
    : list (list Sample) :=
  match cb with
  | start_idx :: ((end_idx :: _) as cb') =>
      let cycle_data := slice start_idx end_idx data in
      if (2 <=? length cycle_data)%nat
      then cycle_data :: slices_loop data cb'
      else slices_loop data cb'
  | _ => []
  end.

(** The loop over [range(0, len(cycles) - 1, 2)]. *)
Fixpoint pair_loop (cycles : list (list Sample)) : list (list Sample) :=
  match cycles with
  | forward :: reverse :: rest =>
      let combined := forward ++ reverse in
      if (1 <? length combined)%nat
      then combined :: pair_loop rest
      else pair_loop rest
  | _ => []
  end.

(** [cycles] as it stands before the reconciliation with [expected_cycles]. *)
Definition unpaired_cycles (self : CVAnalyzer) : list (list Sample) :=
  let data := voltage_current_data self in
  let segment := get (segment (metadata self)) 10%nat in
  let indices := direction_change_indices (direction_changes data) in
  slices_loop data (cycle_boundaries segment indices (length data)).

Definition _split_into_cycles (self : CVAnalyzer) : list (list Sample) :=
  if (length (voltage_current_data self) <? 2)%nat then []
  else
    let segment := get (segment (metadata self)) 10%nat in
    let expected_cycles := (segment / 2)%nat in
    let cycles := unpaired_cycles self in
    if (expected_cycles <? length cycles)%nat then
      match pair_loop cycles with
      | [] => cycles
      | paired_cycles => paired_cycles
      end
    else cycles.

(** ** Aggregation *)

(** [_get_valid_capacitances] *)
Definition _get_valid_capacitances (cycle_results : list CycleResult)
    : list Q :=
  map capacitance
    (filter (fun result => negb (is_outlier result)
                           && Qgtb (capacitance result) 0)
       cycle_results).

(** [statistics.mean] *)
Definition mean (values : list Q) : py Q :=
  match values with
  | [] => Raise StatisticsError
  | _ => Ret (py_sum values / inject_Z (Z.of_nat (length values)))%Q
  end.

(** [l.sort(reverse=True, key=lambda x: x[0])]: the sort is stable, also
    under [reverse=True]; entries with equal keys keep their order. *)
Fixpoint insert_desc (x : Q * Q) (l : list (Q * Q)) : list (Q * Q) :=
  match l with
  | [] => [x]
  | y :: l' =>
      if Qltb (fst x) (fst y) then y :: insert_desc x l' else x :: l
  end.

Definition sort_reverse (l : list (Q * Q)) : list (Q * Q) :=
  fold_right insert_desc [] l.

(** [l[n:]] for an [int] [n] of either sign. *)
Definition py_slice_from {A : Type} (n : Z) (l : list A) : list A :=
  if (n <? 0)%Z then skipn (length l - Z.to_nat (- n)) l
  else skipn (Z.to_nat n) l.

Section Aggregation.

(** [math.sqrt], which [statistics.stdev] ends with. *)
Variable sqrt : Q -> Q.

(** [statistics.stdev]: the sample standard deviation. *)
Definition stdev (values : list Q) : py Q :=
  if (length values <? 2)%nat then Raise StatisticsError
  else
    let n := inject_Z (Z.of_nat (length values)) in
    let m := (py_sum values / n)%Q in
    let ss := py_sum (map (fun x => (x - m) * (x - m))%Q values) in
    Ret (sqrt (ss / (n - 1)))%Q.

(** [[(abs(v - mean) / stdev, v) for v in values]], in exact rationals:
    z-scores that tie here can differ once rounded, and the other way
    round.  [AnyArithmetic], further down, has the method over the
    arithmetic of the interpreter. *)
Fixpoint z_scores_of (mean stdev : Q) (values : list Q)
    : py (list (Q * Q)) :=
  match values with
  | [] => Ret []
  | v :: values' =>
      z <- py_div (Qabs (v - mean)) stdev ;;
      rest <- z_scores_of mean stdev values' ;;
      Ret ((z, v) :: rest)
  end.

Definition _calculate_robust_average (self : CVAnalyzer) (values : list Q)
    : py Q :=
  if (Z.of_nat (length values) <=? outlier_count self)%Z then mean values
  else
    mean_ <- mean values ;;
    stdev_ <- (if (1 <? length values)%nat then stdev values else Ret 0%Q) ;;
    if Qeq_bool stdev_ 0 then Ret mean_
    else
      z_scores <- z_scores_of mean_ stdev_ values ;;
      let z_scores := sort_reverse z_scores in
      let remaining := map snd (py_slice_from (outlier_count self) z_scores) in
      match remaining with
      | [] => Ret mean_
      | _ => mean remaining
      end.

(** *** The command-line analysis *)

(** The loop of [analyze] over [enumerate(cycles, 1)]; the state is
    [(capacitances, cycle_results)]. *)
Fixpoint results_loop (self : CVAnalyzer) (cycle_num : nat)
    (cycles : list (list Sample))
    (capacitances : list Q) (cycle_results : list CycleResult)
    : py (list Q * list CycleResult) :=
  match cycles with
  | [] => Ret (capacitances, cycle_results)
  | cycle_data :: cycles' =>
      result <- _calculate_cycle_capacitance self cycle_num cycle_data ;;
      match result with
      | Some result =>
          results_loop self (S cycle_num) cycles'
            (capacitances ++ [capacitance result])
            (cycle_results ++ [result])
      | None =>
          results_loop self (S cycle_num) cycles' capacitances cycle_results
      end
  end.

(** What the final block of [analyze] prints when there are several
    capacitances. *)
Record Dispersion : Type := mkDispersion {
  minimum : Q;
  maximum : Q;
  std_dev : Q;
  variation_coefficient : Q
}.

(** What a run that returns [True] has printed. *)
Record Report : Type := mkReport {
  results : list CycleResult;
  valid_cycles : nat;
  avg_capacitance : Q;
  dispersion : option Dispersion
}.

(** The ways [analyze] ends: the four [return False], and [return True]. *)
Inductive Outcome : Type :=
| NotCV
| NoUsableData
| CannotSplitCycles
| AllCyclesIgnored
| Analyzed (report : Report).

Definition analyze (self : CVAnalyzer) : py Outcome :=
  if negb (is_cv self) then Ret NotCV
  else
    match voltage_current_data self with
    | [] => Ret NoUsableData
    | _ :: _ =>
        match _split_into_cycles self with
        | [] => Ret CannotSplitCycles
        | (_ :: _) as cycles =>
            '(capacitances, cycle_results) <-
               results_loop self 1 cycles [] [] ;;
            match capacitances with
            | [] => Ret AllCyclesIgnored
            | c0 :: cs =>
                avg <- _calculate_robust_average self capacitances ;;
                if (1 <? length capacitances)%nat then
                  sd <- (if (1 <? length capacitances)%nat
                         then stdev capacitances else Ret 0%Q) ;;
                  ratio <- py_div sd avg ;;
                  Ret (Analyzed
                         (mkReport cycle_results (length capacitances) avg
                            (Some (mkDispersion (py_min c0 cs) (py_max c0 cs)
                                     sd (ratio * 100)%Q))))
                else
                  Ret (Analyzed
                         (mkReport cycle_results (length capacitances) c0
                            None))
            end
        end
    end.

End Aggregation.

(** ** Reading the export *)

Open Scope string_scope.

(** [sub in s] *)
Fixpoint contains (sub s : string) : bool :=
  String.prefix sub s
  || match s with
     | EmptyString => false
     | String _ s' => contains sub s'
     end.

(** [s.split(sep)] for a separator of one character. *)
Fixpoint split (sep : ascii) (s : string) : list string :=
  match s with
  | EmptyString => [EmptyString]
  | String c s' =>
      if Ascii.eqb c sep then EmptyString :: split sep s'
      else
        match split sep s' with
        | [] => [String c EmptyString]
        | field :: fields => String c field :: fields
        end
  end.

(** The characters [str.strip()] removes (the export is ASCII text). *)
Definition is_space (c : ascii) : bool :=
  let n := nat_of_ascii c in
  ((9 <=? n) && (n <=? 13) || (28 <=? n) && (n <=? 32))%nat.

Fixpoint lstrip (s : string) : string :=
  match s with
  | EmptyString => EmptyString
  | String c s' => if is_space c then lstrip s' else s
  end.

Fixpoint rstrip (s : string) : string :=
  match s with
  | EmptyString => EmptyString
  | String c s' =>
      match rstrip s' with
      | EmptyString => if is_space c then EmptyString else String c EmptyString
      | r => String c r
      end
  end.

Definition strip (s : string) : string := rstrip (lstrip s).

Definition newline : ascii := "010"%char.
Definition comma : ascii := ","%char.

Definition cv_marker : string := "Cyclic Voltammetry".
Definition data_header : string := "Potential/V, Current/A".

(** The search for the header line: [data_start_idx] is [-1] or one past
    the first line that contains the header. *)
Fixpoint header_loop (i : Z) (lines : list string) : Z :=
  match lines with
  | [] => (-1)%Z
  | line :: lines' =>
      if contains data_header line then (i + 1)%Z
      else header_loop (i + 1)%Z lines'
  end.

Section Parser.

(** [float(s)] on a string: [None] stands for [ValueError]. *)
Variable float : string -> option Q.

(** [_parse_metadata]: the regular-expression scan of the first 50 lines
    updates [self.metadata]; its [float(...)] calls are outside any [try]. *)
Variable _parse_metadata : string -> Metadata -> py Metadata.

(** The [try] block for one stripped, non-empty line: the sample that is
    appended, if any. *)
Definition parse_row (line : string) : option Sample :=
  let parts := split comma line in
  match parts with
  | [p0; p1] =>
      match float (strip p0) with
      | None => None
      | Some voltage =>
          match float (strip p1) with
          | None => None
          | Some current => Some (voltage, current)
          end
      end
  | _ => None
  end.

(** The body of the loop over [lines[data_start_idx:]] for one line: the
    sample it appends, if any. *)
Definition row_of_line (line : string) : option Sample :=
  let line := strip line in
  if String.eqb line EmptyString then None
  else parse_row line.

(** The loop itself; [data] is [self.voltage_current_data]. *)
Fixpoint rows_loop (lines : list string) (data : list Sample)
    : list Sample :=
  match lines with
  | [] => data
  | line :: lines' =>
      match row_of_line line with
      | Some sample => rows_loop lines' (data ++ [sample])
      | None => rows_loop lines' data
      end
  end.

Definition _parse_voltage_current_data (content : string)
    (self : CVAnalyzer) : CVAnalyzer :=
  let lines := split newline content in
  let data_start_idx := header_loop 0 lines in
  if (data_start_idx =? -1)%Z then self
  else
    set_data
      (rows_loop (skipn (Z.to_nat data_start_idx) lines)
         (voltage_current_data self))
      self.

(** [read_file] once the text of the file is at hand ([None]: it could
    not be opened or decoded).  The result is the returned flag and the
    analyzer as the call leaves it. *)
Definition read_file (file : option string) (self : CVAnalyzer)
    : py (bool * CVAnalyzer) :=
  match file with
  | None => Ret (false, self)
  | Some content =>
      if negb (contains cv_marker content) then Ret (false, self)
      else
        let self := set_is_cv true self in
        md <- _parse_metadata content (metadata self) ;;
        let self := set_metadata md self in
        let self := _parse_voltage_current_data content self in
        match voltage_current_data self with
        | [] => Ret (false, self)
        | _ :: _ => Ret (true, self)
        end
  end.

End Parser.

Close Scope string_scope.

(** ** The specification's wording, to be compared with the code *)

(** Consecutive pairs [(l[i], l[i+1])]. *)
Definition consecutive_pairs {A : Type} (l : list A) : list (A * A) :=
  combine l (tl l).

(** The reverse-scan lookup: the current recorded for a voltage is that of
    the last reverse sample whose voltage rounds to the same 6 decimals. *)
Definition spec_reverse_current (reverse_scan : list Sample) (v : Q)
    : option Q :=
  option_map snd
    (find (fun s => Qeq_bool (py_round6 (fst s)) (py_round6 v))
       (rev reverse_scan)).

(** The term a forward pair adds to the area, if both ends are matched. *)
Definition spec_pair_term (reverse_scan : list Sample) (p : Sample * Sample)
    : list Q :=
  let '((v1, i1), (v2, i2)) := p in
  match spec_reverse_current reverse_scan v1,
        spec_reverse_current reverse_scan v2 with
  | Some ir1, Some ir2 => [((i1 - ir1) + (i2 - ir2)) / 2 * Qabs (v2 - v1)]%Q
  | _, _ => []
  end.

Definition spec_loop_area (forward_scan reverse_scan : list Sample) : Q :=
  Qabs (py_sum (flat_map (spec_pair_term reverse_scan)
                  (consecutive_pairs forward_scan))).

(** [k] is the first index at which the cycle attains its largest voltage. *)
Definition first_max_index (k : nat) (cycle_data : list Sample) : Prop :=
  (k < length cycle_data)%nat /\
  (forall j, (j < length cycle_data)%nat ->
             (fst (nth j cycle_data (0, 0)) <= fst (nth k cycle_data (0, 0)))%Q) /\
  (forall j, (j < k)%nat ->
             (fst (nth j cycle_data (0, 0)) < fst (nth k cycle_data (0, 0)))%Q).

(** The overflow threshold in the specification's words: the sensitivity
    of the export, 1e-5 when it gives none, times the factor. *)
Definition spec_threshold (sensitivity : option Q) (factor : Z) : Q :=
  (match sensitivity with
   | Some s => s
   | None => 1 # 100000
   end * inject_Z factor)%Q.

(** Some sample of the cycle has [|current|] above that threshold. *)
Definition spec_overflows (self : CVAnalyzer) (cycle_data : list Sample)
    : Prop :=
  exists s,
    In s cycle_data
    /\ (spec_threshold (sensitivity (metadata self))
          (sensitivity_threshold_factor self) < Qabs (snd s))%Q.

(** Some sample of the cycle has [|current| > threshold]. *)
Definition overflows (self : CVAnalyzer) (cycle_data : list Sample) : Prop :=
  exists s, In s cycle_data /\ (threshold self < Qabs (snd s))%Q.
(** The reconciliation as the specification words it: combined cycle [k]
    is [cycle[2k] + cycle[2k+1]], for every [k] with both in range. *)
Definition spec_paired (cycles : list (list Sample)) : list (list Sample) :=
  map (fun k => nth (2 * k) cycles [] ++ nth (2 * k + 1) cycles [])
    (seq 0 (length cycles / 2)).

(** The arithmetic mean of a non-empty list. *)
Definition spec_mean (values : list Q) : Q :=
  (py_sum values / inject_Z (Z.of_nat (length values)))%Q.

(** The sample standard deviation, taken as 0 for fewer than two values. *)
Definition spec_stdev (sqrt : Q -> Q) (values : list Q) : Q :=
  if (length values <? 2)%nat then 0%Q
  else
    let n := inject_Z (Z.of_nat (length values)) in
    let m := spec_mean values in
    sqrt (py_sum (map (fun x => (x - m) * (x - m))%Q values) / (n - 1))%Q.

(** Each value tagged with its z-score [|value - mean| / stdev]. *)
Definition spec_z_scores (m s : Q) (values : list Q) : list (Q * Q) :=
  map (fun v => (Qabs (v - m) / s, v)%Q) values.

(** A line is accepted when a split on the comma gives exactly two fields
    and both read as numbers. *)
Definition spec_accepted (float : string -> option Q) (line : string)
    (sample : Sample) : Prop :=
  exists p0 p1,
    split comma line = [p0; p1]
    /\ float (strip p0) = Some (fst sample)
    /\ float (strip p1) = Some (snd sample).

(** The lines that follow the first line containing the data header. *)
Fixpoint lines_after_header (lines : list string) : option (list string) :=
  match lines with
  | [] => None
  | line :: lines' =>
      if contains data_header line then Some lines'
      else lines_after_header lines'
  end.

(** The samples a list of lines contributes, in order. *)
Definition rows_of (float : string -> option Q) (lines : list string)
    : list Sample :=
  flat_map (fun line => match row_of_line float line with
                        | Some sample => [sample]
                        | None => []
                        end) lines.

(** [f] on the first, respectively the last, element of a list. *)
Definition map_first {A : Type} (f : A -> A) (l : list A) : list A :=
  match l with
  | [] => []
  | x :: l' => f x :: l'
  end.

Fixpoint map_last {A : Type} (f : A -> A) (l : list A) : list A :=
  match l with
  | [] => []
  | [x] => [f x]
  | x :: l' => x :: map_last f l'
  end.

(** ** Instances for examples *)

(** A reader of plain decimal literals [[-]ddd[.ddd][e[-]dd]], standing in
    for [float] where an example has to be run; Python's [float] accepts
    more spellings. *)
Definition digit_of (c : ascii) : option Z :=
  let n := nat_of_ascii c in
  if ((48 <=? n) && (n <=? 57))%nat then Some (Z.of_nat (n - 48)) else None.

Fixpoint read_digits (s : string) (acc : Z) (count : nat)
    : Z * nat * string :=
  match s with
  | EmptyString => (acc, count, s)
  | String c s' =>
      match digit_of c with
      | Some d => read_digits s' (acc * 10 + d)%Z (S count)
      | None => (acc, count, s)
      end
  end.

Definition read_sign (s : string) : bool * string :=
  match s with
  | String "-"%char s' => (true, s')
  | String "+"%char s' => (false, s')
  | _ => (false, s)
  end.

Definition scale (q : Q) (negative : bool) (e : Z) : Q :=
  if negative then (q / inject_Z (10 ^ e))%Q else (q * inject_Z (10 ^ e))%Q.

Definition decimal_float (s : string) : option Q :=
  let '(neg, s1) := read_sign s in
  let '(int_part, int_count, s2) := read_digits s1 0%Z 0%nat in
  let '(mantissa, frac_count, s3) :=
    match s2 with
    | String "."%char s2' =>
        let '(m, k, s3) := read_digits s2' int_part 0%nat in (m, k, s3)
    | _ => (int_part, 0%nat, s2)
    end in
  if (int_count + frac_count =? 0)%nat then None
  else
    let magnitude := Qmake mantissa (Pos.pow 10 (Pos.of_nat frac_count)) in
    let magnitude :=
      if (frac_count =? 0)%nat then inject_Z mantissa else magnitude in
    let value := if neg then (- magnitude)%Q else magnitude in
    match s3 with
    | EmptyString => Some value
    | String c s3' =>
        if (Ascii.eqb c "e" || Ascii.eqb c "E")%bool then
          let '(eneg, s4) := read_sign s3' in
          let '(e, e_count, s5) := read_digits s4 0%Z 0%nat in
          match s5 with
          | EmptyString =>
              if (e_count =? 0)%nat then None else Some (scale value eneg e)
          | _ => None
          end
        else None
    end.

(** An analyzer that has read a single up-sweep whose currents are all
    far beyond the default threshold of 1e-4 A. *)
Definition overflow_run : CVAnalyzer :=
  mkCVAnalyzer 10 1 empty_metadata [(0, 1); (1, 1)]%Q true.

(** An analyzer that has read two triangular sweeps ([Segment = 4]): the
    first within range, the currents of the second beyond the threshold. *)
Definition mixed_run : CVAnalyzer :=
  mkCVAnalyzer 10 1
    (mkMetadata None None None None (Some 4%nat) None None)
    [(0, 1 # 1000000); (1 # 2, 1 # 1000000); (1, 1 # 1000000);
     (1 # 2, - (1 # 1000000)); (0, - (1 # 1000000));
     (1 # 2, 1); (1, 1); (1 # 2, -1); (0, -1)]%Q
    true.

(** A cycle that starts at its highest voltage and sweeps down. *)
Definition downward_cycle : list Sample := [(1, 0); (1 # 2, 0)]%Q.

(** A cycle that sweeps up and back. *)
Definition upward_cycle : list Sample :=
  [(0, 0); (1 # 2, 1 # 1000000); (1, 0)]%Q.

(** A small export: the marker, the header, two good rows and three lines
    that are not rows. *)
Definition sample_export : string :=
  String.concat (String newline EmptyString)
    ["Cyclic Voltammetry"; "Potential/V, Current/A"; "";
     "0.0, 1.0e-6"; " 0.5 ,2e-6 "; "end of data"; "1,2,3"; "1.0, x"]%string.

(** A metadata reader that finds no key, for examples without a header
    block. *)
Definition no_metadata (content : string) (md : Metadata) : py Metadata :=
  Ret md.

(** A square root to twelve decimals, standing in for [math.sqrt] where an
    example has to be run. *)
Definition sqrt_approx (q : Q) : Q :=
  Qmake (Z.sqrt (Qnum q * 1000000000000 * 1000000000000 / Zpos (Qden q)))
    1000000000000.

(** ** Further notions used by the properties *)

(** [l1] is [l2] with some elements left out, the others in their order. *)
Inductive subseq {A : Type} : list A -> list A -> Prop :=
| subseq_nil : subseq [] []
| subseq_skip (x : A) (l1 l2 : list A) :
    subseq l1 l2 -> subseq l1 (x :: l2)
| subseq_take (x : A) (l1 l2 : list A) :
    subseq l1 l2 -> subseq (x :: l1) (x :: l2).

(** The voltage never falls, respectively never rises, from one sample to
    the next. *)
Definition never_falls (data : list Sample) : Prop :=
  Forall (fun p => (fst (fst p) <= fst (snd p))%Q) (consecutive_pairs data).

Definition never_rises (data : list Sample) : Prop :=
  Forall (fun p => (fst (snd p) <= fst (fst p))%Q) (consecutive_pairs data).

(** An analyzer that has read two triangular sweeps ([Segment = 4]) whose
    currents are all beyond the threshold. *)
Definition double_overflow_run : CVAnalyzer :=
  mkCVAnalyzer 10 1
    (mkMetadata None None None None (Some 4%nat) None None)
    [(0, 1); (1 # 2, 1); (1, 1); (1 # 2, -1); (0, -1);
     (1 # 2, 1); (1, 1); (1 # 2, -1); (0, -1)]%Q
    true.

(** An analyzer that has read one up-sweep within range, the export
    giving a scan rate of zero. *)
Definition zero_rate_run : CVAnalyzer :=
  mkCVAnalyzer 10 1
    (mkMetadata None None None (Some 0%Q) None None None)
    [(0, 0); (1 # 2, 1 # 1000000); (1, 0)]%Q
    true.

(** An analyzer that has read a single sample. *)
Definition single_sample_run : CVAnalyzer :=
  mkCVAnalyzer 10 1 empty_metadata [(0, 0)]%Q true.

(** ** The desktop front end *)

(** The loop of [CVAnalysisGUI.analyze_file] over [enumerate(cycles_data, 1)];
    the state is [(self.capacitances, self.cycle_results)]. *)
Fixpoint gui_results_loop (analyzer : CVAnalyzer) (cycle_num : nat)
    (cycles_data : list (list Sample))
    (capacitances : list Q) (cycle_results : list CycleResult)
    : py (list Q * list CycleResult) :=
  match cycles_data with
  | [] => Ret (capacitances, cycle_results)
  | cycle_data :: cycles' =>
      result <- _calculate_cycle_capacitance analyzer cycle_num cycle_data ;;
      match result with
      | Some result =>
          let cycle_results := cycle_results ++ [result] in
          if negb (is_outlier result) && Qgtb (capacitance result) 0
          then gui_results_loop analyzer (S cycle_num) cycles'
                 (capacitances ++ [capacitance result]) cycle_results
          else gui_results_loop analyzer (S cycle_num) cycles'
                 capacitances cycle_results
      | None =>
          gui_results_loop analyzer (S cycle_num) cycles'
            capacitances cycle_results
      end
  end.

(** [[r['capacitance'] for r in cycle_results if r['capacitance'] > 0]], the
    list [update_cycles_table] and [plot_data] build for the unit choice. *)
Definition positive_capacitances (cycle_results : list CycleResult) : list Q :=
  map capacitance
    (filter (fun r => Qgtb (capacitance r) 0) cycle_results).

(** [electrode_area and electrode_area > 0] for an area that is [None] or
    a float. *)
Definition area_given (electrode_area : option Q) : bool :=
  match electrode_area with
  | Some a => negb (Qeq_bool a 0) && Qgtb a 0
  | None => false
  end.

(** [min(l)] and [max(l)] of a list: [ValueError] when it is empty. *)
Definition py_min_list (l : list Q) : py Q :=
  match l with
  | [] => Raise ValueError
  | x :: l' => Ret (py_min x l')
  end.

Definition py_max_list (l : list Q) : py Q :=
  match l with
  | [] => Raise ValueError
  | x :: l' => Ret (py_max x l')
  end.

(** [[cap / d for cap in l]] *)
Fixpoint div_all (l : list Q) (d : Q) : py (list Q) :=
  match l with
  | [] => Ret []
  | cap :: l' =>
      q <- py_div cap d ;;
      rest <- div_all l' d ;;
      Ret (q :: rest)
  end.

(** The chain of thresholds both branches of [get_capacitance_unit] end
    with: unit, factor from farad, display name. *)
Definition unit_for (min_nF : Q) : string * Q * string :=
  if Qgtb min_nF (1000 * 1000) then ("mF"%string, 1000%Q, "mF"%string)
  else if Qgtb min_nF 1000 then ("µF"%string, 1000000%Q, "µF"%string)
  else ("nF"%string, 1000000000%Q, "nF"%string).

(** [data_display.get_capacitance_unit] *)
Definition get_capacitance_unit (cycle_results : list CycleResult)
    (capacitances : list Q) (analyzer : CVAnalyzer)
    (electrode_area : option Q) (use_specific : bool)
    : py (string * Q * string) :=
  match capacitances with
  | [] => Ret ("nF"%string, 1000000000%Q, "nF"%string)
  | _ :: _ =>
      let valid_capacitances := _get_valid_capacitances cycle_results in
      let valid_capacitances :=
        match valid_capacitances with
        | [] => capacitances
        | _ :: _ => valid_capacitances
        end in
      let raw :=
        min_cap <- py_min_list valid_capacitances ;;
        Ret (unit_for (min_cap * 1000000000)%Q) in
      match electrode_area with
      | Some a =>
          if use_specific && area_given electrode_area then
            specific_capacitances <- div_all valid_capacitances a ;;
            min_specific <- py_min_list specific_capacitances ;;
            Ret (unit_for (min_specific * 1000000000)%Q)
          else raw
      | None => raw
      end
  end.

(** The figures [update_result_text] puts below the cycle counts. *)
Record AreaFigures : Type := mkAreaFigures {
  specific_cap : Q;
  min_specific : Q;
  max_specific : Q;
  std_specific : Q
}.

Inductive Figures : Type :=
| SeveralCycles (avg_cap min_cap max_cap std_cap variation : Q)
    (per_area : option AreaFigures)
| SingleCycle (cap : Q) (per_area : option Q)
| NoValidCycle.

(** The numbers of the text [update_result_text] sets, the formatting and
    the metadata lines left out. *)
Record ResultText : Type := mkResultText {
  total_cycles : nat;
  shown_valid_cycles : nat;
  excluded_cycles : Z;
  excluded_outliers : Z;
  figures : Figures
}.

Section Display.

Variable sqrt : Q -> Q.

(** [data_display.update_result_text] *)
Definition update_result_text (cycle_results : list CycleResult)
    (analyzer : CVAnalyzer) (electrode_area : option Q) : py ResultText :=
  let valid_capacitances := _get_valid_capacitances cycle_results in
  let total_cycles := length cycle_results in
  let valid_cycles := length valid_capacitances in
  let excluded_cycles := (Z.of_nat total_cycles - Z.of_nat valid_cycles)%Z in
  let text := mkResultText total_cycles valid_cycles excluded_cycles
                (outlier_count analyzer) in
  if (1 <? length valid_capacitances)%nat then
    avg_capacitance <- _calculate_robust_average sqrt analyzer valid_capacitances ;;
    match electrode_area with
    | Some a =>
        if area_given electrode_area then
          specific_cap <- py_div avg_capacitance a ;;
          lo <- py_min_list valid_capacitances ;;
          min_specific <- py_div lo a ;;
          hi <- py_max_list valid_capacitances ;;
          max_specific <- py_div hi a ;;
          std_dev <- (if (1 <? length valid_capacitances)%nat
                      then stdev sqrt valid_capacitances else Ret 0%Q) ;;
          std_specific <- py_div std_dev a ;;
          ratio <- py_div std_dev avg_capacitance ;;
          Ret (text (SeveralCycles avg_capacitance lo hi std_dev (ratio * 100)%Q
                       (Some (mkAreaFigures specific_cap min_specific
                                max_specific std_specific))))
        else
          lo <- py_min_list valid_capacitances ;;
          hi <- py_max_list valid_capacitances ;;
          std_dev <- (if (1 <? length valid_capacitances)%nat
                      then stdev sqrt valid_capacitances else Ret 0%Q) ;;
          ratio <- py_div std_dev avg_capacitance ;;
          Ret (text (SeveralCycles avg_capacitance lo hi std_dev (ratio * 100)%Q
                       None))
    | None =>
        lo <- py_min_list valid_capacitances ;;
        hi <- py_max_list valid_capacitances ;;
        std_dev <- (if (1 <? length valid_capacitances)%nat
                    then stdev sqrt valid_capacitances else Ret 0%Q) ;;
        ratio <- py_div std_dev avg_capacitance ;;
        Ret (text (SeveralCycles avg_capacitance lo hi std_dev (ratio * 100)%Q
                     None))
    end
  else
    match valid_capacitances with
    | [c] =>
        match electrode_area with
        | Some a =>
            if area_given electrode_area then
              specific_cap <- py_div c a ;;
              Ret (text (SingleCycle c (Some specific_cap)))
            else Ret (text (SingleCycle c None))
        | None => Ret (text (SingleCycle c None))
        end
    | _ => Ret (text NoValidCycle)
    end.

End Display.

Open Scope string_scope.

(** ** Reading the metadata *)

(** The regular expressions of [_parse_metadata] all have the shape
    [KEY\s*=\s*(CLASS+)] with a literal key.  The key, the equals sign and
    the classes share no character with [\s], so a match at a position is
    found without backtracking: the key, the blanks, [=], the blanks, and
    the longest run of class characters, which must not be empty. *)

(** [\d], [[-\d.]] and [[\d.e-]] on ASCII text. *)
Definition is_digit (c : ascii) : bool :=
  let n := nat_of_ascii c in ((48 <=? n) && (n <=? 57))%nat.

Definition signed_class (c : ascii) : bool :=
  Ascii.eqb c "-" || is_digit c || Ascii.eqb c ".".

Definition sci_class (c : ascii) : bool :=
  is_digit c || Ascii.eqb c "." || Ascii.eqb c "e" || Ascii.eqb c "-".

(** [s] without the prefix [key], if it starts with it. *)
Fixpoint strip_prefix (key s : string) : option string :=
  match key, s with
  | EmptyString, _ => Some s
  | String k key', String c s' =>
      if Ascii.eqb k c then strip_prefix key' s' else None
  | String _ _, EmptyString => None
  end.

(** The longest prefix of [s] made of characters of the class. *)
Fixpoint take_while (class : ascii -> bool) (s : string) : string :=
  match s with
  | EmptyString => EmptyString
  | String c s' =>
      if class c then String c (take_while class s') else EmptyString
  end.

(** A match of [KEY\s*=\s*(CLASS+)] at the start of [s]: group 1. *)
Definition match_here (key : string) (class : ascii -> bool) (s : string)
    : option string :=
  match strip_prefix key s with
  | None => None
  | Some s1 =>
      match lstrip s1 with
      | String "="%char s2 =>
          match take_while class (lstrip s2) with
          | EmptyString => None
          | group => Some group
          end
      | _ => None
      end
  end.

(** [re.search(pattern, s)]: the match at the leftmost position that has
    one; group 1 of it. *)
Fixpoint re_search (key : string) (class : ascii -> bool) (s : string)
    : option string :=
  match match_here key class s with
  | Some group => Some group
  | None =>
      match s with
      | EmptyString => None
      | String _ s' => re_search key class s'
      end
  end.

(** The value of a string of ASCII digits. *)
Definition int_of_digits (s : string) : nat :=
  (fix go (s : string) (acc : nat) : nat :=
     match s with
     | EmptyString => acc
     | String c s' => go s' (acc * 10 + (nat_of_ascii c - 48))%nat
     end) s 0%nat.

(** [int(s)] on a string of ASCII digits: the interpreter refuses an
    integer string of more digits than its limit (4300 unless it is
    reconfigured) with [ValueError]. *)
Definition int_max_str_digits : nat := 4300.

Definition py_int (s : string) : py nat :=
  if (int_max_str_digits <? String.length s)%nat then Raise ValueError
  else Ret (int_of_digits s).

Section Metadata.

(** [float(s)]: [None] stands for [ValueError]. *)
Variable float : string -> option Q.

(** One of the six blocks that read a float: the new value of the field. *)
Definition float_field (key : string) (class : ascii -> bool) (line : string)
    (old : option Q) : py (option Q) :=
  if contains key line then
    match re_search key class line with
    | Some group =>
        match float group with
        | Some x => Ret (Some x)
        | None => Raise ValueError
        end
    | None => Ret old
    end
  else Ret old.

(** The block that reads [Segment]. *)
Definition segment_field (line : string) (old : option nat)
    : py (option nat) :=
  if contains "Segment" line && contains "=" line then
    match re_search "Segment" is_digit line with
    | Some group => n <- py_int group ;; Ret (Some n)
    | None => Ret old
    end
  else Ret old.

(** The body of the loop over [lines[:50]]. *)
Definition metadata_line (line : string) (md : Metadata) : py Metadata :=
  init_e' <- float_field "Init E (V)" signed_class line (init_e md) ;;
  high_e' <- float_field "High E (V)" signed_class line (high_e md) ;;
  low_e' <- float_field "Low E (V)" signed_class line (low_e md) ;;
  scan_rate' <- float_field "Scan Rate (V/s)" sci_class line (scan_rate md) ;;
  segment' <- segment_field line (segment md) ;;
  sample_interval' <-
    float_field "Sample Interval (V)" sci_class line (sample_interval md) ;;
  sensitivity' <-
    float_field "Sensitivity (A/V)" sci_class line (sensitivity md) ;;
  Ret (mkMetadata init_e' high_e' low_e' scan_rate' segment'
         sample_interval' sensitivity').

Fixpoint metadata_loop (lines : list string) (md : Metadata) : py Metadata :=
  match lines with
  | [] => Ret md
  | line :: lines' =>
      md' <- metadata_line line md ;;
      metadata_loop lines' md'
  end.

Definition _parse_metadata (content : string) (md : Metadata) : py Metadata :=
  metadata_loop (firstn 50 (split newline content)) md.

End Metadata.

Close Scope string_scope.

Open Scope string_scope.

(** Every character of [s] satisfies [p]. *)
Fixpoint all_chars (p : ascii -> bool) (s : string) : bool :=
  match s with
  | EmptyString => true
  | String c s' => p c && all_chars p s'
  end.

(** [s] is empty or starts with a character outside the class. *)
Definition ends_class (class : ascii -> bool) (s : string) : bool :=
  match s with
  | EmptyString => true
  | String c _ => negb (class c)
  end.


(** The line has a [Segment] entry with more digits than [int] takes. *)
Definition bad_segment (line : string) : bool :=
  contains "Segment" line && contains "=" line
  && match re_search "Segment" is_digit line with
     | Some group => (int_max_str_digits <? String.length group)%nat
     | None => false
     end.


Close Scope string_scope.

(** ** The command line *)

Section CommandLine.

Variable float : string -> option Q.
Variable sqrt : Q -> Q.

(** The files: the text behind a path, if it can be read. *)
Variable file_system : string -> option string.

(** [main]: the exit status, 1 for [sys.exit(1)] and 0 when the function
    returns; [argv] is [sys.argv]. *)
Definition main (argv : list string) : py nat :=
  if (length argv <? 2)%nat then Ret 1%nat
  else
    let file_path := nth 1 argv EmptyString in
    let analyzer := __init__ 10 1 in
    '(ok, analyzer) <-
       read_file float (_parse_metadata float) (file_system file_path)
         analyzer ;;
    if negb ok then Ret 1%nat
    else
      outcome <- analyze sqrt analyzer ;;
      match outcome with
      | Analyzed _ => Ret 0%nat
      | _ => Ret 1%nat
      end.

End CommandLine.

Section Plot.

Variable sqrt : Q -> Q.

(** The average and the standard deviation [plot_manager.plot_data] writes
    into the figure. *)
Definition plot_average (cycle_results : list CycleResult)
    (analyzer : CVAnalyzer) : py (Q * Q) :=
  let valid_capacitances := _get_valid_capacitances cycle_results in
  let capacitances := positive_capacitances cycle_results in
  if (1 <? length valid_capacitances)%nat then
    avg_cap <- _calculate_robust_average sqrt analyzer valid_capacitances ;;
    std_dev <- stdev sqrt valid_capacitances ;;
    Ret (avg_cap, std_dev)
  else
    match valid_capacitances with
    | [c] => Ret (c, 0%Q)
    | _ =>
        match capacitances with
        | c :: _ => Ret (c, 0%Q)
        | [] => Ret (0%Q, 0%Q)
        end
    end.

End Plot.

(** ** The robust average over the interpreter's arithmetic *)

(** Which values the robust average drops is decided by comparisons of
    quotients, where rounding makes and breaks ties: on [[0.3, 0.1]] the
    two distances from the mean are equal as rationals and differ as
    doubles.  This module embeds [_calculate_robust_average] once more,
    with the arithmetic left open: a type of numbers with the operations
    the method uses, of which the exact rationals above are one instance
    and the interpreter's doubles another. *)
Module AnyArithmetic.

Class Arithmetic : Type := {
  (** [float] *)
  num : Type;
  (** [a - b] *)
  float_sub : num -> num -> num;
  (** [abs(a)] *)
  float_abs : num -> num;
  (** [a / b] for a divisor that is not zero *)
  float_quot : num -> num -> num;
  (** [a == 0] *)
  float_is_zero : num -> bool;
  (** [a < b], the comparison [list.sort] orders by *)
  float_lt : num -> num -> bool;
  (** the [int] 0 *)
  int_zero : num;
  (** [statistics.mean] of a non-empty list *)
  statistics_mean : list num -> num;
  (** [statistics.stdev] of two values or more *)
  statistics_stdev : list num -> num
}.

Section RobustAverage.

Context {arith : Arithmetic}.

(** [a / b] *)
Definition py_div (a b : num) : py num :=
  if float_is_zero b then Raise ZeroDivisionError else Ret (float_quot a b).

(** [statistics.mean] *)
Definition mean (values : list num) : py num :=
  match values with
  | [] => Raise StatisticsError
  | _ => Ret (statistics_mean values)
  end.

(** [statistics.stdev] *)
Definition stdev (values : list num) : py num :=
  if (length values <? 2)%nat then Raise StatisticsError
  else Ret (statistics_stdev values).

(** [[(abs(v - mean) / stdev, v) for v in values]] *)
Fixpoint z_scores_of (mean stdev : num) (values : list num)
    : py (list (num * num)) :=
  match values with
  | [] => Ret []
  | v :: values' =>
      z <- py_div (float_abs (float_sub v mean)) stdev ;;
      rest <- z_scores_of mean stdev values' ;;
      Ret ((z, v) :: rest)
  end.

(** [l.sort(reverse=True, key=lambda x: x[0])]: the sort is stable, also
    under [reverse=True]; entries neither of whose keys is less than the
    other's keep their order. *)
Fixpoint insert_desc (x : num * num) (l : list (num * num))
    : list (num * num) :=
  match l with
  | [] => [x]
  | y :: l' =>
      if float_lt (fst x) (fst y) then y :: insert_desc x l' else x :: l
  end.

Definition sort_reverse (l : list (num * num)) : list (num * num) :=
  fold_right insert_desc [] l.

Definition _calculate_robust_average (self : CVAnalyzer) (values : list num)
    : py num :=
  if (Z.of_nat (length values) <=? outlier_count self)%Z then mean values
  else
    mean_ <- mean values ;;
    stdev_ <- (if (1 <? length values)%nat then stdev values
               else Ret int_zero) ;;
    if float_is_zero stdev_ then Ret mean_
    else
      z_scores <- z_scores_of mean_ stdev_ values ;;
      let z_scores := sort_reverse z_scores in
      let remaining := map snd (py_slice_from (outlier_count self) z_scores) in
      match remaining with
      | [] => Ret mean_
      | _ => mean remaining
      end.

(** *** What the specification says of it *)

(** Each value tagged with its z-score [|value - mean| / stdev]. *)
Definition spec_z_scores (m s : num) (values : list num)
    : list (num * num) :=
  map (fun v => (float_quot (float_abs (float_sub v m)) s, v)) values.

(** Two z-scores are equal for the sort: neither is less than the other. *)
Definition tied (a b : num) : bool :=
  negb (float_lt a b) && negb (float_lt b a).

(** [sorted] is [l] in descending order of z-score (no entry has a smaller
    z-score than a later one), entries of tied z-scores in the order they
    have in [l]. *)
Definition stable_descending (l sorted : list (num * num)) : Prop :=
  Permutation sorted l
  /\ StronglySorted (fun x y => float_lt (fst x) (fst y) = false) sorted
  /\ forall k, In k (map fst l) ->
       filter (fun x => tied (fst x) k) sorted
       = filter (fun x => tied (fst x) k) l.

(** [<] orders the keys: it is asymmetric, and a key that is not less than
    a second, itself not less than a third, is not less than the third.
    Doubles none of which is a NaN are ordered so. *)
Definition ordered (keys : list num) : Prop :=
  (forall a b, In a keys -> In b keys ->
     float_lt a b = true -> float_lt b a = false)
  /\ (forall a b c, In a keys -> In b keys -> In c keys ->
        float_lt a b = false -> float_lt b c = false -> float_lt a c = false).

End RobustAverage.

(** *** Two arithmetics *)

(** The exact rationals, with [math.sqrt] given. *)
Definition exact (sqrt : Q -> Q) : Arithmetic := {|
  num := Q;
  float_sub := Qminus;
  float_abs := Qabs;
  float_quot := Qdiv;
  float_is_zero := fun a => Qeq_bool a 0;
  float_lt := Qltb;
  int_zero := 0%Q;
  statistics_mean := spec_mean;
  statistics_stdev := spec_stdev sqrt
|}.

(** The nearest integer, halves to the even neighbour. *)
Definition round_half_even (x : Q) : Z :=
  let f := Qfloor x in
  match ((x - inject_Z f) ?= 1 # 2)%Q with
  | Lt => f
  | Gt => (f + 1)%Z
  | Eq => if Z.even f then f else (f + 1)%Z
  end.

(** The double nearest to a rational, halves to the even neighbour: what
    an operation on doubles returns for its exact result [q].  A double
    is an integer below [2 ^ 53] times a power of two; the range of the
    exponent is not bounded here (no overflow, no subnormal numbers). *)
Definition round53 (q : Q) : Q :=
  if Qeq_bool q 0 then 0%Q
  else
    let a := Qabs q in
    let e0 := (Z.log2 (Qnum a) - Z.log2 (Zpos (Qden a)) - 52)%Z in
    let e := if Qle_bool (inject_Z (2 ^ 53)) (a / 2 ^ e0)%Q then (e0 + 1)%Z
             else if Qltb (a / 2 ^ e0)%Q (inject_Z (2 ^ 52)) then (e0 - 1)%Z
             else e0 in
    let r := inject_Z (round_half_even (a / 2 ^ e)) in
    Qred (if Qltb q 0 then - (r * 2 ^ e) else r * 2 ^ e)%Q.

(** The double nearest to the square root of a rational. *)
Definition sqrt53 (q : Q) : Q :=
  if Qle_bool q 0 then 0%Q
  else
    let e0 := ((Z.log2 (Qnum q) - Z.log2 (Zpos (Qden q)) - 105) / 2)%Z in
    let root e := Z.sqrt (Qfloor (q / 2 ^ (2 * e))) in
    let e := if (2 ^ 53 <=? root e0)%Z then (e0 + 1)%Z
             else if (root e0 <? 2 ^ 52)%Z then (e0 - 1)%Z
             else e0 in
    let f := root e in
    let half := (inject_Z f + (1 # 2))%Q in
    let r := match (q / 2 ^ (2 * e) ?= half * half)%Q with
             | Lt => f
             | Gt => (f + 1)%Z
             | Eq => if Z.even f then f else (f + 1)%Z
             end in
    Qred (inject_Z r * 2 ^ e)%Q.

(** Doubles, as the rationals they stand for.  [statistics.mean] takes the
    exact mean of its data and rounds it once, and [statistics.stdev] (as
    of Python 3.11) rounds the square root of the exact sample variance
    once. *)
Definition binary64 : Arithmetic := {|
  num := Q;
  float_sub := fun a b => round53 (a - b);
  float_abs := Qabs;
  float_quot := fun a b => round53 (a / b);
  float_is_zero := fun a => Qeq_bool a 0;
  float_lt := Qltb;
  int_zero := 0%Q;
  statistics_mean := fun values => round53 (spec_mean values);
  statistics_stdev := spec_stdev sqrt53
|}.

End AnyArithmetic.

(** * Properties *)

(** ** Comparisons *)

Lemma Qltb_lt (a b : Q) : Qltb a b = true <-> (a < b)%Q.
Proof.
  unfold Qltb. rewrite negb_true_iff. split.
  - intros H. apply Qnot_le_lt. intros Hle.
    apply Qle_bool_iff in Hle. congruence.
  - intros H. destruct (Qle_bool b a) eqn:E; [|reflexivity].
    apply Qle_bool_iff in E. exfalso. apply (Qlt_not_le _ _ H E).
Qed.

Lemma Qltb_ge (a b : Q) : Qltb a b = false <-> (b <= a)%Q.
Proof.
  unfold Qltb. rewrite negb_false_iff. apply Qle_bool_iff.
Qed.

Lemma Qltb_irrefl (a : Q) : Qltb a a = false.
Proof. apply Qltb_ge. apply Qle_refl. Qed.

Lemma Qeq_bool_sym (a b : Q) : Qeq_bool a b = Qeq_bool b a.
Proof.
  destruct (Qeq_bool a b) eqn:E1, (Qeq_bool b a) eqn:E2; try reflexivity.
  - apply Qeq_bool_iff in E1. symmetry in E1. apply Qeq_bool_iff in E1. congruence.
  - apply Qeq_bool_iff in E2. symmetry in E2. apply Qeq_bool_iff in E2. congruence.
Qed.

Lemma Qeq_bool_trans_l (a b c : Q) :
  Qeq_bool a b = true -> Qeq_bool a c = Qeq_bool b c.
Proof.
  intros H. apply Qeq_bool_iff in H.
  destruct (Qeq_bool a c) eqn:E1, (Qeq_bool b c) eqn:E2; try reflexivity.
  - apply Qeq_bool_iff in E1. assert (b == c)%Q by (rewrite <- H; exact E1).
    apply Qeq_bool_iff in H0. congruence.
  - apply Qeq_bool_iff in E2. assert (a == c)%Q by (rewrite H; exact E2).
    apply Qeq_bool_iff in H0. congruence.
Qed.

(** ** Overflow check *)

Lemma has_overflow_true (self : CVAnalyzer) (cycle_data : list Sample) :
  has_overflow (threshold self) cycle_data = true <-> overflows self cycle_data.
Proof.
  unfold has_overflow, overflows. rewrite existsb_exists. split.
  - intros [c [Hin Hc]]. apply in_map_iff in Hin. destruct Hin as [s [Hs Hin]].
    exists s. split; [exact Hin|]. subst c. apply Qltb_lt. exact Hc.
  - intros [s [Hin Hs]]. exists (Qabs (snd s)). split.
    + apply in_map_iff. exists s. split; [reflexivity | exact Hin].
    + apply Qltb_lt. exact Hs.
Qed.

Lemma has_overflow_false (self : CVAnalyzer) (cycle_data : list Sample) :
  has_overflow (threshold self) cycle_data = false <-> ~ overflows self cycle_data.
Proof.
  rewrite <- has_overflow_true. destruct (has_overflow _ _); split; intros; congruence.
Qed.

Lemma overflow_result (self : CVAnalyzer) (n : nat) (cycle_data : list Sample) :
  (2 <= length cycle_data)%nat ->
  overflows self cycle_data ->
  _calculate_cycle_capacitance self n cycle_data =
    Ret (Some (mkCycleResult n 0 0 true (Some current_overflow)
                 (Some (overflow_warning (sensitivity_threshold_factor self))))).
Proof.
  intros Hlen Hov. unfold _calculate_cycle_capacitance.
  destruct (length cycle_data <? 2)%nat eqn:E.
  - apply Nat.ltb_lt in E. lia.
  - apply has_overflow_true in Hov. rewrite Hov. reflexivity.
Qed.





(** With a sensitivity of 1e-6 in the export the threshold is 1e-5: a
    current of 5e-5, below the default threshold of 1e-4, is flagged. *)
Example export_sensitivity_sets_threshold :
  let self :=
    mkCVAnalyzer 10 1
      (mkMetadata None None None None None None (Some (1 # 1000000)))
      [] true in
  let cycle := [(0, 5 # 100000); (1, 0)]%Q in
  spec_overflows self cycle
  /\ ~ spec_overflows default_analyzer cycle
  /\ (exists r, _calculate_cycle_capacitance self 1 cycle = Ret (Some r)
                /\ is_outlier r = true)
  /\ (exists r, _calculate_cycle_capacitance default_analyzer 1 cycle
                = Ret (Some r)
                /\ is_outlier r = false).
Proof.
  cbv zeta. split; [|split; [|split]].
  - exists (0, 5 # 100000)%Q. split; [left; reflexivity | reflexivity].
  - intros [s [[<-|[<-|[]]] H]]; vm_compute in H; discriminate.
  - eexists. split; [vm_compute; reflexivity | reflexivity].
  - eexists. split; [vm_compute; reflexivity | reflexivity].
Qed.

(** ** Forward/reverse split *)

Lemma max_voltage_loop_first_max (rest pre : list Sample) (mi : nat) (mv : Q) :
  (mi < length pre)%nat ->
  fst (nth mi pre (0, 0)%Q) = mv ->
  (forall j, (j < length pre)%nat -> (fst (nth j pre (0, 0)) <= mv)%Q) ->
  (forall j, (j < mi)%nat -> (fst (nth j pre (0, 0)) < mv)%Q) ->
  first_max_index (max_voltage_loop (length pre) mi mv rest) (pre ++ rest).
Proof.
  revert pre mi mv. induction rest as [|[v c] rest IH]; intros pre mi mv Hmi Hmv Hle Hlt.
  - simpl. rewrite app_nil_r. subst mv. repeat split; auto.
  - assert (Hlen : S (length pre) = length (pre ++ [(v, c)]))
      by (rewrite length_app; simpl; lia).
    assert (Happ : pre ++ (v, c) :: rest = (pre ++ [(v, c)]) ++ rest)
      by (rewrite <- app_assoc; reflexivity).
    rewrite Happ. cbn [max_voltage_loop]. rewrite Hlen.
    destruct (Qgtb v mv) eqn:E.
    + apply Qltb_lt in E. apply IH.
      * rewrite length_app. simpl. lia.
      * rewrite app_nth2 by lia. rewrite Nat.sub_diag. reflexivity.
      * intros j Hj. rewrite length_app in Hj. simpl in Hj.
        destruct (Nat.eq_dec j (length pre)) as [->|Hne].
        -- rewrite app_nth2 by lia. rewrite Nat.sub_diag. simpl. apply Qle_refl.
        -- rewrite app_nth1 by lia. apply Qle_trans with mv.
           ++ apply Hle. lia.
           ++ apply Qlt_le_weak. exact E.
      * intros j Hj. rewrite app_nth1 by lia.
        apply Qle_lt_trans with mv; [apply Hle; lia | exact E].
    + apply Qltb_ge in E. apply IH.
      * rewrite length_app. simpl. lia.
      * rewrite app_nth1 by lia. exact Hmv.
      * intros j Hj. rewrite length_app in Hj. simpl in Hj.
        destruct (Nat.eq_dec j (length pre)) as [->|Hne].
        -- rewrite app_nth2 by lia. rewrite Nat.sub_diag. simpl. exact E.
        -- rewrite app_nth1 by lia. apply Hle. lia.
      * intros j Hj. rewrite app_nth1 by lia. apply Hlt. exact Hj.
Qed.

Lemma split_forward_reverse_at_first_max (cycle_data : list Sample) :
  (2 <= length cycle_data)%nat ->
  exists k,
    first_max_index k cycle_data /\
    _split_forward_reverse cycle_data =
      (firstn (k + 1) cycle_data, skipn k cycle_data).
Proof.
  intros Hlen. unfold _split_forward_reverse.
  destruct (length cycle_data <? 2)%nat eqn:E; [apply Nat.ltb_lt in E; lia|].
  destruct cycle_data as [|[v0 c0] rest]; [simpl in Hlen; lia|].
  exists (max_voltage_loop 0 0 v0 ((v0, c0) :: rest)). split; [|reflexivity].
  simpl. unfold Qgtb. rewrite Qltb_irrefl.
  apply (max_voltage_loop_first_max rest [(v0, c0)] 0%nat v0).
  - simpl. lia.
  - reflexivity.
  - intros j Hj. simpl in Hj. assert (j = 0)%nat by lia. subst j. simpl. apply Qle_refl.
  - intros j Hj. lia.
Qed.

(** ** Loop area *)

Lemma dict_get_set (k v k' : Q) (d : PyDict) :
  dict_get k' (dict_set k v d) =
    if Qeq_bool k k' then Some v else dict_get k' d.
Proof.
  induction d as [|[k0 v0] d IH]; simpl.
  - reflexivity.
  - destruct (Qeq_bool k0 k) eqn:E0; simpl.
    + rewrite (Qeq_bool_trans_l _ _ k' E0).
      destruct (Qeq_bool k k'); reflexivity.
    + rewrite IH. destruct (Qeq_bool k0 k') eqn:E1; [|reflexivity].
      destruct (Qeq_bool k k') eqn:E2; [|reflexivity].
      exfalso. rewrite (Qeq_bool_trans_l _ _ k E1) in E0.
      rewrite Qeq_bool_sym in E0. congruence.
Qed.

Lemma find_app {A : Type} (f : A -> bool) (l1 l2 : list A) :
  find f (l1 ++ l2) =
    match find f l1 with
    | Some x => Some x
    | None => find f l2
    end.
Proof.
  induction l1 as [|a l1 IH]; simpl; [reflexivity|].
  destruct (f a); [reflexivity | exact IH].
Qed.

Lemma dict_get_fold (k : Q) (l : list Sample) (d : PyDict) :
  dict_get k (fold_left (fun d s => dict_set (py_round6 (fst s)) (snd s) d) l d) =
    match find (fun s => Qeq_bool (py_round6 (fst s)) k) (rev l) with
    | Some s => Some (snd s)
    | None => dict_get k d
    end.
Proof.
  revert d. induction l as [|s l IH]; intros d; simpl.
  - reflexivity.
  - rewrite IH. rewrite find_app.
    destruct (find _ (rev l)); [reflexivity|]. simpl.
    rewrite dict_get_set. destruct (Qeq_bool _ k); reflexivity.
Qed.

Lemma reverse_dict_lookup (reverse_scan : list Sample) (v : Q) :
  dict_get (py_round6 v) (reverse_dict_of reverse_scan) =
    spec_reverse_current reverse_scan v.
Proof.
  unfold reverse_dict_of, spec_reverse_current. rewrite dict_get_fold.
  destruct (find _ _); reflexivity.
Qed.

Lemma area_loop_step (d : PyDict) (v1 i1 v2 i2 : Q) (rest : list Sample)
    (acc : Q) :
  area_loop d ((v1, i1) :: (v2, i2) :: rest) acc =
    match dict_get (py_round6 v1) d, dict_get (py_round6 v2) d with
    | Some ir1, Some ir2 =>
        area_loop d ((v2, i2) :: rest)
          (acc + ((i1 - ir1) + (i2 - ir2)) / 2 * Qabs (v2 - v1))%Q
    | _, _ => area_loop d ((v2, i2) :: rest) acc
    end.
Proof. reflexivity. Qed.

Lemma area_loop_sum (reverse_scan forward_scan : list Sample) (acc : Q) :
  area_loop (reverse_dict_of reverse_scan) forward_scan acc =
    fold_left Qplus
      (flat_map (spec_pair_term reverse_scan) (consecutive_pairs forward_scan))
      acc.
Proof.
  revert acc. induction forward_scan as [|[v1 i1] rest IH]; intros acc.
  - reflexivity.
  - destruct rest as [|[v2 i2] rest'].
    + reflexivity.
    + change (consecutive_pairs ((v1, i1) :: (v2, i2) :: rest'))
        with (((v1, i1), (v2, i2)) :: consecutive_pairs ((v2, i2) :: rest')).
      cbn [flat_map]. rewrite fold_left_app.
      rewrite area_loop_step, !reverse_dict_lookup.
      unfold spec_pair_term at 2.
      destruct (spec_reverse_current reverse_scan v1) as [ir1|];
        destruct (spec_reverse_current reverse_scan v2) as [ir2|];
        cbn [fold_left]; apply IH.
Qed.

Lemma calculate_area_spec (forward_scan reverse_scan : list Sample) :
  _calculate_area forward_scan reverse_scan =
    spec_loop_area forward_scan reverse_scan.
Proof.
  unfold _calculate_area, spec_loop_area, py_sum. rewrite area_loop_sum. reflexivity.
Qed.

Lemma reverse_current_keys (reverse_scan : list Sample) (v : Q) :
  spec_reverse_current reverse_scan v <> None <->
  exists s, In s reverse_scan /\ (py_round6 (fst s) == py_round6 v)%Q.
Proof.
  unfold spec_reverse_current. split.
  - destruct (find _ _) as [s|] eqn:E; [|intros H; exfalso; apply H; reflexivity].
    intros _. apply find_some in E. destruct E as [Hin Heq].
    exists s. split; [apply in_rev; exact Hin | apply Qeq_bool_iff; exact Heq].
  - intros [s [Hin Heq]]. destruct (find _ _) as [s'|] eqn:E; [discriminate|].
    exfalso. apply in_rev in Hin.
    pose proof (find_none _ _ E s Hin) as Hn. simpl in Hn.
    apply Qeq_bool_iff in Heq. congruence.
Qed.

Lemma split_nonempty (cycle_data : list Sample) :
  (2 <= length cycle_data)%nat ->
  exists f fs r rs, _split_forward_reverse cycle_data = (f :: fs, r :: rs).
Proof.
  intros Hlen. destruct (split_forward_reverse_at_first_max cycle_data Hlen)
    as [k [[Hk _] Heq]].
  rewrite Heq.
  destruct cycle_data as [|s0 rest]; [simpl in Hlen; lia|].
  replace (k + 1)%nat with (S k) by lia. cbn [firstn].
  destruct (skipn k (s0 :: rest)) as [|r rs] eqn:E.
  - apply (f_equal (@length _)) in E. rewrite length_skipn in E.
    simpl length in E, Hk. lia.
  - eauto.
Qed.

(** On a cycle of two or more samples without overflow the calculator
    goes through to the division. *)
Lemma calculate_normal_path (self : CVAnalyzer) (n : nat)
    (cycle_data forward_scan reverse_scan : list Sample) :
  (2 <= length cycle_data)%nat ->
  ~ overflows self cycle_data ->
  _split_forward_reverse cycle_data = (forward_scan, reverse_scan) ->
  _calculate_cycle_capacitance self n cycle_data =
    let area := _calculate_area forward_scan reverse_scan in
    let scan_rate := get (scan_rate (metadata self)) (1 # 100) in
    if Qeq_bool scan_rate 0 then Ret None
    else
      capacitance <- py_div area (2 * scan_rate * voltage_range forward_scan)%Q ;;
      Ret (Some (mkCycleResult n area capacitance false None None)).
Proof.
  intros Hlen Hno Hsplit. unfold _calculate_cycle_capacitance.
  destruct (length cycle_data <? 2)%nat eqn:E; [apply Nat.ltb_lt in E; lia|].
  apply has_overflow_false in Hno. rewrite Hno.
  destruct (split_nonempty cycle_data Hlen) as [f [fs [r [rs Heq]]]].
  rewrite Hsplit in Heq. injection Heq as -> ->.
  rewrite Hsplit. reflexivity.
Qed.

(** Claim C5.  Without a [scan_rate] entry the calculator behaves exactly
    as with [scan_rate = 0.01]: the cycle is skipped only if it has fewer
    than two samples, and a cycle of two or more samples without overflow
    and with a forward voltage range other than zero gets the normal
    result, its capacitance being [area / (2 * 0.01 * voltage_range)]. *)
Theorem missing_scan_rate_default (self : CVAnalyzer) (n : nat)
    (cycle_data : list Sample) :
  scan_rate (metadata self) = None ->
  _calculate_cycle_capacitance self n cycle_data =
    _calculate_cycle_capacitance
      (set_metadata (set_scan_rate (1 # 100) (metadata self)) self) n cycle_data
  /\ (_calculate_cycle_capacitance self n cycle_data = Ret None ->
      (length cycle_data < 2)%nat)
  /\ (forall forward_scan reverse_scan,
        (2 <= length cycle_data)%nat ->
        ~ overflows self cycle_data ->
        _split_forward_reverse cycle_data = (forward_scan, reverse_scan) ->
        ~ (voltage_range forward_scan == 0)%Q ->
        _calculate_cycle_capacitance self n cycle_data =
          Ret (Some (mkCycleResult n
                       (_calculate_area forward_scan reverse_scan)
                       (_calculate_area forward_scan reverse_scan
                          / (2 * (1 # 100) * voltage_range forward_scan))%Q
                       false None None))).
Proof.
  intros Hnone. split; [|split].
  - unfold _calculate_cycle_capacitance, threshold. simpl. rewrite Hnone. reflexivity.
  - intros Hres. destruct (le_lt_dec 2 (length cycle_data)) as [Hlen|Hlen]; [|exact Hlen].
    exfalso. revert Hres. unfold _calculate_cycle_capacitance.
    destruct (length cycle_data <? 2)%nat eqn:E; [apply Nat.ltb_lt in E; lia|].
    destruct (has_overflow _ _); [discriminate|].
    destruct (split_nonempty cycle_data Hlen) as [f [fs [r [rs Heq]]]]. rewrite Heq.
    rewrite Hnone. simpl get.
    change (Qeq_bool (1 # 100) 0) with false. cbv iota.
    destruct (py_div _ _); simpl; discriminate.
  - intros forward_scan reverse_scan Hlen Hno Hsplit Hrange.
    rewrite (calculate_normal_path self n _ _ _ Hlen Hno Hsplit).
    rewrite Hnone. simpl get. cbv zeta.
    change (Qeq_bool (1 # 100) 0) with false. cbv iota.
    unfold py_div.
    destruct (Qeq_bool (2 * (1 # 100) * voltage_range forward_scan) 0) eqn:E.
    + exfalso. apply Qeq_bool_iff in E. apply Hrange.
      apply (Qmult_integral_l (2 * (1 # 100))); [discriminate | exact E].
    + reflexivity.
Qed.

Lemma missing_scan_rate_default_witness :
  scan_rate (metadata default_analyzer) = None
  /\ _calculate_cycle_capacitance default_analyzer 1 upward_cycle =
       Ret (Some (mkCycleResult 1
                    (_calculate_area [(0, 0); (1 # 2, 1 # 1000000); (1, 0)]%Q
                       [(1, 0)]%Q)
                    (_calculate_area [(0, 0); (1 # 2, 1 # 1000000); (1, 0)]%Q
                       [(1, 0)]%Q
                     / (2 * (1 # 100)
                        * voltage_range
                            [(0, 0); (1 # 2, 1 # 1000000); (1, 0)]%Q))%Q
                    false None None)).
Proof.
  split; [reflexivity|].
  apply (missing_scan_rate_default default_analyzer 1 upward_cycle eq_refl).
  - simpl. lia.
  - apply has_overflow_false. reflexivity.
  - reflexivity.
  - intros H. vm_compute in H. discriminate.
Defined.

(** Claim C6.  The split point of a cycle is the first index at which the
    largest voltage is attained; the forward scan runs up to and including
    it and the reverse scan starts at it, so that sample is in both.  The
    loop area is the absolute value of the sum, over the consecutive
    forward pairs whose two rounded voltages are keys of the reverse
    lookup, of [((i1 - ir1) + (i2 - ir2)) / 2 * |v2 - v1|]; the other
    pairs add nothing.  A voltage is a key exactly when some reverse sample
    rounds to the same 6 decimals. *)
Theorem split_at_first_max_and_loop_area (cycle_data : list Sample) :
  (2 <= length cycle_data)%nat ->
  (exists k,
     first_max_index k cycle_data
     /\ _split_forward_reverse cycle_data =
          (firstn (k + 1) cycle_data, skipn k cycle_data)
     /\ nth_error (firstn (k + 1) cycle_data) k = nth_error cycle_data k
     /\ nth_error (skipn k cycle_data) 0 = nth_error cycle_data k)
  /\ (forall forward_scan reverse_scan,
        _calculate_area forward_scan reverse_scan =
          spec_loop_area forward_scan reverse_scan
        /\ forall v,
             spec_reverse_current reverse_scan v <> None <->
             exists s, In s reverse_scan
                       /\ (py_round6 (fst s) == py_round6 v)%Q).
Proof.
  intros Hlen. split.
  - destruct (split_forward_reverse_at_first_max cycle_data Hlen)
      as [k [Hk Heq]].
    exists k. split; [exact Hk|]. split; [exact Heq|]. split.
    + rewrite nth_error_firstn.
      assert (Hlt : (k <? k + 1)%nat = true) by (apply Nat.ltb_lt; lia).
      rewrite Hlt. reflexivity.
    + rewrite nth_error_skipn, Nat.add_0_r. reflexivity.
  - intros forward_scan reverse_scan. split.
    + apply calculate_area_spec.
    + intros v. apply reverse_current_keys.
Qed.

Lemma split_at_first_max_and_loop_area_witness :
  (2 <= length upward_cycle)%nat
  /\ exists k,
       first_max_index k upward_cycle
       /\ _split_forward_reverse upward_cycle =
            (firstn (k + 1) upward_cycle, skipn k upward_cycle).
Proof.
  split; [simpl; lia|].
  destruct (split_at_first_max_and_loop_area upward_cycle) as [[k [Hk [Heq _]]] _].
  - simpl. lia.
  - exists k. split; [exact Hk | exact Heq].
Defined.

(** ** Segmentation *)

Lemma direction_loop_length (rest : list Sample) (prev_v : Q) (last : Z) :
  length (direction_loop prev_v last rest) = length rest.
Proof.
  revert prev_v last. induction rest as [|[v c] rest IH]; intros; simpl.
  - reflexivity.
  - rewrite IH. reflexivity.
Qed.

Lemma reversal_loop_range (rest : list Z) (i : nat) (prev : Z) (x : nat) :
  In x (reversal_loop i prev rest) -> (i <= x < i + length rest)%nat.
Proof.
  revert i prev. induction rest as [|d rest IH]; intros i prev Hin; simpl in *.
  - contradiction.
  - destruct (negb (d =? prev)%Z && negb (d =? 0)%Z && negb (prev =? 0)%Z).
    + destruct Hin as [<-|Hin]; [lia|]. apply IH in Hin. lia.
    + apply IH in Hin. lia.
Qed.

(** No reversal is ever recorded at index 1, and none at or past the end. *)
Lemma reversal_indices_range (data : list Sample) (x : nat) :
  In x (tl (direction_change_indices (direction_changes data))) ->
  (2 <= x < length data)%nat.
Proof.
  destruct data as [|[v0 c0] rest]; simpl.
  - contradiction.
  - destruct rest as [|[v1 c1] rest]; simpl; [contradiction|].
    rewrite andb_false_r. intros Hin. apply reversal_loop_range in Hin.
    rewrite direction_loop_length in Hin. lia.
Qed.

Lemma boundaries_fold (segment : nat) (l acc : list nat) :
  exists l', fold_left
               (fun cb idx => if (length cb <? segment)%nat then cb ++ [idx] else cb)
               l acc = acc ++ l'
             /\ incl l' l.
Proof.
  revert acc. induction l as [|x l IH]; intros acc; simpl.
  - exists []. split; [rewrite app_nil_r; reflexivity | apply incl_refl].
  - destruct (length acc <? segment)%nat.
    + destruct (IH (acc ++ [x])) as [l' [Heq Hincl]].
      exists (x :: l'). split.
      * rewrite Heq, <- app_assoc. reflexivity.
      * intros y [<-|Hy]; [left; reflexivity | right; apply Hincl; exact Hy].
    + destruct (IH acc) as [l' [Heq Hincl]].
      exists l'. split; [exact Heq | apply incl_tl; exact Hincl].
Qed.

(** The boundaries are 0, then indices between 2 and the length. *)
Lemma cycle_boundaries_shape (segment : nat) (data : list Sample) :
  (2 <= length data)%nat ->
  exists b bs,
    cycle_boundaries segment
      (direction_change_indices (direction_changes data)) (length data)
    = 0%nat :: b :: bs
    /\ Forall (fun x => 2 <= x <= length data)%nat (b :: bs).
Proof.
  intros Hlen. unfold cycle_boundaries.
  destruct (boundaries_fold segment
              (tl (direction_change_indices (direction_changes data))) [0%nat])
    as [l' [Heq Hincl]].
  rewrite Heq. cbn [app].
  assert (HF : Forall (fun x => 2 <= x <= length data)%nat (l' ++ [length data])).
  { apply Forall_app. split.
    - apply Forall_forall. intros x Hx. apply Hincl in Hx.
      apply reversal_indices_range in Hx. lia.
    - constructor; [lia | constructor]. }
  destruct (l' ++ [length data]) as [|b bs] eqn:E.
  - destruct l'; discriminate.
  - exists b, bs. split; [reflexivity | exact HF].
Qed.

Lemma slices_all_long (data : list Sample) (cb : list nat) :
  Forall (fun c => 2 <= length c)%nat (slices_loop data cb).
Proof.
  induction cb as [|s cb IH]; [constructor|].
  destruct cb as [|e cb]; [constructor|].
  cbn [slices_loop]. cbv zeta.
  destruct (2 <=? length (slice s e data))%nat eqn:E.
  - constructor; [apply Nat.leb_le; exact E | exact IH].
  - exact IH.
Qed.

Lemma unpaired_cycles_long (self : CVAnalyzer) :
  Forall (fun c => 2 <= length c)%nat (unpaired_cycles self).
Proof. apply slices_all_long. Qed.

Lemma unpaired_cycles_nonempty (self : CVAnalyzer) :
  (2 <= length (voltage_current_data self))%nat ->
  unpaired_cycles self <> [].
Proof.
  intros Hlen. unfold unpaired_cycles.
  destruct (cycle_boundaries_shape (get (segment (metadata self)) 10%nat) _ Hlen)
    as [b [bs [Heq HF]]].
  rewrite Heq. cbn [slices_loop]. cbv zeta.
  inversion HF as [|? ? Hb _]; subst.
  assert (Hs : length (slice 0 b (voltage_current_data self)) = b).
  { unfold slice. rewrite Nat.sub_0_r. simpl skipn. rewrite length_firstn. lia. }
  rewrite Hs. destruct (2 <=? b)%nat eqn:E; [discriminate|].
  apply Nat.leb_gt in E. lia.
Qed.

Lemma spec_paired_cons2 (a b : list Sample) (cycles : list (list Sample)) :
  spec_paired (a :: b :: cycles) = (a ++ b) :: spec_paired cycles.
Proof.
  unfold spec_paired.
  assert (Hdiv : (length (a :: b :: cycles) / 2 = S (length cycles / 2))%nat).
  { cbn [length]. change (S (S (length cycles))) with (2 + length cycles)%nat.
    replace (2 + length cycles)%nat with (1 * 2 + length cycles)%nat by lia.
    rewrite Nat.div_add_l by lia. reflexivity. }
  rewrite Hdiv. cbn [seq map]. f_equal.
  rewrite <- seq_shift, map_map. apply map_ext. intros k.
  replace (2 * S k)%nat with (S (S (2 * k))) by lia.
  replace (S (S (2 * k)) + 1)%nat with (S (S (2 * k + 1))) by lia.
  reflexivity.
Qed.

Lemma pair_loop_spec_aux (n : nat) (cycles : list (list Sample)) :
  (length cycles <= n)%nat ->
  Forall (fun c => 2 <= length c)%nat cycles ->
  pair_loop cycles = spec_paired cycles.
Proof.
  revert cycles. induction n as [|n IH]; intros cycles Hn HF.
  - destruct cycles; [reflexivity | simpl in Hn; lia].
  - destruct cycles as [|a [|b cycles]]; [reflexivity | reflexivity |].
    rewrite spec_paired_cons2. cbn [pair_loop]. cbv zeta.
    inversion HF as [|? ? Ha HF']; subst. inversion HF' as [|? ? Hb HF'']; subst.
    assert (Hlt : (1 <? length (a ++ b))%nat = true).
    { apply Nat.ltb_lt. rewrite length_app. lia. }
    rewrite Hlt. f_equal. apply IH; [simpl in Hn; lia | exact HF''].
Qed.

Lemma pair_loop_spec (cycles : list (list Sample)) :
  Forall (fun c => 2 <= length c)%nat cycles ->
  pair_loop cycles = spec_paired cycles.
Proof. apply (pair_loop_spec_aux (length cycles)). apply Nat.le_refl. Qed.

Lemma spec_paired_nil (cycles : list (list Sample)) :
  spec_paired cycles = [] <-> (length cycles < 2)%nat.
Proof.
  destruct cycles as [|a [|b cycles]].
  - simpl. split; [lia | reflexivity].
  - simpl. split; [lia | reflexivity].
  - rewrite spec_paired_cons2. simpl. split; [discriminate | lia].
Qed.

(** Claim C8.  When the slices of two or more samples outnumber
    [segment // 2], the result is the list of pairs [slice 2k ++ slice 2k+1]
    in order, a last slice without partner being left out; when that list
    of pairs is empty the slices themselves are kept.  Hence the
    segmentation is empty exactly when there are fewer than 2 samples. *)
Theorem pairing_never_empties (self : CVAnalyzer) :
  let cycles := unpaired_cycles self in
  let expected_cycles := (get (segment (metadata self)) 10 / 2)%nat in
  (_split_into_cycles self = [] <-> (length (voltage_current_data self) < 2)%nat)
  /\ ((2 <= length (voltage_current_data self))%nat ->
      Forall (fun c => 2 <= length c)%nat cycles
      /\ ((expected_cycles < length cycles)%nat ->
          spec_paired cycles <> [] ->
          _split_into_cycles self = spec_paired cycles)
      /\ ((expected_cycles < length cycles)%nat ->
          spec_paired cycles = [] ->
          _split_into_cycles self = cycles)
      /\ ((length cycles <= expected_cycles)%nat ->
          _split_into_cycles self = cycles)).
Proof.
  intros cycles expected_cycles.
  assert (Hlong : Forall (fun c => 2 <= length c)%nat cycles)
    by apply unpaired_cycles_long.
  assert (Hcases : (2 <= length (voltage_current_data self))%nat ->
            _split_into_cycles self =
              if (expected_cycles <? length cycles)%nat
              then match spec_paired cycles with
                   | [] => cycles
                   | paired => paired
                   end
              else cycles).
  { intros Hlen. unfold _split_into_cycles.
    destruct (length (voltage_current_data self) <? 2)%nat eqn:E;
      [apply Nat.ltb_lt in E; lia|].
    fold cycles. fold expected_cycles. rewrite (pair_loop_spec cycles Hlong).
    reflexivity. }
  split.
  - split.
    + intros Hnil.
      destruct (le_lt_dec 2 (length (voltage_current_data self))) as [Hlen|Hlen];
        [|exact Hlen].
      exfalso. rewrite (Hcases Hlen) in Hnil.
      pose proof (unpaired_cycles_nonempty self Hlen) as Hne. fold cycles in Hne.
      destruct (expected_cycles <? length cycles)%nat; [|contradiction].
      destruct (spec_paired cycles); [contradiction | discriminate].
    + intros Hlen. unfold _split_into_cycles.
      apply Nat.ltb_lt in Hlen. rewrite Hlen. reflexivity.
  - intros Hlen. rewrite (Hcases Hlen). split; [exact Hlong|]. repeat split.
    + intros Hexp Hne. apply Nat.ltb_lt in Hexp. rewrite Hexp.
      destruct (spec_paired cycles); [contradiction | reflexivity].
    + intros Hexp Hnil. apply Nat.ltb_lt in Hexp. rewrite Hexp, Hnil. reflexivity.
    + intros Hexp. apply Nat.ltb_ge in Hexp. rewrite Hexp. reflexivity.
Qed.

(** Two triangular sweeps with [Segment = 4]: four half-scans, paired into
    two cycles that hold all nine samples. *)
Example triangular_wave_two_cycles :
  unpaired_cycles mixed_run =
    [slice 0 3 (voltage_current_data mixed_run);
     slice 3 5 (voltage_current_data mixed_run);
     slice 5 7 (voltage_current_data mixed_run);
     slice 7 9 (voltage_current_data mixed_run)]
  /\ _split_into_cycles mixed_run =
       [slice 0 5 (voltage_current_data mixed_run);
        slice 5 9 (voltage_current_data mixed_run)].
Proof. split; reflexivity. Qed.

(** What the code does on every series that starts downwards: the first
    label is the literal 0, the label at index 1 is -1, and index 1 is
    neither a reversal index nor a cycle boundary, whatever [segment]
    is. *)
Theorem descending_start_no_boundary (v0 c0 v1 c1 : Q) (rest : list Sample) :
  (v1 < v0)%Q ->
  let data := (v0, c0) :: (v1, c1) :: rest in
  let dirs := direction_changes data in
  nth 0 dirs 0%Z = 0%Z
  /\ nth 1 dirs 0%Z = (-1)%Z
  /\ ~ In 1%nat (tl (direction_change_indices dirs))
  /\ forall segment : nat,
       ~ In 1%nat (cycle_boundaries segment (direction_change_indices dirs)
                     (length data)).
Proof.
  intros Hlt data dirs.
  assert (H1 : ~ In 1%nat (tl (direction_change_indices dirs))).
  { intros Hin. apply reversal_indices_range in Hin. lia. }
  split; [reflexivity|]. split; [|split; [exact H1|]].
  - unfold dirs, data. cbn [direction_changes direction_loop nth].
    unfold Qgtb. destruct (Qltb v0 v1) eqn:E.
    + apply Qltb_lt in E. exfalso. apply (Qlt_irrefl v0).
      apply Qlt_trans with v1; assumption.
    + apply Qltb_lt in Hlt. rewrite Hlt. reflexivity.
  - intros segment Hin.
    destruct (cycle_boundaries_shape segment data) as [b [bs [Heq HF]]];
      [simpl; lia|].
    fold dirs in Heq. rewrite Heq in Hin.
    destruct Hin as [Hin|Hin]; [discriminate|].
    rewrite Forall_forall in HF. apply HF in Hin. lia.
Qed.

Lemma descending_start_no_boundary_witness :
  (0 < 1)%Q /\
  ~ In 1%nat (cycle_boundaries 10
                (direction_change_indices
                   (direction_changes [(1, 0); (0, 0); (1, 0)]%Q))
                3).
Proof.
  split; [reflexivity|].
  apply (descending_start_no_boundary 1 0 0 0 [(1, 0)]%Q). reflexivity.
Defined.

(** Claim C3 fails on the code.  The comment beside [direction_changes]
    says the first point's direction is positive (upward), but the list
    starts with the literal 0: on a series that starts downwards the first
    label is not +1 and index 1 is neither a reversal index nor a
    boundary. *)
Theorem descending_start_evaluated :
  let data := [(1, 0); (0, 0); (1, 0)]%Q in
  let dirs := direction_changes data in
  (fst (nth 1 data (0, 0)) < fst (nth 0 data (0, 0)))%Q
  /\ nth 0 dirs 0%Z <> 1%Z
  /\ ~ In 1%nat (tl (direction_change_indices dirs))
  /\ ~ In 1%nat (cycle_boundaries 10 (direction_change_indices dirs) (length data)).
Proof.
  repeat split.
  - discriminate.
  - simpl. intros [H|[]]. discriminate.
  - simpl. intros [H|[H|[H|[]]]]; discriminate.
Qed.

(** ** Robust average *)

Lemma insert_desc_perm (x : Q * Q) (l : list (Q * Q)) :
  Permutation (insert_desc x l) (x :: l).
Proof.
  induction l as [|y l IH]; simpl.
  - apply Permutation_refl.
  - destruct (Qltb (fst x) (fst y)).
    + apply perm_trans with (y :: x :: l).
      * apply perm_skip. exact IH.
      * apply perm_swap.
    + apply Permutation_refl.
Qed.

Lemma sort_reverse_perm (l : list (Q * Q)) : Permutation (sort_reverse l) l.
Proof.
  induction l as [|x l IH]; simpl.
  - apply perm_nil.
  - apply perm_trans with (x :: sort_reverse l).
    + apply insert_desc_perm.
    + apply perm_skip. exact IH.
Qed.

Lemma mean_nonempty (values : list Q) :
  values <> [] -> mean values = Ret (spec_mean values).
Proof. destruct values; [congruence | reflexivity]. Qed.

Lemma z_scores_of_spec (m s : Q) (values : list Q) :
  ~ (s == 0)%Q ->
  z_scores_of m s values = Ret (spec_z_scores m s values).
Proof.
  intros Hs. induction values as [|v values IH]; simpl.
  - reflexivity.
  - unfold py_div. destruct (Qeq_bool s 0) eqn:E.
    + apply Qeq_bool_iff in E. contradiction.
    + simpl. rewrite IH. reflexivity.
Qed.

(** *** Over any arithmetic *)

Section AnyArithmeticFacts.

Context {arith : AnyArithmetic.Arithmetic}.

Lemma any_insert_desc_perm (x : AnyArithmetic.num * AnyArithmetic.num)
    (l : list (AnyArithmetic.num * AnyArithmetic.num)) :
  Permutation (AnyArithmetic.insert_desc x l) (x :: l).
Proof.
  induction l as [|y l IH]; simpl.
  - apply Permutation_refl.
  - destruct (AnyArithmetic.float_lt (fst x) (fst y)).
    + apply perm_trans with (y :: x :: l).
      * apply perm_skip. exact IH.
      * apply perm_swap.
    + apply Permutation_refl.
Qed.

Lemma any_sort_reverse_perm
    (l : list (AnyArithmetic.num * AnyArithmetic.num)) :
  Permutation (AnyArithmetic.sort_reverse l) l.
Proof.
  induction l as [|x l IH]; simpl.
  - apply perm_nil.
  - apply perm_trans with (x :: AnyArithmetic.sort_reverse l).
    + apply any_insert_desc_perm.
    + apply perm_skip. exact IH.
Qed.

Lemma ordered_irrefl (ks : list AnyArithmetic.num) (a : AnyArithmetic.num) :
  AnyArithmetic.ordered ks -> In a ks -> AnyArithmetic.float_lt a a = false.
Proof.
  intros [Hasym _] Ha.
  destruct (AnyArithmetic.float_lt a a) eqn:E; [|reflexivity].
  rewrite <- E. apply Hasym; assumption.
Qed.

Lemma any_insert_desc_sorted (ks : list AnyArithmetic.num)
    (x : AnyArithmetic.num * AnyArithmetic.num)
    (l : list (AnyArithmetic.num * AnyArithmetic.num)) :
  AnyArithmetic.ordered ks ->
  In (fst x) ks ->
  Forall (fun a => In (fst a) ks) l ->
  StronglySorted (fun a b => AnyArithmetic.float_lt (fst a) (fst b) = false) l ->
  StronglySorted (fun a b => AnyArithmetic.float_lt (fst a) (fst b) = false)
    (AnyArithmetic.insert_desc x l).
Proof.
  intros Hord Hx Hks Hsorted. pose proof Hord as [Hasym Htrans].
  induction l as [|y l IH].
  - constructor; constructor.
  - inversion Hsorted as [|? ? Hs Hall]; subst.
    inversion Hks as [|? ? Hy Hks']; subst.
    cbn [AnyArithmetic.insert_desc].
    destruct (AnyArithmetic.float_lt (fst x) (fst y)) eqn:E.
    + constructor; [apply IH; assumption|].
      apply Forall_forall. intros z Hz.
      apply (Permutation_in _ (any_insert_desc_perm x l)) in Hz.
      destruct Hz as [<-|Hz].
      * apply Hasym; assumption.
      * rewrite Forall_forall in Hall. apply Hall. exact Hz.
    + constructor; [exact Hsorted|].
      constructor; [exact E|].
      apply Forall_forall. intros z Hz.
      rewrite Forall_forall in Hall, Hks'.
      apply Htrans with (fst y); auto.
Qed.

Lemma any_insert_desc_stable (ks : list AnyArithmetic.num)
    (k : AnyArithmetic.num) (x : AnyArithmetic.num * AnyArithmetic.num)
    (l : list (AnyArithmetic.num * AnyArithmetic.num)) :
  AnyArithmetic.ordered ks ->
  In k ks ->
  In (fst x) ks ->
  Forall (fun a => In (fst a) ks) l ->
  filter (fun a => AnyArithmetic.tied (fst a) k) (AnyArithmetic.insert_desc x l)
  = filter (fun a => AnyArithmetic.tied (fst a) k) (x :: l).
Proof.
  intros [Hasym Htrans] Hk Hx Hks.
  induction l as [|y l IH].
  - reflexivity.
  - inversion Hks as [|? ? Hy Hks']; subst.
    cbn [AnyArithmetic.insert_desc].
    destruct (AnyArithmetic.float_lt (fst x) (fst y)) eqn:E; [|reflexivity].
    cbn [filter] in *. rewrite (IH Hks').
    destruct (AnyArithmetic.tied (fst y) k) eqn:Ey; [|reflexivity].
    destruct (AnyArithmetic.tied (fst x) k) eqn:Ex; [|reflexivity].
    exfalso. unfold AnyArithmetic.tied in Ex, Ey.
    apply andb_prop in Ex, Ey. destruct Ex as [Ex _], Ey as [_ Ey].
    apply negb_true_iff in Ex, Ey.
    rewrite (Htrans (fst x) k (fst y) Hx Hk Hy Ex Ey) in E. discriminate.
Qed.

Lemma any_sort_reverse_keys (ks : list AnyArithmetic.num)
    (l : list (AnyArithmetic.num * AnyArithmetic.num)) :
  Forall (fun a => In (fst a) ks) l ->
  Forall (fun a => In (fst a) ks) (AnyArithmetic.sort_reverse l).
Proof.
  intros Hks. apply Forall_forall. intros a Ha.
  apply (Permutation_in _ (any_sort_reverse_perm l)) in Ha.
  rewrite Forall_forall in Hks. apply Hks. exact Ha.
Qed.

Lemma any_sort_reverse_sorted (ks : list AnyArithmetic.num)
    (l : list (AnyArithmetic.num * AnyArithmetic.num)) :
  AnyArithmetic.ordered ks ->
  Forall (fun a => In (fst a) ks) l ->
  StronglySorted (fun a b => AnyArithmetic.float_lt (fst a) (fst b) = false)
    (AnyArithmetic.sort_reverse l).
Proof.
  intros Hord Hks. induction l as [|x l IH].
  - constructor.
  - inversion Hks as [|? ? Hx Hks']; subst.
    cbn [AnyArithmetic.sort_reverse fold_right].
    apply (any_insert_desc_sorted ks); auto.
    apply any_sort_reverse_keys. exact Hks'.
Qed.

Lemma any_sort_reverse_stable (ks : list AnyArithmetic.num)
    (k : AnyArithmetic.num)
    (l : list (AnyArithmetic.num * AnyArithmetic.num)) :
  AnyArithmetic.ordered ks ->
  In k ks ->
  Forall (fun a => In (fst a) ks) l ->
  filter (fun a => AnyArithmetic.tied (fst a) k) (AnyArithmetic.sort_reverse l)
  = filter (fun a => AnyArithmetic.tied (fst a) k) l.
Proof.
  intros Hord Hk Hks. induction l as [|x l IH].
  - reflexivity.
  - inversion Hks as [|? ? Hx Hks']; subst.
    cbn [AnyArithmetic.sort_reverse fold_right].
    rewrite (any_insert_desc_stable ks); auto.
    + cbn [filter]. fold (AnyArithmetic.sort_reverse l).
      rewrite (IH Hks'). reflexivity.
    + apply any_sort_reverse_keys. exact Hks'.
Qed.

Lemma keys_in_own_list (l : list (AnyArithmetic.num * AnyArithmetic.num)) :
  Forall (fun a => In (fst a) (map fst l)) l.
Proof. apply Forall_forall. intros a Ha. apply in_map. exact Ha. Qed.

(** The sort of the model gives the stable descending order. *)
Lemma any_sort_reverse_stable_descending
    (l : list (AnyArithmetic.num * AnyArithmetic.num)) :
  AnyArithmetic.ordered (map fst l) ->
  AnyArithmetic.stable_descending l (AnyArithmetic.sort_reverse l).
Proof.
  intros Hord. split; [apply any_sort_reverse_perm|].
  split.
  - apply (any_sort_reverse_sorted (map fst l)); [exact Hord|].
    apply keys_in_own_list.
  - intros k Hk.
    apply (any_sort_reverse_stable (map fst l)); [exact Hord|exact Hk|].
    apply keys_in_own_list.
Qed.

Lemma sorted_order_unique (ks : list AnyArithmetic.num)
    (s1 s2 : list (AnyArithmetic.num * AnyArithmetic.num)) :
  AnyArithmetic.ordered ks ->
  Forall (fun a => In (fst a) ks) s1 ->
  Permutation s1 s2 ->
  StronglySorted (fun a b => AnyArithmetic.float_lt (fst a) (fst b) = false) s1 ->
  StronglySorted (fun a b => AnyArithmetic.float_lt (fst a) (fst b) = false) s2 ->
  (forall k, In k ks ->
     filter (fun a => AnyArithmetic.tied (fst a) k) s1
     = filter (fun a => AnyArithmetic.tied (fst a) k) s2) ->
  s1 = s2.
Proof.
  intros Hord. revert s2.
  induction s1 as [|x s1 IH]; intros s2 Hks Hperm Hs1 Hs2 Hfil.
  - apply Permutation_nil in Hperm. symmetry. exact Hperm.
  - destruct s2 as [|y s2].
    { apply Permutation_sym, Permutation_nil in Hperm. discriminate. }
    inversion Hks as [|? ? Hx Hks']; subst.
    inversion Hs1 as [|? ? Hs1' Hall1]; subst.
    inversion Hs2 as [|? ? Hs2' Hall2]; subst.
    assert (Hxx : AnyArithmetic.float_lt (fst x) (fst x) = false)
      by (apply (ordered_irrefl ks); assumption).
    assert (Hxy : AnyArithmetic.float_lt (fst x) (fst y) = false).
    { assert (Hy : In y (x :: s1)).
      { apply (Permutation_in _ (Permutation_sym Hperm)). left. reflexivity. }
      destruct Hy as [<-|Hy]; [exact Hxx|].
      rewrite Forall_forall in Hall1. apply Hall1. exact Hy. }
    assert (Hyx : AnyArithmetic.float_lt (fst y) (fst x) = false).
    { assert (Hx' : In x (y :: s2)).
      { apply (Permutation_in _ Hperm). left. reflexivity. }
      destruct Hx' as [->|Hx']; [exact Hxx|].
      rewrite Forall_forall in Hall2. apply Hall2. exact Hx'. }
    assert (Htxx : AnyArithmetic.tied (fst x) (fst x) = true).
    { unfold AnyArithmetic.tied. rewrite Hxx. reflexivity. }
    assert (Htyx : AnyArithmetic.tied (fst y) (fst x) = true).
    { unfold AnyArithmetic.tied. rewrite Hxy, Hyx. reflexivity. }
    pose proof (Hfil (fst x) Hx) as Hhead. cbn [filter] in Hhead.
    rewrite Htxx, Htyx in Hhead.
    injection Hhead as Heq _. subst y.
    f_equal. apply IH.
    + exact Hks'.
    + apply Permutation_cons_inv with x. exact Hperm.
    + exact Hs1'.
    + exact Hs2'.
    + intros k Hk. specialize (Hfil k Hk). cbn [filter] in Hfil.
      destruct (AnyArithmetic.tied (fst x) k); [|exact Hfil].
      injection Hfil as Hfil. exact Hfil.
Qed.

(** The stable descending order of a list is one list only. *)
Lemma stable_descending_unique
    (l s1 s2 : list (AnyArithmetic.num * AnyArithmetic.num)) :
  AnyArithmetic.ordered (map fst l) ->
  AnyArithmetic.stable_descending l s1 ->
  AnyArithmetic.stable_descending l s2 ->
  s1 = s2.
Proof.
  intros Hord [Hp1 [Hs1 Hf1]] [Hp2 [Hs2 Hf2]].
  apply (sorted_order_unique (map fst l)); try assumption.
  - apply Forall_forall. intros a Ha. apply in_map.
    apply (Permutation_in _ Hp1). exact Ha.
  - apply perm_trans with l; [exact Hp1 | apply Permutation_sym; exact Hp2].
  - intros k Hk. rewrite (Hf1 k Hk), (Hf2 k Hk). reflexivity.
Qed.

Lemma any_z_scores_of_spec (m s : AnyArithmetic.num)
    (values : list AnyArithmetic.num) :
  AnyArithmetic.float_is_zero s = false ->
  AnyArithmetic.z_scores_of m s values
  = Ret (AnyArithmetic.spec_z_scores m s values).
Proof.
  intros Hs. induction values as [|v values IH]; simpl.
  - reflexivity.
  - unfold AnyArithmetic.py_div. rewrite Hs. simpl. rewrite IH. reflexivity.
Qed.

(** Claim C9, for the arithmetic of the interpreter whatever its rounding.
    For a non-empty list and a non-negative [outlier_count], the robust
    average is the plain mean when the list is no longer than
    [outlier_count]; the plain mean when the standard deviation is zero;
    and otherwise, the z-scores [|value - mean| / stdev] being ordered by
    [<], the mean of what is left of the list, put in descending order of
    z-score with tied z-scores in their original order, once the first
    [outlier_count] entries are dropped.  That order exists and is one
    list only. *)
Theorem robust_average_any_arithmetic (self : CVAnalyzer)
    (values : list AnyArithmetic.num) :
  values <> [] ->
  (0 <= outlier_count self)%Z ->
  let m := AnyArithmetic.statistics_mean values in
  let s := if (1 <? length values)%nat
           then AnyArithmetic.statistics_stdev values
           else AnyArithmetic.int_zero in
  let z_scores := AnyArithmetic.spec_z_scores m s values in
  ((Z.of_nat (length values) <= outlier_count self)%Z ->
     AnyArithmetic._calculate_robust_average self values = Ret m)
  /\ ((outlier_count self < Z.of_nat (length values))%Z ->
      AnyArithmetic.float_is_zero s = true ->
        AnyArithmetic._calculate_robust_average self values = Ret m)
  /\ ((outlier_count self < Z.of_nat (length values))%Z ->
      AnyArithmetic.float_is_zero s = false ->
      AnyArithmetic.ordered (map fst z_scores) ->
        exists sorted,
          AnyArithmetic.stable_descending z_scores sorted
          /\ (forall other,
                AnyArithmetic.stable_descending z_scores other ->
                other = sorted)
          /\ AnyArithmetic._calculate_robust_average self values =
               Ret (AnyArithmetic.statistics_mean
                      (map snd
                         (skipn (Z.to_nat (outlier_count self)) sorted)))).
Proof.
  intros Hne Hoc m s z_scores.
  assert (Hm : AnyArithmetic.mean values = Ret m).
  { destruct values; [congruence | reflexivity]. }
  assert (Hsd : (if (1 <? length values)%nat
                 then AnyArithmetic.stdev values
                 else Ret AnyArithmetic.int_zero) = Ret s).
  { unfold s, AnyArithmetic.stdev.
    destruct (length values) as [|[|n]] eqn:E; reflexivity. }
  split; [|split].
  - intros Hle. unfold AnyArithmetic._calculate_robust_average.
    apply Z.leb_le in Hle. rewrite Hle. exact Hm.
  - intros Hlt Hs. unfold AnyArithmetic._calculate_robust_average.
    apply Z.leb_gt in Hlt. rewrite Hlt.
    rewrite Hm. cbn [bind]. rewrite Hsd. cbn [bind].
    rewrite Hs. reflexivity.
  - intros Hlt Hs Hord. exists (AnyArithmetic.sort_reverse z_scores).
    split; [apply any_sort_reverse_stable_descending; exact Hord|].
    split.
    { intros other Hother.
      apply (stable_descending_unique z_scores); try assumption.
      apply any_sort_reverse_stable_descending; exact Hord. }
    unfold AnyArithmetic._calculate_robust_average.
    pose proof Hlt as Hlt'. apply Z.leb_gt in Hlt'. rewrite Hlt'.
    rewrite Hm. cbn [bind]. rewrite Hsd. cbn [bind]. rewrite Hs.
    rewrite (any_z_scores_of_spec m s values Hs). cbn [bind].
    fold z_scores. unfold py_slice_from.
    destruct (outlier_count self <? 0)%Z eqn:Eneg;
      [apply Z.ltb_lt in Eneg; lia|].
    destruct (map snd (skipn (Z.to_nat (outlier_count self))
                         (AnyArithmetic.sort_reverse z_scores)))
      as [|r rs] eqn:Erem.
    + exfalso. apply (f_equal (@length _)) in Erem.
      rewrite length_map, length_skipn in Erem.
      rewrite (Permutation_length (any_sort_reverse_perm _)) in Erem.
      unfold z_scores, AnyArithmetic.spec_z_scores in Erem.
      rewrite length_map in Erem. simpl length in Erem. lia.
    + reflexivity.
Qed.

End AnyArithmeticFacts.

(** The rationals order every list of keys, rounded or not. *)
Lemma exact_ordered (sqrt : Q -> Q) (keys : list Q) :
  AnyArithmetic.ordered (arith := AnyArithmetic.exact sqrt) keys.
Proof.
  split.
  - intros a b _ _ H. cbn in *. apply Qltb_lt in H. apply Qltb_ge.
    apply Qlt_le_weak. exact H.
  - intros a b c _ _ _ H1 H2. cbn in *.
    apply Qltb_ge in H1, H2. apply Qltb_ge.
    apply Qle_trans with b; assumption.
Qed.

Lemma binary64_ordered (keys : list Q) :
  AnyArithmetic.ordered (arith := AnyArithmetic.binary64) keys.
Proof. exact (exact_ordered sqrt_approx keys). Qed.

(** The exact computation of the engine is the method at the exact
    rationals. *)
Lemma exact_insert_desc (sqrt : Q -> Q) (x : Q * Q) (l : list (Q * Q)) :
  AnyArithmetic.insert_desc (arith := AnyArithmetic.exact sqrt) x l
  = insert_desc x l.
Proof.
  induction l as [|y l IH]; [reflexivity|].
  cbn [AnyArithmetic.insert_desc insert_desc]. rewrite IH. reflexivity.
Qed.

Lemma exact_sort_reverse (sqrt : Q -> Q) (l : list (Q * Q)) :
  AnyArithmetic.sort_reverse (arith := AnyArithmetic.exact sqrt) l
  = sort_reverse l.
Proof.
  induction l as [|x l IH]; [reflexivity|].
  cbn [AnyArithmetic.sort_reverse sort_reverse fold_right].
  fold (AnyArithmetic.sort_reverse (arith := AnyArithmetic.exact sqrt) l).
  fold (sort_reverse l).
  rewrite IH. apply exact_insert_desc.
Qed.

Lemma exact_z_scores_of (sqrt : Q -> Q) (m s : Q) (values : list Q) :
  AnyArithmetic.z_scores_of (arith := AnyArithmetic.exact sqrt) m s values
  = z_scores_of m s values.
Proof.
  induction values as [|v values IH]; [reflexivity|].
  cbn [AnyArithmetic.z_scores_of z_scores_of]. rewrite IH. reflexivity.
Qed.

Lemma exact_robust_average (sqrt : Q -> Q) (self : CVAnalyzer)
    (values : list Q) :
  AnyArithmetic._calculate_robust_average (arith := AnyArithmetic.exact sqrt)
    self values
  = _calculate_robust_average sqrt self values.
Proof.
  unfold AnyArithmetic._calculate_robust_average, _calculate_robust_average.
  assert (Hm : AnyArithmetic.mean (arith := AnyArithmetic.exact sqrt) values
               = mean values) by (destruct values; reflexivity).
  assert (Hs : (if (1 <? length values)%nat
                then AnyArithmetic.stdev (arith := AnyArithmetic.exact sqrt)
                       values
                else Ret (AnyArithmetic.int_zero
                            (Arithmetic := AnyArithmetic.exact sqrt)))
               = (if (1 <? length values)%nat then stdev sqrt values
                  else Ret 0%Q)).
  { unfold AnyArithmetic.stdev, stdev.
    cbn [AnyArithmetic.statistics_stdev AnyArithmetic.int_zero
         AnyArithmetic.num AnyArithmetic.exact].
    unfold spec_stdev, spec_mean.
    destruct (length values) as [|[|n]]; reflexivity. }
  cbn [AnyArithmetic.num AnyArithmetic.exact] in *.
  destruct (Z.of_nat (length values) <=? outlier_count self)%Z; [exact Hm|].
  rewrite Hm, Hs.
  destruct (mean values) as [mean_|]; [|reflexivity]. cbn [bind].
  destruct (if (1 <? length values)%nat then stdev sqrt values else Ret 0%Q)
    as [stdev_|]; [|reflexivity].
  cbn [bind AnyArithmetic.float_is_zero AnyArithmetic.exact].
  destruct (Qeq_bool stdev_ 0); [reflexivity|].
  rewrite exact_z_scores_of.
  destruct (z_scores_of mean_ stdev_ values) as [zs|]; [|reflexivity].
  cbn [bind]. rewrite exact_sort_reverse.
  destruct (map snd (py_slice_from (outlier_count self) (sort_reverse zs)))
    as [|r rs] eqn:E; [reflexivity|].
  destruct rs; reflexivity.
Qed.

Lemma robust_average_any_arithmetic_witness :
  let values := [AnyArithmetic.round53 (3 # 10);
                 AnyArithmetic.round53 (1 # 10)] in
  let m := AnyArithmetic.statistics_mean
             (Arithmetic := AnyArithmetic.binary64) values in
  let s := AnyArithmetic.statistics_stdev
             (Arithmetic := AnyArithmetic.binary64) values in
  values <> []
  /\ (0 <= outlier_count default_analyzer)%Z
  /\ (outlier_count default_analyzer < Z.of_nat (length values))%Z
  /\ AnyArithmetic.float_is_zero (Arithmetic := AnyArithmetic.binary64) s
     = false
  /\ exists sorted,
       AnyArithmetic.stable_descending (arith := AnyArithmetic.binary64)
         (AnyArithmetic.spec_z_scores m s values) sorted
       /\ AnyArithmetic._calculate_robust_average
            (arith := AnyArithmetic.binary64) default_analyzer values
          = Ret (AnyArithmetic.statistics_mean
                   (Arithmetic := AnyArithmetic.binary64)
                   (map snd (skipn 1 sorted))).
Proof.
  intros values m s.
  assert (Hne : values <> []) by discriminate.
  assert (Hoc : (0 <= outlier_count default_analyzer)%Z) by (simpl; lia).
  assert (Hlt : (outlier_count default_analyzer < Z.of_nat (length values))%Z)
    by (simpl; lia).
  assert (Hs : AnyArithmetic.float_is_zero
                 (Arithmetic := AnyArithmetic.binary64) s = false)
    by (vm_compute; reflexivity).
  repeat (split; [assumption|]).
  destruct (robust_average_any_arithmetic (arith := AnyArithmetic.binary64)
              default_analyzer values Hne Hoc) as [_ [_ H]].
  destruct (H Hlt Hs (binary64_ordered _)) as [sorted [Hsorted [_ Hres]]].
  exists sorted. split; [exact Hsorted | exact Hres].
Defined.

(** On [[0.3, 0.1]] the distances from the mean 0.2 are equal as
    rationals and differ as doubles (0.09999999999999998 and 0.1): with
    doubles the z-score of 0.1 is the larger one, 0.1 is dropped and the
    robust average is 0.3; with exact rationals the z-scores tie, the
    first value is dropped and the result is 0.1. *)
Example doubles_break_the_tie :
  let a := AnyArithmetic.round53 (3 # 10) in
  let b := AnyArithmetic.round53 (1 # 10) in
  AnyArithmetic._calculate_robust_average (arith := AnyArithmetic.binary64)
    default_analyzer [a; b] = Ret a
  /\ AnyArithmetic._calculate_robust_average
       (arith := AnyArithmetic.exact sqrt_approx)
       default_analyzer [3 # 10; 1 # 10]%Q = Ret (1 # 10)%Q.
Proof. split; vm_compute; reflexivity. Qed.

(** The doubles of the example, and the two z-scores. *)
Example doubles_of_the_example :
  AnyArithmetic.round53 (3 # 10)
    = (5404319552844595 # 18014398509481984)%Q
  /\ AnyArithmetic.round53 (1 # 10)
     = (3602879701896397 # 36028797018963968)%Q
  /\ map fst
       (AnyArithmetic.spec_z_scores (arith := AnyArithmetic.binary64)
          (AnyArithmetic.round53 (2 # 10))
          (2547620669010309 # 18014398509481984)%Q
          [AnyArithmetic.round53 (3 # 10); AnyArithmetic.round53 (1 # 10)])
     = [(6369051672525771 # 9007199254740992)%Q;
        (6369051672525773 # 9007199254740992)%Q].
Proof. repeat split. Qed.

(** *** Over the exact rationals *)

(** The trimming example of the specification: 10 is dropped. *)
Example robust_average_trims_outlier :
  _calculate_robust_average sqrt_approx default_analyzer [1; 1; 1; 10]%Q
    = Ret (3 # 3)%Q.
Proof. vm_compute. reflexivity. Qed.

(** ** Reading the data block *)

Lemma split_nonnil (sep : ascii) (s : string) : split sep s <> [].
Proof.
  destruct s as [|c s]; simpl; [discriminate|].
  destruct (Ascii.eqb c sep); [discriminate|].
  destruct (split sep s); discriminate.
Qed.

Lemma comma_not_space (c : ascii) :
  Ascii.eqb c comma = true -> is_space c = false.
Proof. intros H. apply Ascii.eqb_eq in H. subst c. reflexivity. Qed.

Lemma lstrip_idem (s : string) : lstrip (lstrip s) = lstrip s.
Proof.
  induction s as [|c s IH]; simpl; [reflexivity|].
  destruct (is_space c) eqn:E; [exact IH|]. simpl. rewrite E. reflexivity.
Qed.

Lemma rstrip_cons (c : ascii) (s : string) :
  rstrip (String c s) =
    match rstrip s with
    | EmptyString => if is_space c then EmptyString else String c EmptyString
    | r => String c r
    end.
Proof. reflexivity. Qed.

Lemma rstrip_idem (s : string) : rstrip (rstrip s) = rstrip s.
Proof.
  induction s as [|c s IH]; [reflexivity|].
  rewrite rstrip_cons. destruct (rstrip s) as [|c' r] eqn:E.
  - destruct (is_space c) eqn:Ec; [reflexivity|].
    simpl. rewrite Ec. reflexivity.
  - rewrite rstrip_cons, IH. reflexivity.
Qed.

Lemma lstrip_rstrip (s : string) : lstrip (rstrip s) = rstrip (lstrip s).
Proof.
  induction s as [|c s IH]; [reflexivity|].
  cbn [lstrip]. destruct (is_space c) eqn:Ec.
  - rewrite <- IH, rstrip_cons. destruct (rstrip s) as [|c' r].
    + rewrite Ec. reflexivity.
    + cbn [lstrip]. rewrite Ec. reflexivity.
  - rewrite rstrip_cons. destruct (rstrip s) as [|c' r].
    + rewrite Ec. cbn [lstrip]. rewrite Ec. reflexivity.
    + cbn [lstrip]. rewrite Ec. reflexivity.
Qed.

Lemma strip_lstrip (s : string) : strip (lstrip s) = strip s.
Proof. unfold strip. rewrite lstrip_idem. reflexivity. Qed.

Lemma strip_rstrip (s : string) : strip (rstrip s) = strip s.
Proof. unfold strip. rewrite lstrip_rstrip, rstrip_idem. reflexivity. Qed.

Lemma split_cons (c : ascii) (s : string) :
  split comma (String c s) =
    if Ascii.eqb c comma then EmptyString :: split comma s
    else map_first (String c) (split comma s).
Proof.
  cbn [split]. destruct (Ascii.eqb c comma); [reflexivity|].
  destruct (split comma s) eqn:E; [|reflexivity].
  exfalso. apply (split_nonnil _ _ E).
Qed.

Lemma split_lstrip (s : string) :
  split comma (lstrip s) = map_first lstrip (split comma s).
Proof.
  induction s as [|c s IH]; [reflexivity|].
  rewrite split_cons. cbn [lstrip]. destruct (is_space c) eqn:Ec.
  - destruct (Ascii.eqb c comma) eqn:E.
    + apply comma_not_space in E. congruence.
    + rewrite IH. destruct (split comma s); simpl; [reflexivity|].
      rewrite Ec. reflexivity.
  - rewrite split_cons. destruct (Ascii.eqb c comma); [reflexivity|].
    destruct (split comma s); simpl; [reflexivity|]. rewrite Ec. reflexivity.
Qed.

Lemma split_empty_inv (s : string) :
  split comma s = [EmptyString] -> s = EmptyString.
Proof.
  destruct s as [|c s]; [reflexivity|]. rewrite split_cons.
  destruct (Ascii.eqb c comma).
  - intros H. injection H as H. exfalso. apply (split_nonnil _ _ H).
  - destruct (split comma s); simpl; discriminate.
Qed.

Lemma split_rstrip (s : string) :
  split comma (rstrip s) = map_last rstrip (split comma s).
Proof.
  induction s as [|c s IH]; [reflexivity|].
  rewrite rstrip_cons, (split_cons c s).
  destruct (rstrip s) as [|c' r] eqn:Er.
  - (* the tail is blank: it is a single field that strips to nothing *)
    destruct (split comma s) as [|f [|f' fs]] eqn:Es;
      [exfalso; apply (split_nonnil _ _ Es) | |].
    + simpl in IH. injection IH as IH.
      destruct (Ascii.eqb c comma) eqn:E.
      * rewrite (comma_not_space _ E). rewrite split_cons, E. simpl.
        rewrite <- IH. reflexivity.
      * simpl. rewrite <- IH. destruct (is_space c); [reflexivity|].
        rewrite split_cons, E. reflexivity.
    + simpl in IH. destruct fs; discriminate.
  - rewrite split_cons. destruct (Ascii.eqb c comma) eqn:E.
    + rewrite IH. destruct (split comma s) eqn:Es;
        [exfalso; apply (split_nonnil _ _ Es) | reflexivity].
    + rewrite IH. destruct (split comma s) as [|f [|f' fs]] eqn:Es.
      * exfalso. apply (split_nonnil _ _ Es).
      * simpl. f_equal. destruct (rstrip f) eqn:Ef; [|reflexivity].
        exfalso. cbn [map_last] in IH. rewrite Ef in IH.
        apply split_empty_inv in IH. discriminate.
      * reflexivity.
Qed.

Lemma split_strip (s : string) :
  split comma (strip s) = map_last rstrip (map_first lstrip (split comma s)).
Proof. unfold strip. rewrite split_rstrip, split_lstrip. reflexivity. Qed.

Section ParserFacts.

Variable float : string -> option Q.

Lemma parse_row_accepted (line : string) (sample : Sample) :
  parse_row float line = Some sample <-> spec_accepted float line sample.
Proof.
  unfold parse_row, spec_accepted. split.
  - destruct (split comma line) as [|p0 [|p1 [|p2 ps]]]; try discriminate.
    destruct (float (strip p0)) as [v|] eqn:E0; [|discriminate].
    destruct (float (strip p1)) as [c|] eqn:E1; [|discriminate].
    intros H. injection H as <-. exists p0, p1. auto.
  - intros [p0 [p1 [Hs [H0 H1]]]]. rewrite Hs, H0, H1.
    destruct sample; reflexivity.
Qed.

Lemma accepted_strip (line : string) (sample : Sample) :
  spec_accepted float (strip line) sample <-> spec_accepted float line sample.
Proof.
  unfold spec_accepted. rewrite split_strip.
  destruct (split comma line) as [|p0 [|p1 [|p2 ps]]]; simpl.
  - split; intros [a [b [H _]]]; discriminate.
  - split; intros [a [b [H _]]]; discriminate.
  - split; intros [a [b [H [Ha Hb]]]]; injection H as <- <-.
    + rewrite strip_lstrip in Ha. rewrite strip_rstrip in Hb.
      exists p0, p1. auto.
    + exists (lstrip p0), (rstrip p1).
      rewrite strip_lstrip, strip_rstrip. auto.
  - split; intros [a [b [H _]]]; destruct ps; discriminate.
Qed.

Lemma accepted_nonblank (line : string) (sample : Sample) :
  spec_accepted float line sample -> strip line <> EmptyString.
Proof.
  intros [p0 [p1 [Hs _]]] Hblank.
  pose proof (split_strip line) as H. rewrite Hblank, Hs in H.
  discriminate.
Qed.

Lemma row_of_line_accepted (line : string) (sample : Sample) :
  row_of_line float line = Some sample <-> spec_accepted float line sample.
Proof.
  unfold row_of_line. destruct (String.eqb (strip line) EmptyString) eqn:E.
  - apply String.eqb_eq in E. split; [discriminate|].
    intros H. exfalso. apply (accepted_nonblank line sample H E).
  - rewrite parse_row_accepted. apply accepted_strip.
Qed.

End ParserFacts.

Lemma header_loop_spec (lines : list string) (i : Z) :
  (0 <= i)%Z ->
  match lines_after_header lines with
  | None => header_loop i lines = (-1)%Z
  | Some ls =>
      exists k, header_loop i lines = (i + Z.of_nat k)%Z /\ skipn k lines = ls
  end.
Proof.
  revert i. induction lines as [|line lines IH]; intros i Hi; simpl.
  - reflexivity.
  - destruct (contains data_header line).
    + exists 1%nat. split; [reflexivity | reflexivity].
    + specialize (IH (i + 1)%Z ltac:(lia)).
      destruct (lines_after_header lines) as [ls|]; [|exact IH].
      destruct IH as [k [Hk Hs]]. exists (S k). split; [lia | exact Hs].
Qed.

Lemma lines_after_header_none (lines : list string) :
  lines_after_header lines = None <->
  forall line, In line lines -> contains data_header line = false.
Proof.
  induction lines as [|l lines IH]; simpl.
  - split; [intros _ ? [] | reflexivity].
  - destruct (contains data_header l) eqn:E.
    + split; [discriminate|]. intros H.
      specialize (H l (or_introl eq_refl)). congruence.
    + rewrite IH. split.
      * intros H line [<-|Hin]; [exact E | apply H; exact Hin].
      * intros H line Hin. apply H. right. exact Hin.
Qed.

Section ReadFile.

Variable float : string -> option Q.
Variable _parse_metadata : string -> Metadata -> py Metadata.

Lemma rows_loop_app (lines : list string) (data : list Sample) :
  rows_loop float lines data = data ++ rows_of float lines.
Proof.
  revert data. induction lines as [|line lines IH]; intros data; simpl.
  - rewrite app_nil_r. reflexivity.
  - destruct (row_of_line float line) as [sample|].
    + rewrite IH, <- app_assoc. reflexivity.
    + apply IH.
Qed.

Lemma rows_of_nil (lines : list string) :
  rows_of float lines = [] <->
  forall line sample, In line lines -> ~ spec_accepted float line sample.
Proof.
  induction lines as [|line lines IH]; simpl.
  - split; [intros _ ? ? [] | reflexivity].
  - destruct (row_of_line float line) as [sample|] eqn:E.
    + split; [discriminate|]. intros H. exfalso.
      apply (H line sample); [left; reflexivity|].
      apply row_of_line_accepted. exact E.
    + simpl. rewrite IH. split.
      * intros H l s [<-|Hin] Hacc.
        -- apply row_of_line_accepted in Hacc. congruence.
        -- apply (H l s Hin Hacc).
      * intros H l s Hin. apply H. right. exact Hin.
Qed.

Lemma parse_data_spec (content : string) (self : CVAnalyzer) :
  voltage_current_data (_parse_voltage_current_data float content self) =
    voltage_current_data self ++
    match lines_after_header (split newline content) with
    | None => []
    | Some ls => rows_of float ls
    end.
Proof.
  unfold _parse_voltage_current_data.
  pose proof (header_loop_spec (split newline content) 0 ltac:(lia)) as H.
  destruct (lines_after_header (split newline content)) as [ls|].
  - destruct H as [k [Hk Hs]]. rewrite Hk.
    destruct (0 + Z.of_nat k =? -1)%Z eqn:E; [apply Z.eqb_eq in E; lia|].
    simpl. rewrite Nat2Z.id, Hs. apply rows_loop_app.
  - rewrite H. simpl. rewrite app_nil_r. reflexivity.
Qed.

(** Claim C10.  A line of the data block yields a sample exactly when a
    split on the comma gives two fields that both read as numbers; any
    other line adds nothing and raises nothing.  For a text with the
    technique marker whose metadata scan returns, read into a fresh
    analyzer, [read_file] reports failure exactly when no line contains the
    data header or no line after the first header line is accepted. *)
Theorem data_rows_and_no_data (content : string) (self : CVAnalyzer) :
  (forall line sample,
     row_of_line float line = Some sample <-> spec_accepted float line sample)
  /\ voltage_current_data (_parse_voltage_current_data float content self) =
       voltage_current_data self ++
       match lines_after_header (split newline content) with
       | None => []
       | Some ls => rows_of float ls
       end
  /\ (forall md,
        contains cv_marker content = true ->
        _parse_metadata content (metadata self) = Ret md ->
        voltage_current_data self = [] ->
        exists flag self',
          read_file float _parse_metadata (Some content) self
            = Ret (flag, self')
          /\ (flag = false <->
              (forall line, In line (split newline content) ->
                            contains data_header line = false)
              \/ (exists ls,
                    lines_after_header (split newline content) = Some ls
                    /\ forall line sample,
                         In line ls -> ~ spec_accepted float line sample))).
Proof.
  split; [apply row_of_line_accepted|]. split; [apply parse_data_spec|].
  intros md Hcv Hmd Hfresh. unfold read_file. rewrite Hcv. cbn [negb].
  cbn [set_is_cv metadata]. rewrite Hmd. cbn [bind].
  pose proof (parse_data_spec content
                (set_metadata md (set_is_cv true self))) as Hdata.
  cbn [set_metadata set_is_cv voltage_current_data] in Hdata.
  rewrite Hfresh in Hdata. cbn [app] in Hdata.
  unfold set_metadata, set_is_cv in *. cbn [sensitivity_threshold_factor outlier_count
    metadata voltage_current_data is_cv] in *.
  destruct (voltage_current_data (_parse_voltage_current_data float content _))
    as [|s0 data] eqn:E; eexists; eexists; (split; [reflexivity|]).
  - split; [intros _|reflexivity].
    destruct (lines_after_header (split newline content)) as [ls|] eqn:El.
    + right. exists ls. split; [reflexivity|].
      apply rows_of_nil. symmetry. exact Hdata.
    + left. apply lines_after_header_none. exact El.
  - split; [discriminate|]. intros [H|[ls [El H]]]; exfalso.
    + apply lines_after_header_none in H. rewrite H in Hdata. discriminate.
    + rewrite El in Hdata. apply rows_of_nil in H. congruence.
Qed.

End ReadFile.

(** Reading the small export keeps the two rows and skips the rest. *)
Example read_sample_export :
  exists self,
    read_file decimal_float no_metadata (Some sample_export) default_analyzer
      = Ret (true, self)
    /\ voltage_current_data self =
         [(0 # 10, 10 # 10000000); (5 # 10, 2 # 1000000)]%Q.
Proof. eexists. split; vm_compute; reflexivity. Qed.

(** ** The command-line analysis *)

(** Every result that [analyze] collects adds its capacitance to the list
    that is aggregated, whatever its outlier flag. *)
Lemma results_loop_capacitances (self : CVAnalyzer) (cycles : list (list Sample))
    (n : nat) (caps caps' : list Q) (res res' : list CycleResult) :
  results_loop self n cycles caps res = Ret (caps', res') ->
  caps = map capacitance res ->
  caps' = map capacitance res'.
Proof.
  revert n caps res. induction cycles as [|c cycles IH]; intros n caps res Hrun Hinv.
  - simpl in Hrun. injection Hrun as <- <-. exact Hinv.
  - cbn [results_loop] in Hrun.
    destruct (_calculate_cycle_capacitance self n c) as [[r|]|e];
      cbn [bind] in Hrun; [ | |discriminate].
    + apply (IH _ _ _ Hrun). rewrite map_app, Hinv. reflexivity.
    + apply (IH _ _ _ Hrun Hinv).
Qed.

Lemma results_loop_nonempty (self : CVAnalyzer) (cycles : list (list Sample))
    (n : nat) (caps caps' : list Q) (res res' : list CycleResult) :
  results_loop self n cycles caps res = Ret (caps', res') ->
  caps <> [] -> caps' <> [].
Proof.
  revert n caps res. induction cycles as [|c cycles IH]; intros n caps res Hrun Hne.
  - simpl in Hrun. injection Hrun as <- <-. exact Hne.
  - cbn [results_loop] in Hrun.
    destruct (_calculate_cycle_capacitance self n c) as [[r|]|e];
      cbn [bind] in Hrun; [ | |discriminate].
    + apply (IH _ _ _ Hrun). destruct caps; discriminate.
    + apply (IH _ _ _ Hrun Hne).
Qed.

(** When the first cycle overflows, the run is never rejected as "all
    cycles ignored". *)
Lemma overflow_never_rejected (sqrt : Q -> Q) (self : CVAnalyzer)
    (c : list Sample) (cycles : list (list Sample)) :
  _split_into_cycles self = c :: cycles ->
  (2 <= length c)%nat ->
  overflows self c ->
  analyze sqrt self <> Ret AllCyclesIgnored.
Proof.
  intros Hsplit Hlen Hov. unfold analyze.
  destruct (negb (is_cv self)); [discriminate|].
  destruct (voltage_current_data self); [discriminate|].
  rewrite Hsplit. cbn [results_loop].
  rewrite (overflow_result self 1 c Hlen Hov). cbn [bind app].
  destruct (results_loop self 2 cycles _ _) as [[caps res]|e] eqn:Erun;
    cbn [bind]; [|discriminate].
  pose proof (results_loop_nonempty _ _ _ _ _ _ _ Erun ltac:(discriminate)) as Hne.
  destruct caps as [|c0 cs]; [contradiction|].
  destruct (_calculate_robust_average sqrt self (c0 :: cs)); cbn [bind];
    [|discriminate].
  destruct (1 <? length (c0 :: cs))%nat; [|discriminate].
  destruct (stdev sqrt (c0 :: cs)); cbn [bind]; [|discriminate].
  destruct (py_div _ _); cbn [bind]; discriminate.
Qed.

(** Claim C1 fails on the code.  The only cycle of [overflow_run] is
    flagged as an overflow; [analyze] does not stop with "all cycles
    ignored" but ends normally and reports an average capacitance of 0. *)
Theorem all_overflow_run_reports_zero (sqrt : Q -> Q) :
  analyze sqrt overflow_run =
    Ret (Analyzed
           (mkReport
              [mkCycleResult 1 0 0 true (Some current_overflow)
                 (Some (overflow_warning 10))]
              1 0 None)).
Proof. reflexivity. Qed.

(** Claim C2 fails on the code.  On [mixed_run] the list that [analyze]
    hands to the aggregator is [[c; 0]]: the zero of the flagged second
    cycle is in it, while [_get_valid_capacitances] keeps [[c]] only.  The
    robust average of [[c; 0]] is 0 and the run ends in a division by
    zero. *)
Theorem analyze_aggregates_outlier_zero :
  exists c first second,
    results_loop mixed_run 1 (_split_into_cycles mixed_run) [] [] =
      Ret ([c; 0%Q], [first; second])
    /\ (0 < c)%Q
    /\ is_outlier first = false
    /\ is_outlier second = true
    /\ _get_valid_capacitances [first; second] = [c]
    /\ _calculate_robust_average sqrt_approx mixed_run [c; 0%Q] = Ret 0%Q
    /\ analyze sqrt_approx mixed_run = Raise ZeroDivisionError.
Proof.
  eexists. eexists. eexists.
  split; [vm_compute; reflexivity|].
  split; [reflexivity|].
  split; [reflexivity|].
  split; [reflexivity|].
  split; [vm_compute; reflexivity|].
  split; vm_compute; reflexivity.
Qed.

(** Claim C4 fails on the code.  A cycle that starts at its largest voltage
    has a forward scan of one sample, hence a voltage range of zero; the
    division is not guarded and raises. *)
Theorem zero_range_divides_by_zero :
  (2 <= length downward_cycle)%nat
  /\ has_overflow (threshold default_analyzer) downward_cycle = false
  /\ voltage_range (fst (_split_forward_reverse downward_cycle)) = (1 - 1)%Q
  /\ _calculate_cycle_capacitance default_analyzer 1 downward_cycle =
       Raise ZeroDivisionError.
Proof. repeat split. simpl. lia. Qed.

(** * Further properties of the engine *)

(** ** Segmentation: shape of the boundaries *)

Lemma boundaries_fold_firstn (segment : nat) (l acc : list nat) :
  fold_left
    (fun cb idx => if (length cb <? segment)%nat then cb ++ [idx] else cb)
    l acc
  = acc ++ firstn (segment - length acc) l.
Proof.
  revert acc. induction l as [|x l IH]; intros acc.
  - rewrite firstn_nil, app_nil_r. reflexivity.
  - cbn [fold_left]. destruct (length acc <? segment)%nat eqn:E.
    + apply Nat.ltb_lt in E. rewrite IH, length_app. cbn [length].
      replace (segment - length acc)%nat
        with (S (segment - (length acc + 1)))%nat by lia.
      cbn [firstn]. rewrite <- app_assoc. reflexivity.
    + apply Nat.ltb_ge in E. rewrite IH.
      replace (segment - length acc)%nat with 0%nat by lia.
      reflexivity.
Qed.

Lemma reversal_loop_sorted (rest : list Z) (i : nat) (prev : Z) :
  StronglySorted lt (reversal_loop i prev rest).
Proof.
  revert i prev. induction rest as [|d rest IH]; intros i prev; simpl.
  - constructor.
  - destruct (negb (d =? prev)%Z && negb (d =? 0)%Z && negb (prev =? 0)%Z).
    + constructor; [apply IH|].
      apply Forall_forall. intros x Hx.
      apply reversal_loop_range in Hx. lia.
    + apply IH.
Qed.

Lemma reversal_indices_sorted (data : list Sample) :
  StronglySorted lt (tl (direction_change_indices (direction_changes data))).
Proof.
  destruct data as [|[v0 c0] rest]; simpl; [constructor|].
  apply reversal_loop_sorted.
Qed.

Lemma in_firstn {A : Type} (k : nat) (l : list A) (x : A) :
  In x (firstn k l) -> In x l.
Proof.
  intros H. rewrite <- (firstn_skipn k l). apply in_or_app. left. exact H.
Qed.

Lemma firstn_sorted (k : nat) (l : list nat) :
  StronglySorted lt l -> StronglySorted lt (firstn k l).
Proof.
  revert k. induction l as [|x l IH]; intros k Hs.
  - rewrite firstn_nil. constructor.
  - destruct k; [constructor|]. cbn [firstn].
    inversion Hs as [|? ? Hs' Hall]; subst.
    constructor; [apply IH; exact Hs'|].
    apply Forall_forall. intros y Hy. rewrite Forall_forall in Hall.
    apply Hall. apply (in_firstn _ _ _ Hy).
Qed.

(** The boundaries written out: 0, the first [segment - 1] reversal
    indices, the length. *)
Lemma cycle_boundaries_eq (segment : nat) (data : list Sample) :
  cycle_boundaries segment
    (direction_change_indices (direction_changes data)) (length data)
  = 0%nat
    :: firstn (segment - 1)
         (tl (direction_change_indices (direction_changes data)))
    ++ [length data].
Proof.
  unfold cycle_boundaries. rewrite boundaries_fold_firstn. reflexivity.
Qed.

Lemma cycle_boundaries_sorted (segment : nat) (data : list Sample) :
  StronglySorted le
    (cycle_boundaries segment
       (direction_change_indices (direction_changes data)) (length data)).
Proof.
  rewrite cycle_boundaries_eq.
  set (revs := tl (direction_change_indices (direction_changes data))).
  assert (Hrange : forall x, In x (firstn (segment - 1) revs) ->
                             (2 <= x < length data)%nat).
  { intros x Hx. apply reversal_indices_range. apply (in_firstn _ _ _ Hx). }
  assert (Hs : StronglySorted lt (firstn (segment - 1) revs))
    by (apply firstn_sorted; apply reversal_indices_sorted).
  constructor.
  - induction (firstn (segment - 1) revs) as [|x l IH]; cbn [app].
    + constructor; constructor.
    + inversion Hs as [|? ? Hs' Hall]; subst. constructor.
      * apply IH; [|exact Hs']. intros y Hy. apply Hrange. right. exact Hy.
      * apply Forall_app. split.
        -- apply Forall_forall. intros y Hy. rewrite Forall_forall in Hall.
           apply Nat.lt_le_incl. apply Hall. exact Hy.
        -- constructor; [|constructor].
           specialize (Hrange x (or_introl eq_refl)). lia.
  - apply Forall_forall. intros y Hy. lia.
Qed.

Lemma slices_loop_step (data : list Sample) (s e : nat) (cb : list nat) :
  slices_loop data (s :: e :: cb) =
    if (2 <=? length (slice s e data))%nat
    then slice s e data :: slices_loop data (e :: cb)
    else slices_loop data (e :: cb).
Proof. reflexivity. Qed.

Lemma slices_loop_length (data : list Sample) (cb : list nat) :
  (length (slices_loop data cb) <= length cb - 1)%nat.
Proof.
  induction cb as [|s cb IH]; [simpl; lia|].
  destruct cb as [|e cb]; [simpl; lia|].
  rewrite slices_loop_step.
  destruct (2 <=? length (slice s e data))%nat; cbn [length] in *; lia.
Qed.

Lemma unpaired_cycles_count (self : CVAnalyzer) :
  (length (unpaired_cycles self)
   <= Nat.max 1 (get (segment (metadata self)) 10%nat))%nat.
Proof.
  unfold unpaired_cycles.
  pose proof (slices_loop_length (voltage_current_data self)
                (cycle_boundaries (get (segment (metadata self)) 10%nat)
                   (direction_change_indices
                      (direction_changes (voltage_current_data self)))
                   (length (voltage_current_data self)))) as H.
  rewrite cycle_boundaries_eq in H at 2.
  cbn [length] in H. rewrite length_app, length_firstn in H.
  cbn [length] in H. lia.
Qed.

Lemma pair_loop_length (cycles : list (list Sample)) :
  Forall (fun c => 2 <= length c)%nat cycles ->
  length (pair_loop cycles) = (length cycles / 2)%nat.
Proof.
  intros HF. rewrite (pair_loop_spec cycles HF). unfold spec_paired.
  rewrite length_map, length_seq. reflexivity.
Qed.

(** With two or more half-scans announced, the number of cycles never
    exceeds [segment // 2]. *)
Theorem cycle_count_bounded (self : CVAnalyzer) :
  (2 <= get (segment (metadata self)) 10%nat)%nat ->
  (length (_split_into_cycles self)
   <= get (segment (metadata self)) 10%nat / 2)%nat.
Proof.
  intros Hseg. unfold _split_into_cycles.
  destruct (length (voltage_current_data self) <? 2)%nat; [simpl; lia|].
  pose proof (unpaired_cycles_count self) as Hcount.
  pose proof (pair_loop_length _ (unpaired_cycles_long self)) as Hpair.
  destruct (get (segment (metadata self)) 10%nat / 2 <? length (unpaired_cycles self))%nat
    eqn:E.
  - apply Nat.ltb_lt in E.
    assert (Hle : (length (unpaired_cycles self) / 2
                   <= get (segment (metadata self)) 10%nat / 2)%nat).
    { apply Nat.Div0.div_le_mono. lia. }
    destruct (pair_loop (unpaired_cycles self)) as [|p ps] eqn:Ep.
    + exfalso. cbn [length] in Hpair.
      assert (1 <= get (segment (metadata self)) 10%nat / 2)%nat.
      { change 1%nat with (2 / 2)%nat. apply Nat.Div0.div_le_mono. exact Hseg. }
      assert (2 <= length (unpaired_cycles self))%nat by lia.
      assert (1 <= length (unpaired_cycles self) / 2)%nat.
      { change 1%nat with (2 / 2)%nat. apply Nat.Div0.div_le_mono. lia. }
      lia.
    + rewrite Hpair. exact Hle.
  - apply Nat.ltb_ge in E. exact E.
Qed.

Lemma cycle_count_bounded_witness :
  (2 <= get (segment (metadata mixed_run)) 10%nat)%nat
  /\ (length (_split_into_cycles mixed_run) <= 2)%nat.
Proof.
  split; [simpl; lia|].
  apply (cycle_count_bounded mixed_run). simpl. lia.
Defined.

(** ** Segmentation: what the cycles are made of *)

Lemma pair_loop_long (n : nat) (cycles : list (list Sample)) :
  (length cycles <= n)%nat ->
  Forall (fun c => 2 <= length c)%nat cycles ->
  Forall (fun c => 4 <= length c)%nat (pair_loop cycles).
Proof.
  revert cycles. induction n as [|n IH]; intros cycles Hn HF.
  - destruct cycles; [constructor | simpl in Hn; lia].
  - destruct cycles as [|a [|b cycles]]; [constructor | constructor |].
    inversion HF as [|? ? Ha HF']; subst. inversion HF' as [|? ? Hb HF'']; subst.
    cbn [pair_loop]. cbv zeta.
    assert (Hlt : (1 <? length (a ++ b))%nat = true)
      by (apply Nat.ltb_lt; rewrite length_app; lia).
    rewrite Hlt. constructor.
    + rewrite length_app. lia.
    + apply IH; [simpl in Hn; lia | exact HF''].
Qed.

(** Every cycle handed on by the segmentation has two samples or more,
    and four or more once half-scans were paired. *)
Theorem cycles_have_two_samples (self : CVAnalyzer) :
  Forall (fun c => 2 <= length c)%nat (_split_into_cycles self)
  /\ (_split_into_cycles self <> unpaired_cycles self ->
      Forall (fun c => 4 <= length c)%nat (_split_into_cycles self)).
Proof.
  pose proof (unpaired_cycles_long self) as Hlong.
  pose proof (pair_loop_long (length (unpaired_cycles self)) _
                (Nat.le_refl _) Hlong) as Hpair.
  unfold _split_into_cycles.
  destruct (length (voltage_current_data self) <? 2)%nat.
  - split; [constructor | intros _; constructor].
  - destruct (_ <? length (unpaired_cycles self))%nat.
    + destruct (pair_loop (unpaired_cycles self)) as [|p ps] eqn:Ep.
      * split; [exact Hlong | intros H; contradiction].
      * split; [|intros _; exact Hpair].
        apply Forall_forall. intros c Hc. rewrite Forall_forall in Hpair.
        specialize (Hpair c Hc). simpl in Hpair. lia.
    + split; [exact Hlong | intros H; contradiction].
Qed.

Lemma subseq_nil_l {A : Type} (l : list A) : subseq [] l.
Proof.
  induction l; [apply subseq_nil | apply subseq_skip; assumption].
Qed.

Lemma subseq_refl {A : Type} (l : list A) : subseq l l.
Proof.
  induction l; [apply subseq_nil | apply subseq_take; assumption].
Qed.

Lemma subseq_app {A : Type} (l1 l1' l2 l2' : list A) :
  subseq l1 l1' -> subseq l2 l2' -> subseq (l1 ++ l2) (l1' ++ l2').
Proof.
  intros H1 H2. induction H1; cbn [app].
  - exact H2.
  - apply subseq_skip. exact IHsubseq.
  - apply subseq_take. exact IHsubseq.
Qed.

Lemma subseq_trans {A : Type} (l1 l2 l3 : list A) :
  subseq l1 l2 -> subseq l2 l3 -> subseq l1 l3.
Proof.
  intros H12 H23. revert l1 H12.
  induction H23 as [|x l2 l3 H IH|x l2 l3 H IH]; intros l1 H12.
  - exact H12.
  - apply subseq_skip. apply IH. exact H12.
  - inversion H12; subst.
    + apply subseq_skip. apply IH. assumption.
    + apply subseq_take. apply IH. assumption.
Qed.

Lemma slices_loop_subseq (data : list Sample) (cb : list nat) :
  StronglySorted le cb ->
  subseq (concat (slices_loop data cb)) (skipn (hd 0%nat cb) data).
Proof.
  induction cb as [|s cb IH]; intros Hs; [apply subseq_nil_l|].
  destruct cb as [|e cb]; [apply subseq_nil_l|].
  inversion Hs as [|? ? Hs' Hall]; subst.
  assert (Hse : (s <= e)%nat) by (inversion Hall; assumption).
  specialize (IH Hs'). cbn [hd] in *.
  assert (Hskip : skipn e data = skipn (e - s) (skipn s data)).
  { rewrite skipn_skipn. f_equal. lia. }
  rewrite Hskip in IH.
  rewrite <- (firstn_skipn (e - s) (skipn s data)).
  rewrite slices_loop_step.
  destruct (2 <=? length (slice s e data))%nat.
  - cbn [concat]. apply subseq_app; [apply subseq_refl | exact IH].
  - change (concat (slices_loop data (e :: cb)))
      with ([] ++ concat (slices_loop data (e :: cb))).
    apply subseq_app; [apply subseq_nil_l | exact IH].
Qed.

Lemma pair_loop_subseq (n : nat) (cycles : list (list Sample)) :
  (length cycles <= n)%nat ->
  subseq (concat (pair_loop cycles)) (concat cycles).
Proof.
  revert cycles. induction n as [|n IH]; intros cycles Hn.
  - destruct cycles; [apply subseq_nil | simpl in Hn; lia].
  - destruct cycles as [|a [|b cycles]];
      [apply subseq_nil | apply subseq_nil_l |].
    assert (Hrest : subseq (concat (pair_loop cycles)) (concat cycles))
      by (apply IH; simpl in Hn; lia).
    cbn [pair_loop]. cbv zeta. cbn [concat].
    destruct (1 <? length (a ++ b))%nat.
    + cbn [concat]. rewrite <- app_assoc.
      apply subseq_app; [apply subseq_refl|].
      apply subseq_app; [apply subseq_refl | exact Hrest].
    + change (concat (pair_loop cycles))
        with ([] ++ [] ++ concat (pair_loop cycles)).
      apply subseq_app; [apply subseq_nil_l|].
      apply subseq_app; [apply subseq_nil_l | exact Hrest].
Qed.

(** The cycles, laid end to end, are the recorded series with some samples
    left out: nothing is repeated, reordered or made up. *)
Theorem cycles_keep_order (self : CVAnalyzer) :
  subseq (concat (_split_into_cycles self)) (voltage_current_data self).
Proof.
  assert (Hun : subseq (concat (unpaired_cycles self))
                  (voltage_current_data self)).
  { unfold unpaired_cycles.
    pose proof (slices_loop_subseq (voltage_current_data self) _
                  (cycle_boundaries_sorted
                     (get (segment (metadata self)) 10%nat)
                     (voltage_current_data self))) as H.
    rewrite cycle_boundaries_eq in H at 2. exact H. }
  unfold _split_into_cycles.
  destruct (length (voltage_current_data self) <? 2)%nat;
    [apply subseq_nil_l|].
  destruct (_ <? length (unpaired_cycles self))%nat; [|exact Hun].
  destruct (pair_loop (unpaired_cycles self)) as [|p ps] eqn:Ep; [exact Hun|].
  rewrite <- Ep.
  apply subseq_trans with (concat (unpaired_cycles self)); [|exact Hun].
  apply (pair_loop_subseq (length (unpaired_cycles self))). apply Nat.le_refl.
Qed.

(** ** Segmentation: a sweep without reversal *)

Lemma reversal_loop_one_sign (d : Z) (rest : list Z) (i : nat) (prev : Z) :
  Forall (fun x => x = 0%Z \/ x = d) (prev :: rest) ->
  reversal_loop i prev rest = [].
Proof.
  revert i prev. induction rest as [|x rest IH]; intros i prev HF;
    [reflexivity|].
  inversion HF as [|? ? Hprev HF']; subst.
  pose proof HF' as HF''. inversion HF'' as [|? ? Hx _]; subst.
  cbn [reversal_loop].
  assert (Hcond : negb (x =? prev)%Z && negb (x =? 0)%Z && negb (prev =? 0)%Z
                  = false).
  { destruct Hx as [-> | ->]; [rewrite andb_false_r; reflexivity|].
    destruct Hprev as [-> | ->]; [rewrite andb_false_r; reflexivity|].
    rewrite Z.eqb_refl. reflexivity. }
  rewrite Hcond. apply IH. exact HF'.
Qed.

Lemma direction_loop_never_falls (rest : list Sample) (v c : Q) (last : Z) :
  never_falls ((v, c) :: rest) ->
  last = 0%Z \/ last = 1%Z ->
  Forall (fun x => x = 0%Z \/ x = 1%Z) (direction_loop v last rest).
Proof.
  revert v c last. induction rest as [|[v1 c1] rest IH]; intros v c last Hm Hl;
    [constructor|].
  unfold never_falls in Hm. cbn [consecutive_pairs tl combine] in Hm.
  inversion Hm as [|? ? Hle Hm']; subst. cbn [fst snd] in Hle.
  cbn [direction_loop]. cbv zeta.
  assert (Hd : (if Qgtb v1 v then 1%Z
                else if Qltb v1 v then (-1)%Z else last) = 0%Z
               \/ (if Qgtb v1 v then 1%Z
                   else if Qltb v1 v then (-1)%Z else last) = 1%Z).
  { destruct (Qgtb v1 v); [right; reflexivity|].
    destruct (Qltb v1 v) eqn:E; [|exact Hl].
    apply Qltb_lt in E. exfalso. apply (Qlt_not_le _ _ E Hle). }
  constructor; [exact Hd|].
  apply (IH v1 c1); [exact Hm' | exact Hd].
Qed.

Lemma direction_loop_never_rises (rest : list Sample) (v c : Q) (last : Z) :
  never_rises ((v, c) :: rest) ->
  last = 0%Z \/ last = (-1)%Z ->
  Forall (fun x => x = 0%Z \/ x = (-1)%Z) (direction_loop v last rest).
Proof.
  revert v c last. induction rest as [|[v1 c1] rest IH]; intros v c last Hm Hl;
    [constructor|].
  unfold never_rises in Hm. cbn [consecutive_pairs tl combine] in Hm.
  inversion Hm as [|? ? Hle Hm']; subst. cbn [fst snd] in Hle.
  cbn [direction_loop]. cbv zeta.
  assert (Hd : (if Qgtb v1 v then 1%Z
                else if Qltb v1 v then (-1)%Z else last) = 0%Z
               \/ (if Qgtb v1 v then 1%Z
                   else if Qltb v1 v then (-1)%Z else last) = (-1)%Z).
  { destruct (Qgtb v1 v) eqn:E.
    - unfold Qgtb in E. apply Qltb_lt in E. exfalso.
      apply (Qlt_not_le _ _ E Hle).
    - destruct (Qltb v1 v); [right; reflexivity | exact Hl]. }
  constructor; [exact Hd|].
  apply (IH v1 c1); [exact Hm' | exact Hd].
Qed.

Lemma no_reversal_single_cycle (self : CVAnalyzer) :
  (2 <= length (voltage_current_data self))%nat ->
  tl (direction_change_indices (direction_changes (voltage_current_data self)))
    = [] ->
  _split_into_cycles self = [voltage_current_data self].
Proof.
  intros Hlen Hrev.
  assert (Hun : unpaired_cycles self = [voltage_current_data self]).
  { unfold unpaired_cycles. rewrite cycle_boundaries_eq, Hrev, firstn_nil.
    cbn [app]. rewrite slices_loop_step.
    assert (Hs : slice 0 (length (voltage_current_data self))
                   (voltage_current_data self) = voltage_current_data self).
    { unfold slice. rewrite Nat.sub_0_r. cbn [skipn]. apply firstn_all. }
    rewrite Hs. apply Nat.leb_le in Hlen. rewrite Hlen. reflexivity. }
  unfold _split_into_cycles.
  destruct (length (voltage_current_data self) <? 2)%nat eqn:E;
    [apply Nat.ltb_lt in E; lia|].
  clear E. rewrite Hun. destruct (_ <? _)%nat; reflexivity.
Qed.

(** A series whose voltage never falls, or never rises, is one cycle: the
    whole series, whatever [segment] says. *)
Theorem monotone_sweep_single_cycle (self : CVAnalyzer) :
  (2 <= length (voltage_current_data self))%nat ->
  never_falls (voltage_current_data self)
  \/ never_rises (voltage_current_data self) ->
  _split_into_cycles self = [voltage_current_data self].
Proof.
  intros Hlen Hmono. apply no_reversal_single_cycle; [exact Hlen|].
  destruct (voltage_current_data self) as [|[v0 c0] rest]; [reflexivity|].
  cbn [direction_changes direction_change_indices tl].
  destruct Hmono as [Hm|Hm].
  - apply (reversal_loop_one_sign 1). constructor; [left; reflexivity|].
    apply (direction_loop_never_falls rest v0 c0); [exact Hm | left; reflexivity].
  - apply (reversal_loop_one_sign (-1)). constructor; [left; reflexivity|].
    apply (direction_loop_never_rises rest v0 c0); [exact Hm | left; reflexivity].
Qed.

Lemma monotone_sweep_single_cycle_witness :
  (2 <= length (voltage_current_data overflow_run))%nat
  /\ _split_into_cycles overflow_run = [voltage_current_data overflow_run].
Proof.
  split; [simpl; lia|].
  apply (monotone_sweep_single_cycle overflow_run).
  - simpl. lia.
  - left. unfold never_falls. simpl. constructor; [|constructor].
    simpl. discriminate.
Defined.

(** ** Per-cycle calculator: further properties *)

Lemma tl_skipn {A : Type} (k : nat) (l : list A) :
  tl (skipn k l) = skipn (S k) l.
Proof.
  revert l. induction k as [|k IH]; intros l.
  - destruct l; reflexivity.
  - destruct l as [|x l]; [reflexivity|]. cbn [skipn]. rewrite IH.
    destruct l; reflexivity.
Qed.

(** The two halves of a cycle overlap in exactly one sample: the forward
    scan followed by the reverse scan without its first sample is the
    cycle again. *)
Theorem split_reassembles (cycle_data forward_scan reverse_scan : list Sample) :
  (2 <= length cycle_data)%nat ->
  _split_forward_reverse cycle_data = (forward_scan, reverse_scan) ->
  forward_scan ++ tl reverse_scan = cycle_data
  /\ (length forward_scan + length reverse_scan = S (length cycle_data))%nat
  /\ last forward_scan (0, 0)%Q = hd (0, 0)%Q reverse_scan.
Proof.
  intros Hlen Hsplit.
  destruct (split_forward_reverse_at_first_max cycle_data Hlen)
    as [k [[Hk _] Heq]].
  rewrite Hsplit in Heq. injection Heq as -> ->.
  split; [|split].
  - rewrite tl_skipn. replace (k + 1)%nat with (S k) by lia.
    apply firstn_skipn.
  - rewrite length_firstn, length_skipn. lia.
  - rewrite <- (firstn_skipn k cycle_data) at 1.
    assert (Hk' : (k <= length cycle_data)%nat) by lia.
    rewrite (firstn_app (k + 1)), length_firstn.
    replace (Nat.min k (length cycle_data)) with k by lia.
    rewrite firstn_firstn. replace (Nat.min (k + 1) k) with k by lia.
    replace (k + 1 - k)%nat with 1%nat by lia.
    destruct (skipn k cycle_data) as [|s rest] eqn:E.
    + exfalso. apply (f_equal (@length _)) in E.
      rewrite length_skipn in E. simpl length in E. lia.
    + cbn [firstn hd]. apply last_last.
Qed.

Lemma split_reassembles_witness :
  (2 <= length upward_cycle)%nat
  /\ [(0, 0); (1 # 2, 1 # 1000000); (1, 0)]%Q ++ tl [(1, 0)]%Q = upward_cycle.
Proof.
  split; [simpl; lia|].
  apply (split_reassembles upward_cycle
           [(0, 0); (1 # 2, 1 # 1000000); (1, 0)]%Q [(1, 0)]%Q).
  - simpl. lia.
  - reflexivity.
Defined.

Lemma py_max_ge (l : list Q) (x : Q) : (x <= py_max x l)%Q.
Proof.
  unfold py_max. revert x. induction l as [|y l IH]; intros x; cbn [fold_left].
  - apply Qle_refl.
  - destruct (Qgtb y x) eqn:E.
    + unfold Qgtb in E. apply Qltb_lt in E.
      apply Qle_trans with y; [apply Qlt_le_weak; exact E | apply IH].
    + apply IH.
Qed.

Lemma py_min_le (l : list Q) (x : Q) : (py_min x l <= x)%Q.
Proof.
  unfold py_min. revert x. induction l as [|y l IH]; intros x; cbn [fold_left].
  - apply Qle_refl.
  - destruct (Qltb y x) eqn:E.
    + apply Qltb_lt in E.
      apply Qle_trans with y; [apply IH | apply Qlt_le_weak; exact E].
    + apply IH.
Qed.

Lemma voltage_range_nonneg (forward_scan : list Sample) :
  (0 <= voltage_range forward_scan)%Q.
Proof.
  unfold voltage_range. destruct (map fst forward_scan) as [|v vs].
  - discriminate.
  - apply (Qplus_le_r _ _ (py_min v vs)). ring_simplify.
    apply Qle_trans with v; [apply py_min_le | apply py_max_ge].
Qed.

Lemma py_div_nonneg (a b q : Q) :
  (0 <= a)%Q -> (0 <= b)%Q -> py_div a b = Ret q -> (0 <= q)%Q.
Proof.
  intros Ha Hb. unfold py_div. destruct (Qeq_bool b 0) eqn:E; [discriminate|].
  intros H. injection H as <-.
  unfold Qdiv. apply Qmult_le_0_compat; [exact Ha|].
  apply Qinv_le_0_compat. exact Hb.
Qed.

(** Whatever the calculator returns has an area that is not negative, for
    any scan rate; with a scan rate above zero (or none in the metadata)
    the capacitance is not negative either. *)
Theorem result_not_negative (self : CVAnalyzer) (n : nat)
    (cycle_data : list Sample) (r : CycleResult) :
  _calculate_cycle_capacitance self n cycle_data = Ret (Some r) ->
  (0 <= area r)%Q
  /\ ((0 < get (scan_rate (metadata self)) (1 # 100))%Q ->
      (0 <= capacitance r)%Q).
Proof.
  unfold _calculate_cycle_capacitance.
  destruct (length cycle_data <? 2)%nat; [discriminate|].
  destruct (has_overflow _ _).
  - intros H. injection H as <-. split; [|intros _]; apply Qle_refl.
  - destruct (_split_forward_reverse cycle_data) as [f rv].
    destruct f as [|f0 fs]; [discriminate|].
    destruct rv as [|r0 rs]; [discriminate|].
    destruct (Qeq_bool _ 0); [discriminate|].
    destruct (py_div _ _) as [c|e] eqn:Ediv; cbn [bind]; [|discriminate].
    intros H. injection H as <-. cbn [area capacitance].
    split; [apply Qabs_nonneg|]. intros Hrate.
    apply (py_div_nonneg _ _ _ (Qabs_nonneg _)) in Ediv; [exact Ediv|].
    apply Qmult_le_0_compat; [|apply voltage_range_nonneg].
    apply Qmult_le_0_compat; [discriminate | apply Qlt_le_weak; exact Hrate].
Qed.

Lemma result_not_negative_witness :
  exists r,
    _calculate_cycle_capacitance default_analyzer 1 upward_cycle
      = Ret (Some r)
    /\ (0 <= area r)%Q /\ (0 <= capacitance r)%Q.
Proof.
  eexists. split; [vm_compute; reflexivity|].
  destruct (result_not_negative default_analyzer 1 upward_cycle _
              ltac:(vm_compute; reflexivity)) as [Harea Hcap].
  split; [exact Harea | apply Hcap; reflexivity].
Defined.

(** A negative scan rate in the export: the area stays non-negative, the
    capacitance does not. *)
Example negative_rate_negative_capacitance :
  let self :=
    mkCVAnalyzer 10 1
      (mkMetadata None None None (Some (- (1 # 100))%Q) None None None)
      [] true in
  let cycle := [(0, 0); (1, 0); (0, 1 # 1000000)]%Q in
  exists r,
    _calculate_cycle_capacitance self 1 cycle = Ret (Some r)
    /\ (0 < area r)%Q /\ (capacitance r < 0)%Q.
Proof.
  cbv zeta. eexists. split; [vm_compute; reflexivity|].
  split; reflexivity.
Qed.

Lemma find_none_forall {A : Type} (f : A -> bool) (l : list A) :
  (forall x, In x l -> f x = false) -> find f l = None.
Proof.
  induction l as [|a l IH]; intros H; [reflexivity|]. cbn [find].
  rewrite (H a (or_introl eq_refl)). apply IH.
  intros x Hx. apply H. right. exact Hx.
Qed.

(** When several reverse samples round to the same voltage, the lookup
    holds the current of the last of them; a voltage no reverse sample
    rounds to is not a key. *)
Theorem reverse_lookup_last_wins (before after : list Sample) (v' i' v : Q) :
  (py_round6 v' == py_round6 v)%Q ->
  (forall s, In s after -> ~ (py_round6 (fst s) == py_round6 v)%Q) ->
  dict_get (py_round6 v) (reverse_dict_of (before ++ (v', i') :: after))
    = Some i'.
Proof.
  intros Hkey Hafter. rewrite reverse_dict_lookup.
  unfold spec_reverse_current. rewrite rev_app_distr. cbn [rev].
  rewrite <- app_assoc, find_app.
  rewrite find_none_forall.
  - cbn [app find fst]. apply Qeq_bool_iff in Hkey. rewrite Hkey. reflexivity.
  - intros s Hs. apply in_rev in Hs.
    destruct (Qeq_bool (py_round6 (fst s)) (py_round6 v)) eqn:E;
      [|reflexivity].
    apply Qeq_bool_iff in E. exfalso. apply (Hafter s Hs E).
Qed.

Lemma reverse_lookup_last_wins_witness :
  (py_round6 1 == py_round6 (10000001 # 10000000))%Q
  /\ dict_get (py_round6 (10000001 # 10000000))
       (reverse_dict_of ([(1, 5)] ++ (1, 7) :: [(0, 9)]))%Q
     = Some 7%Q.
Proof.
  split; [reflexivity|].
  apply (reverse_lookup_last_wins [(1, 5)]%Q [(0, 9)]%Q 1 7
           (10000001 # 10000000)).
  - reflexivity.
  - intros s [<-|[]] H. vm_compute in H. discriminate.
Defined.

(** ** The loop of [analyze] over the cycles *)

Lemma calculator_cycle_num (self : CVAnalyzer) (n : nat)
    (cycle_data : list Sample) (r : CycleResult) :
  _calculate_cycle_capacitance self n cycle_data = Ret (Some r) ->
  cycle_num r = n.
Proof.
  unfold _calculate_cycle_capacitance.
  destruct (length cycle_data <? 2)%nat; [discriminate|].
  destruct (has_overflow _ _); [intros H; injection H as <-; reflexivity|].
  destruct (_split_forward_reverse cycle_data) as [f rv].
  destruct f; [discriminate|]. destruct rv; [discriminate|].
  destruct (Qeq_bool _ 0); [discriminate|].
  destruct (py_div _ _); cbn [bind]; [|discriminate].
  intros H. injection H as <-. reflexivity.
Qed.

Lemma results_loop_numbering (self : CVAnalyzer) (cycles : list (list Sample))
    (n : nat) (caps caps' : list Q) (res res' : list CycleResult) :
  results_loop self n cycles caps res = Ret (caps', res') ->
  exists new,
    res' = res ++ new
    /\ StronglySorted lt (map cycle_num new)
    /\ Forall (fun r =>
                 (n <= cycle_num r < n + length cycles)%nat
                 /\ _calculate_cycle_capacitance self (cycle_num r)
                      (nth (cycle_num r - n) cycles [])
                    = Ret (Some r)) new.
Proof.
  revert n caps res. induction cycles as [|c cycles IH]; intros n caps res Hrun.
  - simpl in Hrun. injection Hrun as <- <-. exists [].
    rewrite app_nil_r. repeat split; constructor.
  - cbn [results_loop] in Hrun.
    destruct (_calculate_cycle_capacitance self n c) as [[r|]|e] eqn:Ec;
      cbn [bind] in Hrun; [ | |discriminate].
    + destruct (IH _ _ _ Hrun) as [new [Heq [Hs HF]]].
      pose proof (calculator_cycle_num _ _ _ _ Ec) as Hn.
      exists (r :: new). split; [rewrite Heq, <- app_assoc; reflexivity|].
      split.
      * cbn [map]. constructor; [exact Hs|].
        apply Forall_forall. intros k Hk. apply in_map_iff in Hk.
        destruct Hk as [r' [<- Hr']]. rewrite Forall_forall in HF.
        destruct (HF r' Hr') as [Hrange _]. lia.
      * constructor.
        -- rewrite Hn. cbn [length]. split; [lia|].
           rewrite Nat.sub_diag. exact Ec.
        -- apply Forall_forall. intros r' Hr'. rewrite Forall_forall in HF.
           destruct (HF r' Hr') as [Hrange Hcalc]. cbn [length].
           split; [lia|].
           replace (cycle_num r' - n)%nat with (S (cycle_num r' - S n)) by lia.
           exact Hcalc.
    + destruct (IH _ _ _ Hrun) as [new [Heq [Hs HF]]].
      exists new. split; [exact Heq|]. split; [exact Hs|].
      apply Forall_forall. intros r' Hr'. rewrite Forall_forall in HF.
      destruct (HF r' Hr') as [Hrange Hcalc]. cbn [length].
      split; [lia|].
      replace (cycle_num r' - n)%nat with (S (cycle_num r' - S n)) by lia.
      exact Hcalc.
Qed.

(** The results that [analyze] collects are numbered by the 1-based
    position of their cycle, in increasing order, and each is what the
    calculator returns for the cycle of that number. *)
Theorem results_numbered_by_cycle (self : CVAnalyzer)
    (cycles : list (list Sample)) (caps : list Q) (res : list CycleResult) :
  results_loop self 1 cycles [] [] = Ret (caps, res) ->
  StronglySorted lt (map cycle_num res)
  /\ (length res <= length cycles)%nat
  /\ Forall (fun r =>
               (1 <= cycle_num r <= length cycles)%nat
               /\ _calculate_cycle_capacitance self (cycle_num r)
                    (nth (cycle_num r - 1) cycles [])
                  = Ret (Some r)) res.
Proof.
  intros Hrun.
  destruct (results_loop_numbering _ _ _ _ _ _ _ Hrun) as [new [Heq [Hs HF]]].
  cbn [app] in Heq. subst new. split; [exact Hs|]. split.
  - assert (Hnd : NoDup (map cycle_num res)).
    { apply StronglySorted_Sorted in Hs.
      clear -Hs. induction (map cycle_num res) as [|x l IH]; [constructor|].
      apply Sorted_StronglySorted in Hs; [|intros a b c; apply Nat.lt_trans].
      inversion Hs as [|? ? Hs' Hall]; subst. constructor.
      - intros Hin. rewrite Forall_forall in Hall. specialize (Hall x Hin). lia.
      - apply IH. apply StronglySorted_Sorted. exact Hs'. }
    assert (Hincl : incl (map cycle_num res) (seq 1 (length cycles))).
    { intros k Hk. apply in_map_iff in Hk. destruct Hk as [r [<- Hr]].
      rewrite Forall_forall in HF. destruct (HF r Hr) as [Hrange _].
      apply in_seq. lia. }
    pose proof (NoDup_incl_length Hnd Hincl) as Hle.
    rewrite length_map, length_seq in Hle. exact Hle.
  - apply Forall_forall. intros r Hr. rewrite Forall_forall in HF.
    destruct (HF r Hr) as [Hrange Hcalc]. split; [lia | exact Hcalc].
Qed.

Lemma results_numbered_by_cycle_witness :
  exists caps res,
    results_loop mixed_run 1 (_split_into_cycles mixed_run) [] []
      = Ret (caps, res)
    /\ StronglySorted lt (map cycle_num res).
Proof.
  eexists. eexists. split; [vm_compute; reflexivity|].
  eapply (results_numbered_by_cycle mixed_run (_split_into_cycles mixed_run)).
  vm_compute. reflexivity.
Defined.

(** ** Robust average: range and errors *)

Lemma in_skipn {A : Type} (k : nat) (l : list A) (x : A) :
  In x (skipn k l) -> In x l.
Proof.
  intros H. rewrite <- (firstn_skipn k l). apply in_or_app. right. exact H.
Qed.

Lemma in_py_slice_from {A : Type} (n : Z) (l : list A) (x : A) :
  In x (py_slice_from n l) -> In x l.
Proof.
  unfold py_slice_from. destruct (n <? 0)%Z; apply in_skipn.
Qed.

Lemma stdev_or_zero (sqrt : Q -> Q) (values : list Q) :
  (if (1 <? length values)%nat then stdev sqrt values else Ret 0%Q)
  = Ret (spec_stdev sqrt values).
Proof.
  unfold spec_stdev, stdev, spec_mean.
  destruct (length values) as [|[|n]] eqn:E; reflexivity.
Qed.

(** On a list that is not empty the robust average is the plain mean of
    some values of the list, at least one. *)
Lemma robust_average_is_mean (sqrt : Q -> Q) (self : CVAnalyzer)
    (values : list Q) :
  values <> [] ->
  exists kept,
    kept <> [] /\ incl kept values
    /\ _calculate_robust_average sqrt self values = Ret (spec_mean kept).
Proof.
  intros Hne. unfold _calculate_robust_average.
  assert (Hall : exists kept, kept <> [] /\ incl kept values
                   /\ Ret (A := Q) (spec_mean values) = Ret (spec_mean kept)).
  { exists values. split; [exact Hne|]. split; [apply incl_refl | reflexivity]. }
  destruct (Z.of_nat (length values) <=? outlier_count self)%Z.
  - rewrite (mean_nonempty values Hne). exact Hall.
  - rewrite (mean_nonempty values Hne). cbn [bind].
    rewrite stdev_or_zero. cbn [bind].
    destruct (Qeq_bool (spec_stdev sqrt values) 0) eqn:E; [exact Hall|].
    assert (Hs : ~ (spec_stdev sqrt values == 0)%Q).
    { intros H. apply Qeq_bool_iff in H. congruence. }
    rewrite (z_scores_of_spec _ _ values Hs). cbn [bind].
    destruct (map snd (py_slice_from (outlier_count self)
                         (sort_reverse
                            (spec_z_scores (spec_mean values)
                               (spec_stdev sqrt values) values))))
      as [|r rs] eqn:Erem; [exact Hall|].
    exists (r :: rs). split; [discriminate|]. split; [|reflexivity].
    intros x Hx. rewrite <- Erem in Hx. apply in_map_iff in Hx.
    destruct Hx as [[z v] [<- Hzv]]. apply in_py_slice_from in Hzv.
    apply (Permutation_in _ (sort_reverse_perm _)) in Hzv.
    unfold spec_z_scores in Hzv. apply in_map_iff in Hzv.
    destruct Hzv as [v' [Heq Hv']]. injection Heq as _ <-. exact Hv'.
Qed.

Lemma fold_sum_bounds (lo hi : Q) (l : list Q) (acc : Q) :
  (forall v, In v l -> lo <= v <= hi)%Q ->
  (acc + inject_Z (Z.of_nat (length l)) * lo <= fold_left Qplus l acc
   /\ fold_left Qplus l acc <= acc + inject_Z (Z.of_nat (length l)) * hi)%Q.
Proof.
  revert acc. induction l as [|x l IH]; intros acc Hb.
  - cbn [fold_left length]. change (inject_Z (Z.of_nat 0)) with 0%Q.
    split; ring_simplify; apply Qle_refl.
  - cbn [fold_left]. destruct (Hb x (or_introl eq_refl)) as [Hlo Hhi].
    destruct (IH (acc + x)%Q (fun v Hv => Hb v (or_intror Hv))) as [IH1 IH2].
    assert (Hn : (inject_Z (Z.of_nat (length (x :: l)))
                  == inject_Z (Z.of_nat (length l)) + 1)%Q).
    { cbn [length]. rewrite Nat2Z.inj_succ. unfold Z.succ.
      rewrite inject_Z_plus. reflexivity. }
    rewrite Hn. split.
    + apply Qle_trans with (acc + x + inject_Z (Z.of_nat (length l)) * lo)%Q;
        [|exact IH1].
      ring_simplify.
      apply Qplus_le_r with (z := (- acc - inject_Z (Z.of_nat (length l)) * lo)%Q).
      ring_simplify. exact Hlo.
    + apply Qle_trans with (acc + x + inject_Z (Z.of_nat (length l)) * hi)%Q;
        [exact IH2|].
      ring_simplify.
      apply Qplus_le_r with (z := (- acc - inject_Z (Z.of_nat (length l)) * hi)%Q).
      ring_simplify. exact Hhi.
Qed.

Lemma length_pos_Q {A : Type} (l : list A) :
  l <> [] -> (0 < inject_Z (Z.of_nat (length l)))%Q.
Proof.
  intros Hne. destruct l as [|x l]; [congruence|].
  unfold Qlt. simpl. lia.
Qed.

Lemma mean_bounds (lo hi : Q) (l : list Q) :
  l <> [] ->
  (forall v, In v l -> lo <= v <= hi)%Q ->
  (lo <= spec_mean l <= hi)%Q.
Proof.
  intros Hne Hb. unfold spec_mean, py_sum.
  destruct (fold_sum_bounds lo hi l 0 Hb) as [H1 H2].
  pose proof (length_pos_Q l Hne) as Hpos. split.
  - apply Qle_shift_div_l; [exact Hpos|].
    apply Qle_trans with (0 + inject_Z (Z.of_nat (length l)) * lo)%Q;
      [|exact H1].
    ring_simplify. apply Qle_refl.
  - apply Qle_shift_div_r; [exact Hpos|].
    apply Qle_trans with (0 + inject_Z (Z.of_nat (length l)) * hi)%Q;
      [exact H2|].
    ring_simplify. apply Qle_refl.
Qed.

(** On a list that is not empty the robust average never fails and lies
    between the smallest and the largest value, for every [outlier_count]
    (negative ones included) and whatever the square root returns. *)
Theorem robust_average_within_range (sqrt : Q -> Q) (self : CVAnalyzer)
    (values : list Q) (lo hi : Q) :
  values <> [] ->
  (forall v, In v values -> lo <= v <= hi)%Q ->
  exists m,
    _calculate_robust_average sqrt self values = Ret m
    /\ (lo <= m <= hi)%Q.
Proof.
  intros Hne Hb.
  destruct (robust_average_is_mean sqrt self values Hne)
    as [kept [Hk [Hincl Heq]]].
  exists (spec_mean kept). split; [exact Heq|].
  apply mean_bounds; [exact Hk|]. intros v Hv. apply Hb. apply Hincl. exact Hv.
Qed.

Lemma robust_average_within_range_witness :
  [1; 1; 1; 10]%Q <> []
  /\ exists m,
       _calculate_robust_average sqrt_approx default_analyzer [1; 1; 1; 10]%Q
         = Ret m
       /\ (1 <= m <= 10)%Q.
Proof.
  split; [discriminate|].
  apply (robust_average_within_range sqrt_approx default_analyzer
           [1; 1; 1; 10]%Q 1 10).
  - discriminate.
  - intros v [<-|[<-|[<-|[<-|[]]]]]; split; discriminate.
Defined.

(** The robust average fails on the empty list only, and then with
    [StatisticsError]: it never divides by zero. *)
Theorem robust_average_fails_on_empty_only (sqrt : Q -> Q) (self : CVAnalyzer)
    (values : list Q) (e : exn) :
  _calculate_robust_average sqrt self values = Raise e
  <-> values = [] /\ e = StatisticsError.
Proof.
  split.
  - intros Hraise. destruct values as [|v values].
    + split; [reflexivity|]. revert Hraise. unfold _calculate_robust_average.
      destruct (_ <=? _)%Z; cbn [mean bind]; intros H; injection H as <-;
        reflexivity.
    + exfalso.
      destruct (robust_average_is_mean sqrt self (v :: values))
        as [kept [_ [_ Heq]]]; [discriminate|].
      rewrite Heq in Hraise. discriminate.
  - intros [-> ->]. unfold _calculate_robust_average.
    destruct (_ <=? _)%Z; reflexivity.
Qed.

(** ** The command-line analysis: how it ends *)

Lemma split_into_cycles_nil (self : CVAnalyzer) :
  _split_into_cycles self = [] <->
  (length (voltage_current_data self) < 2)%nat.
Proof.
  unfold _split_into_cycles. split.
  - destruct (length (voltage_current_data self) <? 2)%nat eqn:E;
      [intros _; apply Nat.ltb_lt; exact E|].
    apply Nat.ltb_ge in E. pose proof (unpaired_cycles_nonempty self E) as Hne.
    destruct (_ <? length (unpaired_cycles self))%nat; [|contradiction].
    destruct (pair_loop (unpaired_cycles self)); [contradiction | discriminate].
  - intros H. apply Nat.ltb_lt in H. rewrite H. reflexivity.
Qed.

Lemma split_cycles_long (self : CVAnalyzer) :
  Forall (fun c => 2 <= length c)%nat (_split_into_cycles self).
Proof.
  pose proof (unpaired_cycles_long self) as Hlong.
  unfold _split_into_cycles.
  destruct (length (voltage_current_data self) <? 2)%nat; [constructor|].
  destruct (_ <? length (unpaired_cycles self))%nat; [|exact Hlong].
  destruct (pair_loop (unpaired_cycles self)) as [|p ps] eqn:Ep; [exact Hlong|].
  rewrite <- Ep.
  pose proof (pair_loop_long (length (unpaired_cycles self)) _
                (Nat.le_refl _) Hlong) as Hpair.
  apply Forall_forall. intros c Hc. rewrite Forall_forall in Hpair.
  specialize (Hpair c Hc). simpl in Hpair. lia.
Qed.

(** Once there are cycles, [analyze] ends in one of three ways only. *)
Lemma analyze_with_cycles (sqrt : Q -> Q) (self : CVAnalyzer)
    (s : Sample) (data : list Sample) (c : list Sample)
    (cycles : list (list Sample)) :
  is_cv self = true ->
  voltage_current_data self = s :: data ->
  _split_into_cycles self = c :: cycles ->
  analyze sqrt self =
    ('(capacitances, cycle_results) <-
       results_loop self 1 (c :: cycles) [] [] ;;
     match capacitances with
     | [] => Ret AllCyclesIgnored
     | c0 :: cs =>
         avg <- _calculate_robust_average sqrt self capacitances ;;
         if (1 <? length capacitances)%nat then
           sd <- (if (1 <? length capacitances)%nat
                  then stdev sqrt capacitances else Ret 0%Q) ;;
           ratio <- py_div sd avg ;;
           Ret (Analyzed
                  (mkReport cycle_results (length capacitances) avg
                     (Some (mkDispersion (py_min c0 cs) (py_max c0 cs)
                              sd (ratio * 100)%Q))))
         else
           Ret (Analyzed
                  (mkReport cycle_results (length capacitances) c0 None))
     end).
Proof.
  intros Hcv Hdata Hsplit. unfold analyze.
  rewrite Hcv, Hdata, Hsplit. reflexivity.
Qed.

(** [analyze] gives up with "cannot split the cycles" exactly when a
    recognised export holds a single sample. *)
Theorem cannot_split_iff_single_sample (sqrt : Q -> Q) (self : CVAnalyzer) :
  analyze sqrt self = Ret CannotSplitCycles
  <-> is_cv self = true /\ length (voltage_current_data self) = 1%nat.
Proof.
  split.
  - intros H. destruct (is_cv self) eqn:Hcv;
      [|unfold analyze in H; rewrite Hcv in H; discriminate].
    split; [reflexivity|].
    destruct (voltage_current_data self) as [|s data] eqn:Hdata;
      [unfold analyze in H; rewrite Hcv, Hdata in H; discriminate|].
    destruct (_split_into_cycles self) as [|c cycles] eqn:Hsplit.
    + apply split_into_cycles_nil in Hsplit. rewrite Hdata in Hsplit.
      simpl in *. lia.
    + exfalso. rewrite (analyze_with_cycles sqrt self s data c cycles) in H;
        try assumption.
      destruct (results_loop self 1 (c :: cycles) [] []) as [[caps res]|e];
        cbn [bind] in H; [|discriminate].
      destruct caps as [|c0 cs]; [discriminate|].
      destruct (_calculate_robust_average sqrt self (c0 :: cs));
        cbn [bind] in H; [|discriminate].
      destruct (1 <? length (c0 :: cs))%nat; [|discriminate].
      destruct (stdev sqrt (c0 :: cs)); cbn [bind] in H; [|discriminate].
      destruct (py_div _ _); cbn [bind] in H; discriminate.
  - intros [Hcv Hlen]. unfold analyze. rewrite Hcv. cbn [negb].
    destruct (voltage_current_data self) as [|s data] eqn:Hdata;
      [simpl in Hlen; lia|].
    assert (Hnil : _split_into_cycles self = []).
    { apply split_into_cycles_nil. rewrite Hdata. simpl in *. lia. }
    rewrite Hnil. reflexivity.
Qed.





Example zero_rate_run_ignored (sqrt : Q -> Q) :
  analyze sqrt zero_rate_run = Ret AllCyclesIgnored.
Proof. reflexivity. Qed.

Lemma results_loop_all_overflow (self : CVAnalyzer)
    (cycles : list (list Sample)) (n : nat) (caps : list Q)
    (res : list CycleResult) :
  Forall (fun c => (2 <= length c)%nat /\ overflows self c) cycles ->
  exists res',
    results_loop self n cycles caps res
      = Ret (caps ++ repeat 0%Q (length cycles), res').
Proof.
  revert n caps res. induction cycles as [|c cycles IH]; intros n caps res HF.
  - exists res. cbn [results_loop length repeat]. rewrite app_nil_r. reflexivity.
  - inversion HF as [|? ? [Hlen Hov] HF']; subst.
    cbn [results_loop]. rewrite (overflow_result self n c Hlen Hov).
    cbn [bind capacitance].
    destruct (IH (S n) (caps ++ [0%Q]) (res ++ [mkCycleResult n 0 0 true
                (Some current_overflow)
                (Some (overflow_warning (sensitivity_threshold_factor self)))])
                HF') as [res' Hres'].
    exists res'. rewrite Hres', <- app_assoc. reflexivity.
Qed.

(** When every cycle overflows and there are two or more of them, the
    command-line analysis ends in a division by zero: the average of the
    zeros is the divisor of the variation coefficient. *)
Theorem all_overflow_divides_by_zero (sqrt : Q -> Q) (self : CVAnalyzer)
    (c1 c2 : list Sample) (cycles : list (list Sample)) :
  is_cv self = true ->
  _split_into_cycles self = c1 :: c2 :: cycles ->
  Forall (overflows self) (c1 :: c2 :: cycles) ->
  analyze sqrt self = Raise ZeroDivisionError.
Proof.
  intros Hcv Hsplit Hov.
  destruct (voltage_current_data self) as [|s data] eqn:Hdata.
  { exfalso.
    assert (H : _split_into_cycles self = [])
      by (apply split_into_cycles_nil; rewrite Hdata; simpl; lia).
    congruence. }
  rewrite (analyze_with_cycles sqrt self s data c1 (c2 :: cycles));
    try assumption.
  assert (HF : Forall (fun c => (2 <= length c)%nat /\ overflows self c)
                 (c1 :: c2 :: cycles)).
  { pose proof (split_cycles_long self) as Hlong. rewrite Hsplit in Hlong.
    apply Forall_forall. intros c Hc. rewrite Forall_forall in Hlong, Hov.
    split; [apply Hlong | apply Hov]; exact Hc. }
  destruct (results_loop_all_overflow self _ 1 [] [] HF) as [res Hres].
  rewrite Hres. cbn [bind app length repeat].
  set (zeros := (0 :: 0 :: repeat 0 (length cycles))%Q).
  assert (Hz : forall v, In v zeros -> (0 <= v <= 0)%Q).
  { intros v [<-|[<-|Hv]]; try (split; apply Qle_refl).
    apply repeat_spec in Hv. subst v. split; apply Qle_refl. }
  destruct (robust_average_is_mean sqrt self zeros ltac:(discriminate))
    as [kept [Hk [Hincl Heq]]].
  rewrite Heq. cbn [bind].
  assert (Hm : (spec_mean kept == 0)%Q).
  { destruct (mean_bounds 0 0 kept Hk) as [H1 H2].
    - intros v Hv. apply Hz. apply Hincl. exact Hv.
    - apply Qle_antisym; assumption. }
  change (length zeros) with (S (S (length (repeat 0%Q (length cycles))))).
  cbn [Nat.ltb Nat.leb].
  assert (Hsd : exists sd, stdev sqrt zeros = Ret sd).
  { unfold stdev. subst zeros. cbn [length Nat.ltb Nat.leb]. eexists. reflexivity. }
  destruct Hsd as [sd Hsd]. rewrite Hsd. cbn [bind].
  unfold py_div. apply Qeq_bool_iff in Hm. rewrite Hm. reflexivity.
Qed.

Lemma all_overflow_divides_by_zero_witness :
  is_cv double_overflow_run = true
  /\ analyze sqrt_approx double_overflow_run = Raise ZeroDivisionError.
Proof.
  split; [reflexivity|].
  apply (all_overflow_divides_by_zero sqrt_approx double_overflow_run
           (slice 0 5 (voltage_current_data double_overflow_run))
           (slice 5 9 (voltage_current_data double_overflow_run)) []).
  - reflexivity.
  - reflexivity.
  - constructor; [|constructor; [|constructor]].
    + apply has_overflow_true. reflexivity.
    + apply has_overflow_true. reflexivity.
Defined.

Lemma py_min_le_all (l : list Q) (x y : Q) :
  In y (x :: l) -> (py_min x l <= y)%Q.
Proof.
  revert x y. induction l as [|z l IH]; intros x y Hin.
  - destruct Hin as [<-|[]]. apply Qle_refl.
  - change (py_min x (z :: l)) with (py_min (if Qltb z x then z else x) l).
    destruct Hin as [Hy|[Hy|Hin]].
    + subst y. apply Qle_trans with (if Qltb z x then z else x);
        [apply py_min_le|].
      destruct (Qltb z x) eqn:E; [|apply Qle_refl].
      apply Qlt_le_weak. apply Qltb_lt. exact E.
    + subst y. apply Qle_trans with (if Qltb z x then z else x);
        [apply py_min_le|].
      destruct (Qltb z x) eqn:E; [apply Qle_refl|].
      apply Qltb_ge. exact E.
    + apply IH. right. exact Hin.
Qed.

Lemma py_max_ge_all (l : list Q) (x y : Q) :
  In y (x :: l) -> (y <= py_max x l)%Q.
Proof.
  revert x y. induction l as [|z l IH]; intros x y Hin.
  - destruct Hin as [<-|[]]. apply Qle_refl.
  - change (py_max x (z :: l)) with (py_max (if Qgtb z x then z else x) l).
    destruct Hin as [Hy|[Hy|Hin]].
    + subst y. apply Qle_trans with (if Qgtb z x then z else x);
        [|apply py_max_ge].
      destruct (Qgtb z x) eqn:E; [|apply Qle_refl].
      apply Qlt_le_weak. unfold Qgtb in E. apply Qltb_lt. exact E.
    + subst y. apply Qle_trans with (if Qgtb z x then z else x);
        [|apply py_max_ge].
      destruct (Qgtb z x) eqn:E; [apply Qle_refl|].
      unfold Qgtb in E. apply Qltb_ge. exact E.
    + apply IH. right. exact Hin.
Qed.

(** A run that ends normally counts every collected result as a valid
    cycle, flagged ones included; the average it reports lies between the
    minimum and the maximum it reports, and with a single result it is
    that result's capacitance. *)
Theorem report_is_consistent (sqrt : Q -> Q) (self : CVAnalyzer)
    (report : Report) :
  analyze sqrt self = Ret (Analyzed report) ->
  valid_cycles report = length (results report)
  /\ (1 <= valid_cycles report)%nat
  /\ match dispersion report with
     | Some d =>
         (2 <= valid_cycles report)%nat
         /\ (minimum d <= avg_capacitance report <= maximum d)%Q
     | None =>
         exists r, results report = [r]
                   /\ avg_capacitance report = capacitance r
     end.
Proof.
  intros H. unfold analyze in H.
  destruct (negb (is_cv self)); [discriminate|].
  destruct (voltage_current_data self); [discriminate|].
  destruct (_split_into_cycles self) as [|c cycles]; [discriminate|].
  destruct (results_loop self 1 (c :: cycles) [] []) as [[caps res]|e] eqn:Erun;
    cbn [bind] in H; [|discriminate].
  pose proof (results_loop_capacitances _ _ _ _ _ _ _ Erun eq_refl) as Hcaps.
  destruct caps as [|c0 cs]; [discriminate|].
  assert (Hcount : length (c0 :: cs) = length res)
    by (rewrite Hcaps; apply length_map).
  destruct (robust_average_is_mean sqrt self (c0 :: cs) ltac:(discriminate))
    as [kept [Hk [Hincl Heq]]].
  rewrite Heq in H. cbn [bind] in H.
  destruct (1 <? length (c0 :: cs))%nat eqn:Elen.
  - destruct (stdev sqrt (c0 :: cs)); cbn [bind] in H; [|discriminate].
    destruct (py_div _ _); cbn [bind] in H; [|discriminate].
    injection H as <-. cbn [valid_cycles results dispersion avg_capacitance
                              minimum maximum].
    apply Nat.ltb_lt in Elen.
    split; [exact Hcount|]. cbn [length] in Elen |- *.
    split; [lia|]. split; [lia|].
    apply mean_bounds; [exact Hk|]. intros v Hv. apply Hincl in Hv.
    split; [apply py_min_le_all | apply py_max_ge_all]; exact Hv.
  - injection H as <-. cbn [valid_cycles results dispersion avg_capacitance].
    apply Nat.ltb_ge in Elen.
    split; [exact Hcount|].
    split; [cbn [length]; lia|].
    destruct res as [|r [|r' res]]; cbn [map] in Hcaps; try discriminate.
    + exists r. injection Hcaps as ->. split; reflexivity.
    + exfalso. injection Hcaps as _ Hcs. subst cs. cbn [length] in Elen. lia.
Qed.

Lemma report_is_consistent_witness :
  exists report,
    analyze sqrt_approx overflow_run = Ret (Analyzed report)
    /\ valid_cycles report = length (results report).
Proof.
  eexists. split; [reflexivity|].
  eapply (report_is_consistent sqrt_approx overflow_run). reflexivity.
Defined.

(** ** The desktop front end *)

Lemma valid_capacitances_app (res : list CycleResult) (r : CycleResult) :
  _get_valid_capacitances (res ++ [r]) =
    _get_valid_capacitances res
    ++ (if negb (is_outlier r) && Qgtb (capacitance r) 0
        then [capacitance r] else []).
Proof.
  unfold _get_valid_capacitances. rewrite filter_app, map_app. cbn [filter].
  destruct (negb (is_outlier r) && Qgtb (capacitance r) 0); reflexivity.
Qed.

Lemma gui_loop_as_results_loop (analyzer : CVAnalyzer)
    (cycles : list (list Sample)) (n : nat) (caps : list Q)
    (res : list CycleResult) :
  gui_results_loop analyzer n cycles (_get_valid_capacitances res) res =
    ('(_, res') <- results_loop analyzer n cycles caps res ;;
     Ret (_get_valid_capacitances res', res')).
Proof.
  revert n caps res. induction cycles as [|c cycles IH]; intros n caps res.
  - reflexivity.
  - cbn [gui_results_loop results_loop].
    destruct (_calculate_cycle_capacitance analyzer n c) as [[r|]|e];
      cbn [bind]; [ | |reflexivity].
    + rewrite <- (IH (S n) (caps ++ [capacitance r]) (res ++ [r])).
      rewrite valid_capacitances_app.
      destruct (negb (is_outlier r) && Qgtb (capacitance r) 0);
        [reflexivity | rewrite app_nil_r; reflexivity].
    + apply IH.
Qed.

(** The front end collects the same results as the command line, cycle by
    cycle, and fails where it fails; the capacitances it keeps beside them
    are the valid ones of these results. *)
Theorem gui_loop_keeps_valid_capacitances (analyzer : CVAnalyzer)
    (cycles : list (list Sample)) :
  gui_results_loop analyzer 1 cycles [] [] =
    ('(_, res) <- results_loop analyzer 1 cycles [] [] ;;
     Ret (_get_valid_capacitances res, res)).
Proof. apply (gui_loop_as_results_loop analyzer cycles 1 [] []). Qed.

Lemma calculator_outlier_zero (self : CVAnalyzer) (n : nat)
    (cycle_data : list Sample) (r : CycleResult) :
  _calculate_cycle_capacitance self n cycle_data = Ret (Some r) ->
  is_outlier r = true -> capacitance r = 0%Q.
Proof.
  unfold _calculate_cycle_capacitance.
  destruct (length cycle_data <? 2)%nat; [discriminate|].
  destruct (has_overflow _ _); [intros H; injection H as <-; reflexivity|].
  destruct (_split_forward_reverse cycle_data) as [f rv].
  destruct f; [discriminate|]. destruct rv; [discriminate|].
  destruct (Qeq_bool _ 0); [discriminate|].
  destruct (py_div _ _); cbn [bind]; [|discriminate].
  intros H. injection H as <-. discriminate.
Qed.

(** For the results the front end collects, the positive capacitances that
    the table and the plot list for the unit choice are the valid
    capacitances: a flagged result never has a positive capacitance. *)
Theorem positive_capacitances_are_valid (analyzer : CVAnalyzer)
    (cycles : list (list Sample)) (caps : list Q) (res : list CycleResult) :
  gui_results_loop analyzer 1 cycles [] [] = Ret (caps, res) ->
  positive_capacitances res = _get_valid_capacitances res
  /\ caps = _get_valid_capacitances res.
Proof.
  intros Hgui.
  pose proof (gui_loop_as_results_loop analyzer cycles 1 [] []) as Heq.
  change (_get_valid_capacitances []) with (@nil Q) in Heq.
  rewrite Hgui in Heq.
  destruct (results_loop analyzer 1 cycles [] []) as [[caps' res']|e] eqn:Erun;
    cbn [bind] in Heq; [|discriminate].
  injection Heq as -> ->. split; [|reflexivity].
  destruct (results_loop_numbering _ _ _ _ _ _ _ Erun) as [new [Hnew [_ HF]]].
  cbn [app] in Hnew. subst new.
  unfold positive_capacitances, _get_valid_capacitances. f_equal.
  apply filter_ext_in. intros r Hr. rewrite Forall_forall in HF.
  destruct (HF r Hr) as [_ Hcalc].
  destruct (is_outlier r) eqn:Eo; [|reflexivity].
  rewrite (calculator_outlier_zero _ _ _ _ Hcalc Eo). reflexivity.
Qed.

Lemma positive_capacitances_are_valid_witness :
  exists caps res,
    gui_results_loop mixed_run 1 (_split_into_cycles mixed_run) [] []
      = Ret (caps, res)
    /\ positive_capacitances res = _get_valid_capacitances res.
Proof.
  eexists. eexists. split; [vm_compute; reflexivity|].
  eapply (positive_capacitances_are_valid mixed_run
            (_split_into_cycles mixed_run)).
  vm_compute. reflexivity.
Defined.

Lemma valid_capacitances_positive (cycle_results : list CycleResult) (v : Q) :
  In v (_get_valid_capacitances cycle_results) -> (0 < v)%Q.
Proof.
  unfold _get_valid_capacitances. intros H. apply in_map_iff in H.
  destruct H as [r [<- Hr]]. apply filter_In in Hr. destruct Hr as [_ Hr].
  apply andb_true_iff in Hr. destruct Hr as [_ Hr].
  unfold Qgtb in Hr. apply Qltb_lt. exact Hr.
Qed.

Lemma py_min_in (l : list Q) (x : Q) : In (py_min x l) (x :: l).
Proof.
  revert x. induction l as [|z l IH]; intros x; [left; reflexivity|].
  change (py_min x (z :: l)) with (py_min (if Qltb z x then z else x) l).
  destruct (IH (if Qltb z x then z else x)) as [H|H].
  - rewrite <- H. destruct (Qltb z x); [right; left | left]; reflexivity.
  - right. right. exact H.
Qed.

Lemma py_div_ret (a b : Q) :
  ~ (b == 0)%Q -> py_div a b = Ret (a / b)%Q.
Proof.
  intros Hb. unfold py_div. destruct (Qeq_bool b 0) eqn:E; [|reflexivity].
  apply Qeq_bool_iff in E. contradiction.
Qed.

Lemma area_given_nonzero (a : Q) :
  area_given (Some a) = true -> ~ (a == 0)%Q.
Proof.
  cbn [area_given]. intros H Ha. apply Qeq_bool_iff in Ha.
  rewrite Ha in H. discriminate.
Qed.

(** The robust average of positive values is positive. *)
Lemma robust_average_positive (sqrt : Q -> Q) (self : CVAnalyzer)
    (values : list Q) :
  values <> [] ->
  (forall v, In v values -> 0 < v)%Q ->
  exists m, _calculate_robust_average sqrt self values = Ret m /\ (0 < m)%Q.
Proof.
  intros Hne Hpos. destruct values as [|x l]; [congruence|].
  destruct (robust_average_is_mean sqrt self (x :: l) Hne)
    as [kept [Hk [Hincl Heq]]].
  exists (spec_mean kept). split; [exact Heq|].
  apply Qlt_le_trans with (py_min x l); [apply Hpos; apply py_min_in|].
  apply (mean_bounds (py_min x l) (py_max x l) kept Hk).
  intros v Hv. apply Hincl in Hv.
  split; [apply py_min_le_all | apply py_max_ge_all]; exact Hv.
Qed.

(** Whatever the results, the area and the analyzer settings, the summary
    text is computed without an error: its divisors are the area, tested
    before, and the average of positive capacitances.  The counts it shows
    add up. *)
Theorem result_text_never_fails (sqrt : Q -> Q)
    (cycle_results : list CycleResult) (analyzer : CVAnalyzer)
    (electrode_area : option Q) :
  exists text,
    update_result_text sqrt cycle_results analyzer electrode_area = Ret text
    /\ total_cycles text = length cycle_results
    /\ shown_valid_cycles text
       = length (_get_valid_capacitances cycle_results)
    /\ (0 <= excluded_cycles text)%Z
    /\ (Z.of_nat (total_cycles text)
        = Z.of_nat (shown_valid_cycles text) + excluded_cycles text)%Z.
Proof.
  assert (Hcount : (length (_get_valid_capacitances cycle_results)
                    <= length cycle_results)%nat).
  { unfold _get_valid_capacitances. rewrite length_map. apply filter_length_le. }
  assert (Hfields : forall f : Figures,
            exists text,
              Ret (mkResultText (length cycle_results)
                     (length (_get_valid_capacitances cycle_results))
                     (Z.of_nat (length cycle_results)
                      - Z.of_nat (length (_get_valid_capacitances cycle_results)))
                     (outlier_count analyzer) f) = Ret text
              /\ total_cycles text = length cycle_results
              /\ shown_valid_cycles text
                 = length (_get_valid_capacitances cycle_results)
              /\ (0 <= excluded_cycles text)%Z
              /\ (Z.of_nat (total_cycles text)
                  = Z.of_nat (shown_valid_cycles text) + excluded_cycles text)%Z).
  { intros f. eexists. split; [reflexivity|]. cbn. repeat split; lia. }
  unfold update_result_text.
  pose proof (valid_capacitances_positive cycle_results) as Hpos.
  destruct (_get_valid_capacitances cycle_results) as [|c0 cs] eqn:Ev.
  - cbn [length Nat.ltb Nat.leb]. apply Hfields.
  - destruct (1 <? length (c0 :: cs))%nat eqn:Elen.
    + destruct (robust_average_positive sqrt analyzer (c0 :: cs)
                  ltac:(discriminate) Hpos) as [m [Hm Hmpos]].
      rewrite Hm. cbn [bind].
      assert (Hm0 : ~ (m == 0)%Q).
      { intros H. rewrite H in Hmpos. apply (Qlt_irrefl _ Hmpos). }
      assert (Hsd : exists sd, stdev sqrt (c0 :: cs) = Ret sd).
      { unfold stdev. apply Nat.ltb_lt in Elen.
        destruct (length (c0 :: cs) <? 2)%nat eqn:E2;
          [apply Nat.ltb_lt in E2; lia|]. eexists. reflexivity. }
      destruct Hsd as [sd Hsd].
      cbn [py_min_list py_max_list bind]. rewrite Hsd. cbn [bind].
      rewrite (py_div_ret sd m Hm0). cbn [bind].
      destruct electrode_area as [a|]; [|apply Hfields].
      destruct (area_given (Some a)) eqn:Ea; [|apply Hfields].
      pose proof (area_given_nonzero a Ea) as Ha.
      rewrite !(py_div_ret _ a Ha). cbn [bind]. apply Hfields.
    + destruct cs as [|c1 cs]; [|cbn [length] in Elen; discriminate].
      destruct electrode_area as [a|]; [|apply Hfields].
      destruct (area_given (Some a)) eqn:Ea; [|apply Hfields].
      rewrite (py_div_ret _ a (area_given_nonzero a Ea)). cbn [bind].
      apply Hfields.
Qed.

Lemma div_all_map (l : list Q) (a : Q) :
  ~ (a == 0)%Q -> div_all l a = Ret (map (fun c => c / a)%Q l).
Proof.
  intros Ha. induction l as [|c l IH]; [reflexivity|].
  cbn [div_all map]. rewrite (py_div_ret c a Ha). cbn [bind].
  rewrite IH. reflexivity.
Qed.

Lemma unit_for_fits (m : Q) (u d : string) (f c : Q) :
  unit_for (m * 1000000000) = (u, f, d) ->
  (m <= c)%Q ->
  u = d /\ (f = 1000000000%Q \/ (1 < c * f)%Q).
Proof.
  unfold unit_for. intros H Hle.
  destruct (Qgtb (m * 1000000000) (1000 * 1000)) eqn:E1.
  - injection H as <- <- <-. split; [reflexivity|]. right.
    unfold Qgtb in E1. apply Qltb_lt in E1. lra.
  - destruct (Qgtb (m * 1000000000) 1000) eqn:E2.
    + injection H as <- <- <-. split; [reflexivity|]. right.
      unfold Qgtb in E2. apply Qltb_lt in E2. lra.
    + injection H as <- <- <-. split; [reflexivity|]. left. reflexivity.
Qed.

Lemma unit_for_names (m : Q) (u d : string) (f : Q) :
  unit_for (m * 1000000000) = (u, f, d) ->
  ((u = "mF"%string /\ f = 1000%Q)
   \/ (u = "µF"%string /\ f = 1000000%Q)
   \/ (u = "nF"%string /\ f = 1000000000%Q))
  /\ (u = "mF"%string -> (1 < m * 1000)%Q)
  /\ (u <> "mF"%string -> (m * 1000 <= 1)%Q)
  /\ (u = "nF"%string -> (m * 1000000 <= 1)%Q).
Proof.
  unfold unit_for. intros H.
  destruct (Qgtb (m * 1000000000) (1000 * 1000)) eqn:E1.
  - injection H as <- <- <-. unfold Qgtb in E1. apply Qltb_lt in E1.
    split; [left; split; reflexivity|].
    split; [intros _; lra|]. split; [congruence | discriminate].
  - unfold Qgtb in E1. apply Qltb_ge in E1.
    destruct (Qgtb (m * 1000000000) 1000) eqn:E2.
    + injection H as <- <- <-.
      split; [right; left; split; reflexivity|].
      split; [discriminate|]. split; [intros _; lra | discriminate].
    + injection H as <- <- <-. unfold Qgtb in E2. apply Qltb_ge in E2.
      split; [right; right; split; reflexivity|].
      split; [discriminate|]. split; intros _; lra.
Qed.

(** The unit choice never fails and returns one of mF (factor 1e3), µF
    (1e6) and nF (1e9), the display name being the unit; with no
    capacitance it returns nF.  When it picks mF or µF, every capacitance
    it looked at (the valid ones, or all positive ones when none is valid;
    divided by the area when the choice is per area) shows as a number
    above 1 in that unit; it passes over mF only if some capacitance is at
    most 1 mF, and settles on nF only if some capacitance is at most
    1 µF. *)
Theorem unit_fits_smallest (cycle_results : list CycleResult)
    (capacitances : list Q) (analyzer : CVAnalyzer)
    (electrode_area : option Q) (use_specific : bool) :
  let basis :=
    match _get_valid_capacitances cycle_results with
    | [] => capacitances
    | valid => valid
    end in
  let shown c :=
    match electrode_area with
    | Some a =>
        if use_specific && area_given electrode_area then (c / a)%Q else c
    | None => c
    end in
  exists u f,
    get_capacitance_unit cycle_results capacitances analyzer electrode_area
      use_specific = Ret (u, f, u)
    /\ ((u = "mF"%string /\ f = 1000%Q)
        \/ (u = "µF"%string /\ f = 1000000%Q)
        \/ (u = "nF"%string /\ f = 1000000000%Q))
    /\ (capacitances = [] -> u = "nF"%string /\ f = 1000000000%Q)
    /\ (capacitances <> [] ->
        (forall c, In c basis -> f = 1000000000%Q \/ (1 < shown c * f)%Q)
        /\ (u <> "mF"%string ->
            exists c, In c basis /\ (shown c * 1000 <= 1)%Q)
        /\ (u = "nF"%string ->
            exists c, In c basis /\ (shown c * 1000000 <= 1)%Q)).
Proof.
  intros basis shown. unfold get_capacitance_unit.
  destruct capacitances as [|c0 cs] eqn:Ecaps.
  { eexists. eexists. split; [reflexivity|].
    split; [right; right; split; reflexivity|].
    split; [intros _; split; reflexivity|]. intros H. congruence. }
  assert (Hbasis : exists x l, basis = x :: l).
  { unfold basis. destruct (_get_valid_capacitances cycle_results) as [|v vs];
      eauto. }
  destruct Hbasis as [x [l Hxl]].
  assert (Hb : match _get_valid_capacitances cycle_results with
               | [] => c0 :: cs
               | _ :: _ => _get_valid_capacitances cycle_results
               end = x :: l).
  { unfold basis in Hxl.
    destruct (_get_valid_capacitances cycle_results); exact Hxl. }
  rewrite Hb. rewrite Hxl.
  assert (Hgen : forall (g : Q -> Q),
            exists u f,
              Ret (unit_for (py_min (g x) (map g l) * 1000000000))
                = Ret (u, f, u)
              /\ ((u = "mF"%string /\ f = 1000%Q)
                  \/ (u = "µF"%string /\ f = 1000000%Q)
                  \/ (u = "nF"%string /\ f = 1000000000%Q))
              /\ (forall c, In c (x :: l) ->
                            f = 1000000000%Q \/ (1 < g c * f)%Q)
              /\ (u <> "mF"%string ->
                  exists c, In c (x :: l) /\ (g c * 1000 <= 1)%Q)
              /\ (u = "nF"%string ->
                  exists c, In c (x :: l) /\ (g c * 1000000 <= 1)%Q)).
  { intros g.
    destruct (unit_for (py_min (g x) (map g l) * 1000000000))
      as [[u f] d] eqn:Eu.
    exists u, f.
    destruct (unit_for_fits _ _ _ _ _ Eu (Qle_refl _)) as [<- _].
    destruct (unit_for_names _ _ _ _ Eu) as [Hname [_ [Hnot Hnf]]].
    assert (Hmin : exists c, In c (x :: l)
                             /\ g c = py_min (g x) (map g l)).
    { pose proof (py_min_in (map g l) (g x)) as Hin.
      change (g x :: map g l) with (map g (x :: l)) in Hin.
      apply in_map_iff in Hin. destruct Hin as [c [Hc Hin]]. eauto. }
    destruct Hmin as [cm [Hcm Hgcm]].
    split; [reflexivity|]. split; [exact Hname|]. split; [|split].
    - intros c Hc. apply (unit_for_fits _ _ _ _ (g c) Eu).
      apply py_min_le_all.
      change (g x :: map g l) with (map g (x :: l)).
      apply in_map_iff. exists c. split; [reflexivity | exact Hc].
    - intros Hu. exists cm. split; [exact Hcm|]. rewrite Hgcm.
      apply Hnot. exact Hu.
    - intros Hu. exists cm. split; [exact Hcm|]. rewrite Hgcm.
      apply Hnf. exact Hu. }
  assert (Hraw : exists u f,
            (min_cap <- py_min_list (x :: l) ;;
             Ret (unit_for (min_cap * 1000000000))) = Ret (u, f, u)
            /\ ((u = "mF"%string /\ f = 1000%Q)
                \/ (u = "µF"%string /\ f = 1000000%Q)
                \/ (u = "nF"%string /\ f = 1000000000%Q))
            /\ (forall c, In c (x :: l) ->
                          f = 1000000000%Q \/ (1 < c * f)%Q)
            /\ (u <> "mF"%string ->
                exists c, In c (x :: l) /\ (c * 1000 <= 1)%Q)
            /\ (u = "nF"%string ->
                exists c, In c (x :: l) /\ (c * 1000000 <= 1)%Q)).
  { cbn [py_min_list bind].
    destruct (Hgen (fun c => c)) as [u [f H]]. rewrite map_id in H.
    exists u, f. exact H. }
  assert (Hwrap : forall (u : string) (f : Q) (P1 P2 P3 : Prop),
            ((u = "mF"%string /\ f = 1000%Q)
             \/ (u = "µF"%string /\ f = 1000000%Q)
             \/ (u = "nF"%string /\ f = 1000000000%Q)) ->
            P1 -> P2 -> P3 ->
            ((u = "mF"%string /\ f = 1000%Q)
             \/ (u = "µF"%string /\ f = 1000000%Q)
             \/ (u = "nF"%string /\ f = 1000000000%Q))
            /\ (c0 :: cs = [] -> u = "nF"%string /\ f = 1000000000%Q)
            /\ (c0 :: cs <> [] -> P1 /\ P2 /\ P3)).
  { intros u f P1 P2 P3 Hn H1 H2 H3. split; [exact Hn|].
    split; [discriminate | intros _; auto]. }
  destruct electrode_area as [a|].
  - destruct (use_specific && area_given (Some a)) eqn:Espec.
    + apply andb_true_iff in Espec. destruct Espec as [_ Ea].
      pose proof (area_given_nonzero a Ea) as Ha.
      rewrite (div_all_map _ a Ha). cbn [bind map py_min_list].
      destruct (Hgen (fun c => c / a)%Q) as [u [f [Heq [Hn [H1 [H2 H3]]]]]].
      exists u, f. split; [exact Heq|]. apply Hwrap; assumption.
    + destruct Hraw as [u [f [Heq [Hn [H1 [H2 H3]]]]]]. exists u, f.
      split; [exact Heq|]. apply Hwrap; assumption.
  - destruct Hraw as [u [f [Heq [Hn [H1 [H2 H3]]]]]]. exists u, f.
    split; [exact Heq|]. apply Hwrap; assumption.
Qed.

(** Two valid capacitances of 2 µF and 3 mF: the smaller one decides, µF. *)
Example unit_of_two_capacitances :
  get_capacitance_unit
    [mkCycleResult 1 0 (2 # 1000000) false None None;
     mkCycleResult 2 0 (3 # 1000) false None None]
    [2 # 1000000; 3 # 1000]%Q default_analyzer None false
  = Ret ("µF"%string, 1000000%Q, "µF"%string).
Proof. reflexivity. Qed.

(** ** Reading the metadata *)

Section MetadataFacts.

Variable float : string -> option Q.






End MetadataFacts.

(** A [Segment] entry of 4301 digits: [int] raises. *)
Example long_segment_raises :
  segment_field
    ("Segment = " ++ string_of_list_ascii (repeat "1"%char 4301))%string None
  = Raise ValueError
  /\ bad_segment
       ("Segment = " ++ string_of_list_ascii (repeat "1"%char 4301))%string
     = true
  /\ segment_field "Segment = 4" None = Ret (Some 4%nat).
Proof. repeat split; vm_compute; reflexivity. Qed.

Lemma strip_prefix_app (key s : string) :
  strip_prefix key (key ++ s)%string = Some s.
Proof.
  induction key as [|k key IH]; [destruct s; reflexivity|].
  cbn [String.append strip_prefix]. rewrite Ascii.eqb_refl. exact IH.
Qed.

Lemma prefix_app (key s : string) : String.prefix key (key ++ s)%string = true.
Proof.
  induction key as [|k key IH]; [destruct s; reflexivity|].
  cbn [String.append String.prefix].
  destruct (ascii_dec k k); [exact IH | congruence].
Qed.

Lemma contains_app (key s : string) : contains key (key ++ s)%string = true.
Proof.
  pose proof (prefix_app key s) as H.
  destruct (key ++ s)%string; cbn [contains]; rewrite H; reflexivity.
Qed.

Lemma lstrip_blanks (ws s : string) :
  all_chars is_space ws = true -> lstrip (ws ++ s)%string = lstrip s.
Proof.
  induction ws as [|c ws IH]; intros H; [reflexivity|].
  cbn [all_chars] in H. apply andb_true_iff in H. destruct H as [Hc Hws].
  cbn [String.append lstrip]. rewrite Hc. apply IH. exact Hws.
Qed.

Lemma take_while_app (class : ascii -> bool) (group rest : string) :
  all_chars class group = true ->
  ends_class class rest = true ->
  take_while class (group ++ rest)%string = group.
Proof.
  intros Hg Hr. induction group as [|c group IH].
  - cbn [String.append]. destruct rest as [|c rest]; [reflexivity|].
    cbn [ends_class] in Hr. cbn [take_while].
    apply negb_true_iff in Hr. rewrite Hr. reflexivity.
  - cbn [all_chars] in Hg. apply andb_true_iff in Hg. destruct Hg as [Hc Hg].
    cbn [String.append take_while]. rewrite Hc, (IH Hg). reflexivity.
Qed.

Lemma sci_class_not_space (c : ascii) :
  sci_class c = true -> is_space c = false.
Proof.
  destruct c as [[] [] [] [] [] [] [] []]; intros H;
    solve [reflexivity | discriminate H].
Qed.

Lemma signed_class_not_space (c : ascii) :
  signed_class c = true -> is_space c = false.
Proof.
  destruct c as [[] [] [] [] [] [] [] []]; intros H;
    solve [reflexivity | discriminate H].
Qed.

Section MetadataLines.

Variable float : string -> option Q.

(** A line that starts with a key, followed by blanks, [=], blanks and a
    value text of class characters, is read back: the field becomes what
    [float] makes of exactly that text, or [ValueError] is raised. *)
Theorem float_entry_read_back (key : string) (class : ascii -> bool)
    (ws1 ws2 group rest : string) (old : option Q) :
  (forall c, class c = true -> is_space c = false) ->
  all_chars is_space ws1 = true ->
  all_chars is_space ws2 = true ->
  group <> EmptyString ->
  all_chars class group = true ->
  ends_class class rest = true ->
  float_field float key class
    (key ++ ws1 ++ "=" ++ ws2 ++ group ++ rest)%string old
  = match float group with
    | Some x => Ret (Some x)
    | None => Raise ValueError
    end.
Proof.
  intros Hclass Hws1 Hws2 Hne Hg Hrest. unfold float_field.
  rewrite contains_app.
  assert (Hmatch : match_here key class
                     (key ++ ws1 ++ "=" ++ ws2 ++ group ++ rest)%string
                   = Some group).
  { unfold match_here. rewrite strip_prefix_app, (lstrip_blanks ws1 _ Hws1).
    cbn [String.append lstrip].
    change (is_space "="%char) with false. cbv iota.
    rewrite (lstrip_blanks ws2 _ Hws2).
    destruct group as [|c group]; [congruence|].
    cbn [all_chars] in Hg. apply andb_true_iff in Hg. destruct Hg as [Hc Hg].
    cbn [String.append lstrip]. rewrite (Hclass c Hc).
    change (String c (group ++ rest)%string)
      with (String c group ++ rest)%string.
    rewrite take_while_app; [reflexivity | | exact Hrest].
    cbn [all_chars]. rewrite Hc, Hg. reflexivity. }
  assert (Hsearch : re_search key class
                      (key ++ ws1 ++ "=" ++ ws2 ++ group ++ rest)%string
                    = Some group).
  { destruct (key ++ ws1 ++ "=" ++ ws2 ++ group ++ rest)%string;
      cbn [re_search]; rewrite Hmatch; reflexivity. }
  rewrite Hsearch. reflexivity.
Qed.

End MetadataLines.

Lemma float_entry_read_back_witness :
  all_chars is_space " " = true
  /\ all_chars sci_class "0.05" = true
  /\ float_field decimal_float "Scan Rate (V/s)" sci_class
       "Scan Rate (V/s) = 0.05; 5 s quiet" None
     = Ret (Some (5 # 100)).
Proof.
  split; [reflexivity|]. split; [reflexivity|].
  apply (float_entry_read_back decimal_float "Scan Rate (V/s)" sci_class
           " " " " "0.05" "; 5 s quiet" None).
  - apply sci_class_not_space.
  - reflexivity.
  - reflexivity.
  - discriminate.
  - reflexivity.
  - reflexivity.
Defined.

Section MetadataFrame.

Variable float : string -> option Q.

Lemma float_field_absent (key : string) (class : ascii -> bool)
    (line : string) (old : option Q) :
  contains key line = false ->
  float_field float key class line old = Ret old.
Proof. intros H. unfold float_field. rewrite H. reflexivity. Qed.

Lemma float_field_kept (key : string) (class : ascii -> bool)
    (line : string) (old v : option Q) :
  float_field float key class line old = Ret v ->
  contains key line = false -> v = old.
Proof.
  intros H Habs. rewrite (float_field_absent key class line old Habs) in H.
  injection H as <-. reflexivity.
Qed.

Lemma metadata_line_frame (line : string) (md md' : Metadata) :
  metadata_line float line md = Ret md' ->
  (contains "Init E (V)" line = false -> init_e md' = init_e md)
  /\ (contains "High E (V)" line = false -> high_e md' = high_e md)
  /\ (contains "Low E (V)" line = false -> low_e md' = low_e md)
  /\ (contains "Scan Rate (V/s)" line = false -> scan_rate md' = scan_rate md)
  /\ (contains "Segment" line = false -> segment md' = segment md)
  /\ (contains "Sample Interval (V)" line = false ->
      sample_interval md' = sample_interval md)
  /\ (contains "Sensitivity (A/V)" line = false ->
      sensitivity md' = sensitivity md).
Proof.
  unfold metadata_line.
  destruct (float_field float "Init E (V)" signed_class line (init_e md))
    as [v1|] eqn:E1; cbn [bind]; [|discriminate].
  destruct (float_field float "High E (V)" signed_class line (high_e md))
    as [v2|] eqn:E2; cbn [bind]; [|discriminate].
  destruct (float_field float "Low E (V)" signed_class line (low_e md))
    as [v3|] eqn:E3; cbn [bind]; [|discriminate].
  destruct (float_field float "Scan Rate (V/s)" sci_class line (scan_rate md))
    as [v4|] eqn:E4; cbn [bind]; [|discriminate].
  destruct (segment_field line (segment md))
    as [vs|] eqn:Es; cbn [bind]; [|discriminate].
  destruct (float_field float "Sample Interval (V)" sci_class line
              (sample_interval md))
    as [v5|] eqn:E5; cbn [bind]; [|discriminate].
  destruct (float_field float "Sensitivity (A/V)" sci_class line
              (sensitivity md))
    as [v6|] eqn:E6; cbn [bind]; [|discriminate].
  intros H. injection H as <-.
  cbn [init_e high_e low_e scan_rate segment sample_interval sensitivity].
  repeat split; intros Habs;
    try (eapply float_field_kept; eassumption).
  unfold segment_field in Es. rewrite Habs in Es. cbn [andb] in Es.
  injection Es as <-. reflexivity.
Qed.

(** A key that none of the first 50 lines contains leaves its entry in the
    metadata as it was; for a fresh analyzer, absent. *)
Theorem absent_key_keeps_entry (content : string) (md md' : Metadata) :
  _parse_metadata float content md = Ret md' ->
  let lines := firstn 50 (split newline content) in
  let absent key := forall line, In line lines -> contains key line = false in
  (absent "Init E (V)"%string -> init_e md' = init_e md)
  /\ (absent "High E (V)"%string -> high_e md' = high_e md)
  /\ (absent "Low E (V)"%string -> low_e md' = low_e md)
  /\ (absent "Scan Rate (V/s)"%string -> scan_rate md' = scan_rate md)
  /\ (absent "Segment"%string -> segment md' = segment md)
  /\ (absent "Sample Interval (V)"%string ->
      sample_interval md' = sample_interval md)
  /\ (absent "Sensitivity (A/V)"%string -> sensitivity md' = sensitivity md).
Proof.
  unfold _parse_metadata. generalize (firstn 50 (split newline content)).
  intros lines. revert md. induction lines as [|line lines IH]; intros md Hrun.
  - cbn [metadata_loop] in Hrun. injection Hrun as <-. cbv zeta.
    repeat split; reflexivity.
  - cbn [metadata_loop] in Hrun.
    destruct (metadata_line float line md) as [md1|] eqn:E1;
      cbn [bind] in Hrun; [|discriminate].
    destruct (metadata_line_frame line md md1 E1)
      as [F1 [F2 [F3 [F4 [F5 [F6 F7]]]]]].
    destruct (IH md1 Hrun) as [G1 [G2 [G3 [G4 [G5 [G6 G7]]]]]].
    cbv zeta in *.
    repeat split; intros Habs.
    + rewrite G1, F1; [reflexivity | apply Habs; left; reflexivity |
                       intros l Hl; apply Habs; right; exact Hl].
    + rewrite G2, F2; [reflexivity | apply Habs; left; reflexivity |
                       intros l Hl; apply Habs; right; exact Hl].
    + rewrite G3, F3; [reflexivity | apply Habs; left; reflexivity |
                       intros l Hl; apply Habs; right; exact Hl].
    + rewrite G4, F4; [reflexivity | apply Habs; left; reflexivity |
                       intros l Hl; apply Habs; right; exact Hl].
    + rewrite G5, F5; [reflexivity | apply Habs; left; reflexivity |
                       intros l Hl; apply Habs; right; exact Hl].
    + rewrite G6, F6; [reflexivity | apply Habs; left; reflexivity |
                       intros l Hl; apply Habs; right; exact Hl].
    + rewrite G7, F7; [reflexivity | apply Habs; left; reflexivity |
                       intros l Hl; apply Habs; right; exact Hl].
Qed.

End MetadataFrame.

Lemma absent_key_keeps_entry_witness :
  _parse_metadata decimal_float "Segment = 4" empty_metadata
    = Ret (mkMetadata None None None None (Some 4%nat) None None)
  /\ scan_rate (mkMetadata None None None None (Some 4%nat) None None)
     = scan_rate empty_metadata.
Proof.
  split; [reflexivity|].
  apply (absent_key_keeps_entry decimal_float "Segment = 4" empty_metadata
           (mkMetadata None None None None (Some 4%nat) None None) eq_refl).
  intros line [<-|[]]. reflexivity.
Defined.

(** ** Reading a second export into the same analyzer *)

Section ReadAgain.

Variable float : string -> option Q.
Variable parse_metadata : string -> Metadata -> py Metadata.

(** [read_file] does not clear the samples of an earlier call: the rows of
    the new text are appended to them, and with old samples in place the
    call reports success even when the new text has no data at all. *)
Theorem read_file_keeps_old_samples (content : string) (self : CVAnalyzer)
    (md : Metadata) :
  contains cv_marker content = true ->
  parse_metadata content (metadata self) = Ret md ->
  voltage_current_data self <> [] ->
  exists self',
    read_file float parse_metadata (Some content) self = Ret (true, self')
    /\ metadata self' = md
    /\ voltage_current_data self' =
         voltage_current_data self ++
         match lines_after_header (split newline content) with
         | None => []
         | Some ls => rows_of float ls
         end.
Proof.
  intros Hcv Hmd Hold. unfold read_file. rewrite Hcv. cbn [negb].
  cbn [set_is_cv metadata]. rewrite Hmd. cbn [bind].
  pose proof (parse_data_spec float content
                (set_metadata md (set_is_cv true self))) as Hdata.
  cbn [set_metadata set_is_cv voltage_current_data] in Hdata.
  assert (Hmeta : metadata (_parse_voltage_current_data float content
                              (set_metadata md (set_is_cv true self))) = md).
  { unfold _parse_voltage_current_data.
    destruct (header_loop 0 (split newline content) =? -1)%Z; reflexivity. }
  unfold set_metadata, set_is_cv in *.
  cbn [sensitivity_threshold_factor outlier_count metadata
         voltage_current_data is_cv] in *.
  destruct (voltage_current_data (_parse_voltage_current_data float content _))
    as [|s0 data] eqn:E.
  - exfalso. destruct (voltage_current_data self); [congruence | discriminate].
  - eexists. split; [reflexivity|]. split; [exact Hmeta|].
    rewrite E. exact Hdata.
Qed.

End ReadAgain.

Lemma read_file_keeps_old_samples_witness :
  contains cv_marker "Cyclic Voltammetry" = true
  /\ exists self',
       read_file decimal_float no_metadata (Some "Cyclic Voltammetry"%string)
         overflow_run = Ret (true, self')
       /\ voltage_current_data self' = voltage_current_data overflow_run ++ [].
Proof.
  split; [reflexivity|].
  destruct (read_file_keeps_old_samples decimal_float no_metadata
              "Cyclic Voltammetry" overflow_run (metadata overflow_run))
    as [self' [Hread [_ Hdata]]].
  - reflexivity.
  - reflexivity.
  - discriminate.
  - exists self'. split; [exact Hread | exact Hdata].
Defined.

(** ** The command line *)

Lemma read_file_success (float : string -> option Q)
    (parse_metadata : string -> Metadata -> py Metadata)
    (file : option string) (self self' : CVAnalyzer) :
  read_file float parse_metadata file self = Ret (true, self') ->
  exists content md,
    file = Some content
    /\ contains cv_marker content = true
    /\ parse_metadata content (metadata self) = Ret md
    /\ self' = _parse_voltage_current_data float content
                 (set_metadata md (set_is_cv true self)).
Proof.
  unfold read_file. destruct file as [content|]; [|discriminate].
  destruct (contains cv_marker content) eqn:Ecv; cbn [negb]; [|discriminate].
  cbn [set_is_cv metadata].
  destruct (parse_metadata content (metadata self)) as [md|] eqn:Emd;
    cbn [bind]; [|discriminate].
  destruct (voltage_current_data _) eqn:E; [discriminate|].
  intros H. injection H as <-. exists content, md.
  repeat split; try reflexivity; assumption.
Qed.

(** The command line exits with status 0 only for a readable file that has
    the technique marker and, after its first header line, two accepted
    rows or more. *)
Theorem main_succeeds_only_with_two_rows (float : string -> option Q)
    (sqrt : Q -> Q) (file_system : string -> option string)
    (argv : list string) :
  main float sqrt file_system argv = Ret 0%nat ->
  exists file_path content ls,
    nth_error argv 1 = Some file_path
    /\ file_system file_path = Some content
    /\ contains cv_marker content = true
    /\ lines_after_header (split newline content) = Some ls
    /\ (2 <= length (rows_of float ls))%nat.
Proof.
  unfold main. destruct (length argv <? 2)%nat eqn:Eargs; [discriminate|].
  apply Nat.ltb_ge in Eargs.
  destruct argv as [|a0 [|file_path argv]]; try (simpl in Eargs; lia).
  cbn [nth].
  destruct (read_file float (_parse_metadata float) (file_system file_path)
              (__init__ 10 1)) as [[ok an]|e] eqn:Eread;
    cbn [bind]; [|discriminate].
  destruct ok; cbn [negb]; [|discriminate].
  destruct (read_file_success _ _ _ _ _ Eread)
    as [content [md [Hfile [Hcv [Hmd Han]]]]].
  pose proof (parse_data_spec float content
                (set_metadata md (set_is_cv true (__init__ 10 1)))) as Hdata.
  rewrite <- Han in Hdata. cbn [set_metadata set_is_cv voltage_current_data
                                  __init__ app] in Hdata.
  destruct (analyze sqrt an) as [outcome|e] eqn:Ean; cbn [bind];
    [|discriminate].
  destruct outcome as [| | | |report]; try discriminate. intros _.
  exists file_path, content.
  assert (Hlen : (2 <= length (voltage_current_data an))%nat).
  { destruct (le_lt_dec 2 (length (voltage_current_data an))) as [H|H];
      [exact H|]. exfalso.
    unfold analyze in Ean. destruct (negb (is_cv an)); [discriminate|].
    destruct (voltage_current_data an) as [|s data] eqn:Ed; [discriminate|].
    assert (Hnil : _split_into_cycles an = []).
    { apply split_into_cycles_nil. rewrite Ed. exact H. }
    rewrite Hnil in Ean. discriminate. }
  rewrite Hdata in Hlen.
  destruct (lines_after_header (split newline content)) as [ls|];
    [|simpl in Hlen; lia].
  exists ls. auto.
Qed.

Lemma main_succeeds_only_with_two_rows_witness :
  main decimal_float sqrt_approx (fun _ => Some sample_export)
    ["cv_analysis.py"; "export.txt"]%string = Ret 0%nat
  /\ exists file_path content ls,
       nth_error ["cv_analysis.py"; "export.txt"]%string 1 = Some file_path
       /\ (fun _ : string => Some sample_export) file_path = Some content
       /\ contains cv_marker content = true
       /\ lines_after_header (split newline content) = Some ls
       /\ (2 <= length (rows_of decimal_float ls))%nat.
Proof.
  split; [vm_compute; reflexivity|].
  apply (main_succeeds_only_with_two_rows decimal_float sqrt_approx
           (fun _ => Some sample_export)
           ["cv_analysis.py"; "export.txt"]%string).
  vm_compute. reflexivity.
Defined.

Example single_sample_run_cannot_split (sqrt : Q -> Q) :
  analyze sqrt single_sample_run = Ret CannotSplitCycles.
Proof. reflexivity. Qed.

(** ** The figure and the summary text *)

(** The figure and the summary text never disagree: for the same results
    and analyzer the figure is annotated with the average and the standard
    deviation the text states, and with the single valid capacitance when
    there is one. *)
Theorem plot_agrees_with_text (sqrt : Q -> Q)
    (cycle_results : list CycleResult) (analyzer : CVAnalyzer)
    (electrode_area : option Q) (text : ResultText) :
  update_result_text sqrt cycle_results analyzer electrode_area = Ret text ->
  match figures text with
  | SeveralCycles avg_cap _ _ std_cap _ _ =>
      plot_average sqrt cycle_results analyzer = Ret (avg_cap, std_cap)
  | SingleCycle cap _ =>
      plot_average sqrt cycle_results analyzer = Ret (cap, 0%Q)
  | NoValidCycle =>
      _get_valid_capacitances cycle_results = []
      /\ exists c, plot_average sqrt cycle_results analyzer = Ret (c, 0%Q)
  end.
Proof.
  unfold update_result_text, plot_average.
  destruct (_get_valid_capacitances cycle_results) as [|c0 cs] eqn:Ev.
  - cbn [length Nat.ltb Nat.leb]. intros H. injection H as <-.
    cbn [figures]. split; [reflexivity|].
    destruct (positive_capacitances cycle_results); eauto.
  - destruct (1 <? length (c0 :: cs))%nat eqn:Elen.
    + destruct (_calculate_robust_average sqrt analyzer (c0 :: cs)) as [m|];
        cbn [bind]; [|discriminate].
      assert (Hsd : exists sd, stdev sqrt (c0 :: cs) = Ret sd).
      { unfold stdev. apply Nat.ltb_lt in Elen.
        destruct (length (c0 :: cs) <? 2)%nat eqn:E2;
          [apply Nat.ltb_lt in E2; lia|]. eexists. reflexivity. }
      destruct Hsd as [sd Hsd].
      cbn [py_min_list py_max_list bind]. rewrite Hsd. cbn [bind].
      destruct (py_div sd m) as [ratio|]; cbn [bind].
      * destruct electrode_area as [a|].
        -- destruct (area_given (Some a)).
           ++ destruct (py_div m a); cbn [bind]; [|discriminate].
              destruct (py_div (py_min c0 cs) a); cbn [bind]; [|discriminate].
              destruct (py_div (py_max c0 cs) a); cbn [bind]; [|discriminate].
              destruct (py_div sd a); cbn [bind]; [|discriminate].
              intros H. injection H as <-. reflexivity.
           ++ intros H. injection H as <-. reflexivity.
        -- intros H. injection H as <-. reflexivity.
      * destruct electrode_area as [a|].
        -- destruct (area_given (Some a)).
           ++ destruct (py_div m a); cbn [bind]; [|discriminate].
              destruct (py_div (py_min c0 cs) a); cbn [bind]; [|discriminate].
              destruct (py_div (py_max c0 cs) a); cbn [bind]; [|discriminate].
              destruct (py_div sd a); cbn [bind]; discriminate.
           ++ discriminate.
        -- discriminate.
    + destruct cs as [|c1 cs]; [|cbn [length] in Elen; discriminate].
      destruct electrode_area as [a|].
      * destruct (area_given (Some a)).
        -- destruct (py_div c0 a); cbn [bind]; [|discriminate].
           intros H. injection H as <-. reflexivity.
        -- intros H. injection H as <-. reflexivity.
      * intros H. injection H as <-. reflexivity.
Qed.

Lemma plot_agrees_with_text_witness :
  exists text c,
    update_result_text sqrt_approx
      [mkCycleResult 1 0 (1 # 1000) false None None] default_analyzer None
      = Ret text
    /\ figures text = SingleCycle c None
    /\ plot_average sqrt_approx
         [mkCycleResult 1 0 (1 # 1000) false None None] default_analyzer
       = Ret (c, 0%Q).
Proof.
  eexists. eexists. split; [reflexivity|]. split; [reflexivity|].
  apply (plot_agrees_with_text sqrt_approx
           [mkCycleResult 1 0 (1 # 1000) false None None] default_analyzer None
           _ eq_refl).
Defined.
